(** * Cloud Gallery: the gallery service and its HTTP endpoints

    A shallow embedding of [GalleryService] (lib/services/galleryService.ts),
    of the Cloudinary helpers it calls (lib/cloudinary.ts) and of the route
    handlers of [/api/images], [/api/images/upload] and [/api/images/[id]].

    The service talks to two collaborators, MongoDB and Cloudinary.  Both are
    kept in an explicit [World]; every [await] on one of them may reject, and
    the world says which calls do.  JavaScript exceptions are carried by a
    small state-and-error monad [IO]. *)

From Stdlib Require Import ZArith QArith Qround String Ascii List Bool Lia.
From stdpp Require Import base decidable list sorting gmap strings.

Set Default Proof Using "Type".

(** ** Strings

    JavaScript strings are modelled by [string]: sequences of code units, of
    which only those below 256 are represented. *)

Module Js.

(** WhiteSpace and LineTerminator code units below 256: TAB, LF, VT, FF, CR,
    SP and NBSP. *)
Definition isWhiteSpace (c : ascii) : bool :=
  let n := nat_of_ascii c in
  (n =? 9)%nat || (n =? 10)%nat || (n =? 11)%nat || (n =? 12)%nat
  || (n =? 13)%nat || (n =? 32)%nat || (n =? 160)%nat.

Fixpoint trimStart (s : string) : string :=
  match s with
  | EmptyString => EmptyString
  | String c s' => if isWhiteSpace c then trimStart s' else s
  end.

(** [trimEnd] keeps a character when something other than white space
    follows it. *)
Fixpoint trimEnd (s : string) : string :=
  match s with
  | EmptyString => EmptyString
  | String c s' =>
      match trimEnd s' with
      | EmptyString => if isWhiteSpace c then EmptyString else String c EmptyString
      | t => String c t
      end
  end.

Definition trim (s : string) : string := trimEnd (trimStart s).

(** [s.split(',')]: the pieces between the separators, at least one. *)
Fixpoint split (sep : ascii) (s : string) : list string :=
  match s with
  | EmptyString => [EmptyString]
  | String c s' =>
      if decide (c = sep) then EmptyString :: split sep s'
      else match split sep s' with
           | [] => [String c EmptyString]
           | p :: ps => String c p :: ps
           end
  end.

Definition startsWith (s p : string) : bool := String.prefix p s.

(** Truthiness of a value that is a string or null/undefined. *)
Definition truthy (o : option string) : bool :=
  match o with
  | Some s => negb (String.eqb s "")
  | None => false
  end.

(** [o || d] on such a value. *)
Definition or_else (o : option string) (d : string) : string :=
  match o with
  | Some s => if String.eqb s "" then d else s
  | None => d
  end.

(** ** Numbers

    A JavaScript number is NaN, an infinity or a finite value.  Finite values
    are kept as exact rationals: the rounding of doubles and the sign of zero
    are left out.  The numbers of this program are page numbers, limits and
    document counts, on which [/], [Math.ceil] and the comparisons are exact
    below 2^53. *)
Inductive number :=
| NaN
| Infinity (negative : bool)
| Fin (q : Q).

Definition of_Z (z : Z) : number := Fin (inject_Z z).
Definition of_nat (n : nat) : number := of_Z (Z.of_nat n).

Definition Qltb (a b : Q) : bool := negb (Qle_bool b a).

(** [a < b]: false as soon as an operand is NaN. *)
Definition lt (a b : number) : bool :=
  match a, b with
  | NaN, _ | _, NaN => false
  | Infinity true, Infinity true => false
  | Infinity true, _ => true
  | _, Infinity true => false
  | Infinity false, _ => false
  | Fin _, Infinity false => true
  | Fin x, Fin y => Qltb x y
  end.

(** [a > b] *)
Definition gt (a b : number) : bool := lt b a.

Definition sub (a b : number) : number :=
  match a, b with
  | NaN, _ | _, NaN => NaN
  | Infinity s, Infinity t => if Bool.eqb s t then NaN else Infinity s
  | Infinity s, Fin _ => Infinity s
  | Fin _, Infinity t => Infinity (negb t)
  | Fin x, Fin y => Fin (x - y)
  end.

Definition Qsign_neg (q : Q) : bool := Qltb q 0.
Definition Qis_zero (q : Q) : bool := Qeq_bool q 0.

Definition mul (a b : number) : number :=
  match a, b with
  | NaN, _ | _, NaN => NaN
  | Infinity s, Infinity t => Infinity (xorb s t)
  | Infinity s, Fin y | Fin y, Infinity s =>
      if Qis_zero y then NaN else Infinity (xorb s (Qsign_neg y))
  | Fin x, Fin y => Fin (x * y)
  end.

Definition div (a b : number) : number :=
  match a, b with
  | NaN, _ | _, NaN => NaN
  | Infinity _, Infinity _ => NaN
  | Infinity s, Fin y => Infinity (xorb s (Qsign_neg y))
  | Fin _, Infinity _ => Fin 0
  | Fin x, Fin y =>
      if Qis_zero y then (if Qis_zero x then NaN else Infinity (Qsign_neg x))
      else Fin (x / y)
  end.

(** [Math.ceil] *)
Definition ceil (a : number) : number :=
  match a with
  | Fin x => of_Z (Qceiling x)
  | _ => a
  end.

(** The integers a number can be when it counts or skips documents. *)
Definition to_nat (a : number) : option nat :=
  match a with
  | Fin x =>
      if Qeq_bool x (inject_Z (Qfloor x)) && (0 <=? Qfloor x)%Z
      then Some (Z.to_nat (Qfloor x)) else None
  | _ => None
  end.

(** ** parseInt(string), no radix given

    The result is the integer the digits spell, which is what JavaScript
    yields as long as it is at most 2^53. *)

Definition digitValue (c : ascii) : option Z :=
  let n := Z.of_nat (nat_of_ascii c) in
  if (48 <=? n)%Z && (n <=? 57)%Z then Some (n - 48)%Z
  else if (97 <=? n)%Z && (n <=? 122)%Z then Some (n - 87)%Z
  else if (65 <=? n)%Z && (n <=? 90)%Z then Some (n - 55)%Z
  else None.

(** The value of the longest prefix of [s] made of digits of the radix;
    [acc] is the value read so far, [None] when no digit was read. *)
Fixpoint digits (radix : Z) (s : string) (acc : option Z) : option Z :=
  match s with
  | EmptyString => acc
  | String c s' =>
      match digitValue c with
      | Some d =>
          if (d <? radix)%Z
          then digits radix s' (Some (default 0%Z acc * radix + d)%Z)
          else acc
      | None => acc
      end
  end.

Definition parseInt (input : string) : number :=
  let s := trimStart input in
  let '(sign, s) :=
    match s with
    | String "-" r => ((-1)%Z, r)
    | String "+" r => (1%Z, r)
    | _ => (1%Z, s)
    end in
  let '(radix, s) :=
    match s with
    | String "0" (String "x" r) | String "0" (String "X" r) => (16%Z, r)
    | _ => (10%Z, s)
    end in
  match digits radix s None with
  | None => NaN
  | Some z => of_Z (sign * z)
  end.

End Js.


(** ** Data model (types/gallery.ts) *)

(** What the mongodb driver and server supply: object ids, and the relevance
    of a document (its title and description) for a text search; a document
    matches the search when its relevance is positive. *)
Class Mongo := {
  ObjectId : Type;
  ObjectId_eq_dec :: EqDecision ObjectId;
  ObjectId_isValid : string -> bool;
  ObjectId_new : string -> ObjectId;
  textScore : string -> string -> option string -> Q;
}.

(** Milliseconds since the epoch. *)
Definition Date := Z.

Definition Buffer := list Byte.byte.

Module CreateImageRequest.
Record t := {
  title : string;
  description : option string;
  tags : option (list string);
  isPublic : option bool;
}.
End CreateImageRequest.

Module UpdateImageRequest.
Record t := {
  title : option string;
  description : option string;
  tags : option (list string);
  isPublic : option bool;
}.
End UpdateImageRequest.

Module CloudinaryUploadResult.
Record t := {
  public_id : string;
  secure_url : string;
  format : string;
  width : Js.number;
  height : Js.number;
  bytes : Js.number;
}.
End CloudinaryUploadResult.

Module PaginationQuery.
Record t := {
  page : option Js.number;
  limit : option Js.number;
  sortBy : option string;
  sortOrder : option string;
  tags : option string;
  isPublic : option bool;
}.
Definition empty : t := Build_t None None None None None None.
End PaginationQuery.

Record Pagination := {
  currentPage : Js.number;
  totalPages : Js.number;
  totalItems : Js.number;
  itemsPerPage : Js.number;
  hasNextPage : bool;
  hasPrevPage : bool;
}.

Record ApiResponse (T : Type) := {
  success : bool;
  message : string;
  data : option T;
  error : option string;
}.
Arguments success {T}.
Arguments message {T}.
Arguments data {T}.
Arguments error {T}.
Arguments Build_ApiResponse {T}.

(** [PaginatedResponse<T> extends ApiResponse<T[]>] *)
Record PaginatedResponse (T : Type) := {
  response : ApiResponse (list T);
  pagination : Pagination;
}.
Arguments response {T}.
Arguments pagination {T}.
Arguments Build_PaginatedResponse {T}.

Record SyncStatus := {
  inSync : bool;
  mongoCount : Js.number;
  cloudinaryCount : Js.number;
  discrepancies : list string;
}.

(** A thrown value: an [Error] with its message, or something else (the
    Cloudinary SDK rejects with plain objects). *)
Inductive Exn :=
| Error (message : string)
| NotAnError (description : string).

(** [error instanceof Error ? error.message : fallback] *)
Definition message_or (e : Exn) (fallback : string) : string :=
  match e with
  | Error m => m
  | NotAnError _ => fallback
  end.

Inductive Result (A : Type) :=
| Returned (a : A)
| Thrown (e : Exn).
Arguments Returned {A}.
Arguments Thrown {A}.

Section Model.
Context `{Mongo}.

Record GalleryImage := {
  _id : option ObjectId;
  title : string;
  description : option string;
  cloudinaryId : string;
  cloudinaryUrl : string;
  publicId : string;
  format : string;
  width : Js.number;
  height : Js.number;
  bytes : Js.number;
  tags : list string;
  createdAt : Date;
  updatedAt : Date;
  uploadedBy : option string;
  isPublic : bool;
}.

(** The [$set] document that [updateImage] assembles: a key is present when
    its field is [Some]. *)
Record UpdateObject := {
  set_updatedAt : option Date;
  set_title : option string;
  set_description : option string;
  set_tags : option (list string);
  set_isPublic : option bool;
  set_cloudinaryUrl : option string;
  set_format : option string;
  set_width : option Js.number;
  set_height : option Js.number;
  set_bytes : option Js.number;
}.

(** The query filters the service builds. *)
Record Filter := {
  text_search : option string;        (* $text: { $search } *)
  tags_in : option (list string);     (* tags: { $in } *)
  isPublic_is : option bool;
}.

Inductive SortValue :=
| Ascending                           (* 1 *)
| Descending                          (* -1 *)
| MetaTextScore.                      (* { $meta: 'textScore' } *)

(** A sort document: its keys in insertion order. *)
Definition SortDoc := list (string * SortValue).

(** The calls made to the two collaborators. *)
Inductive Call :=
| GetDatabase
| CreateIndex (keys : list string) (unique : bool)
| InsertOne (doc : GalleryImage)
| FindOne (id : ObjectId)
| FindOneByCloudinaryId (cloudinaryId : string)
| FindOneAndUpdate (id : ObjectId) (update : UpdateObject)
| DeleteOne (id : ObjectId)
| CountDocuments (filter : Filter)
| Find (filter : Filter) (sort : SortDoc) (skip limit : option Js.number)
| UploadStream (file : Buffer) (public_id : option string)
| Destroy (public_id : string)
| Resources (prefix : string) (max_results : Js.number).

(** The two stores: the documents of the [images] collection in natural
    order, and the public ids of the assets held by Cloudinary. *)
Record Stores := {
  images : list GalleryImage;
  assets : list string;
}.

(** What the service does not decide: which calls reject and why, what other
    requests did to the stores by the time a call is served, what Cloudinary
    reports for an upload and which id an insert is acknowledged with. *)
Record Environment := {
  rejects : Call -> option Exn;
  meanwhile : Call -> Stores -> Stores;
  uploaded : CloudinaryUploadResult.t;
  insertedId : option ObjectId;
}.

Record World := {
  stores : Stores;
  collection : bool;                  (* this.collection is set *)
  now : Date;                         (* what new Date() reads *)
  calls : list Call;                  (* the calls issued, oldest first *)
  env : Environment;
}.

Definition with_stores (s : Stores) (w : World) : World :=
  {| stores := s; collection := collection w; now := now w;
     calls := calls w; env := env w |}.
Definition with_collection (b : bool) (w : World) : World :=
  {| stores := stores w; collection := b; now := now w;
     calls := calls w; env := env w |}.
Definition with_call (c : Call) (w : World) : World :=
  {| stores := stores w; collection := collection w; now := now w;
     calls := calls w ++ [c]; env := env w |}.

(** ** The monad of asynchronous code *)

Definition IO (A : Type) : Type := World -> Result A * World.

Definition ret {A} (a : A) : IO A := fun w => (Returned a, w).

Definition throw {A} (e : Exn) : IO A := fun w => (Thrown e, w).

Definition bind {A B} (m : IO A) (k : A -> IO B) : IO B := fun w =>
  match m w with
  | (Returned a, w') => k a w'
  | (Thrown e, w') => (Thrown e, w')
  end.

(** [try { body } catch (error) { handler }] *)
Definition try_catch {A} (body : IO A) (handler : Exn -> IO A) : IO A := fun w =>
  match body w with
  | (Returned a, w') => (Returned a, w')
  | (Thrown e, w') => handler e w'
  end.

(** [new Date()] *)
Definition new_Date : IO Date := fun w => (Returned (now w), w).

(** An awaited call to a collaborator: it is recorded, other requests have
    had their turn, and it rejects or is served on the stores. *)
Definition await {A} (c : Call) (serve : Stores -> Result A * Stores) : IO A := fun w =>
  let w := with_call c w in
  let s := meanwhile (env w) c (stores w) in
  match rejects (env w) c with
  | Some e => (Thrown e, with_stores s w)
  | None => let '(r, s') := serve s in (r, with_stores s' w)
  end.

End Model.

Notation "'let*' x ':=' m 'in' k" := (bind m (fun x => k))
  (at level 10, x pattern, m at level 100, k at level 200).
Notation "m ';;' k" := (bind m (fun _ => k))
  (at level 100, k at level 200, right associativity).

(** ** The record store: the [images] collection as the driver exposes it *)

Module Collection.
Section Collection.
Context `{Mongo}.

Definition has_id (id : ObjectId) (d : GalleryImage) : bool :=
  bool_decide (_id d = Some id).

Definition with_id (id : ObjectId) (d : GalleryImage) : GalleryImage :=
  {| _id := Some id; title := title d; description := description d;
     cloudinaryId := cloudinaryId d; cloudinaryUrl := cloudinaryUrl d;
     publicId := publicId d; format := format d; width := width d;
     height := height d; bytes := bytes d; tags := tags d;
     createdAt := createdAt d; updatedAt := updatedAt d;
     uploadedBy := uploadedBy d; isPublic := isPublic d |}.

Definition or_keep {A} (new : option A) (old : A) : A :=
  match new with
  | Some a => a
  | None => old
  end.

(** [{ $set: u }] applied to a document: the keys of [u] are overwritten, the
    others are kept. *)
Definition apply_set (u : UpdateObject) (d : GalleryImage) : GalleryImage :=
  {| _id := _id d;
     title := or_keep (set_title u) (title d);
     description :=
       match set_description u with
       | Some s => Some s
       | None => description d
       end;
     cloudinaryId := cloudinaryId d;
     cloudinaryUrl := or_keep (set_cloudinaryUrl u) (cloudinaryUrl d);
     publicId := publicId d;
     format := or_keep (set_format u) (format d);
     width := or_keep (set_width u) (width d);
     height := or_keep (set_height u) (height d);
     bytes := or_keep (set_bytes u) (bytes d);
     tags := or_keep (set_tags u) (tags d);
     createdAt := createdAt d;
     updatedAt := or_keep (set_updatedAt u) (updatedAt d);
     uploadedBy := uploadedBy d;
     isPublic := or_keep (set_isPublic u) (isPublic d) |}.

Definition set_images (docs : list GalleryImage) (s : Stores) : Stores :=
  {| images := docs; assets := assets s |}.

(** The first document with the id is replaced by its update. *)
Fixpoint update_first (id : ObjectId) (u : UpdateObject) (docs : list GalleryImage)
  : option GalleryImage * list GalleryImage :=
  match docs with
  | [] => (None, [])
  | d :: rest =>
      if has_id id d then (Some (apply_set u d), apply_set u d :: rest)
      else let '(r, rest') := update_first id u rest in (r, d :: rest')
  end.

(** The first document with the id is removed; the count of removed
    documents comes with what is left. *)
Fixpoint delete_first (id : ObjectId) (docs : list GalleryImage)
  : Z * list GalleryImage :=
  match docs with
  | [] => (0%Z, [])
  | d :: rest =>
      if has_id id d then (1%Z, rest)
      else let '(n, rest') := delete_first id rest in (n, d :: rest')
  end.

Definition relevance (term : option string) (d : GalleryImage) : Q :=
  match term with
  | Some t => textScore t (title d) (description d)
  | None => 0
  end.

Definition matches (f : Filter) (d : GalleryImage) : bool :=
  match text_search f with
  | Some _ => Js.Qltb 0 (relevance (text_search f) d)
  | None => true
  end
  && match tags_in f with
     | Some wanted => existsb (fun t => bool_decide (t ∈ tags d)) wanted
     | None => true
     end
  && match isPublic_is f with
     | Some b => Bool.eqb (isPublic d) b
     | None => true
     end.

(** Order of two documents on one field; strings compare by code units.
    Only the fields a [PaginationQuery] may sort by discriminate. *)
Definition compare_field (field : string) (a b : GalleryImage) : comparison :=
  if String.eqb field "createdAt" then Z.compare (createdAt a) (createdAt b)
  else if String.eqb field "updatedAt" then Z.compare (updatedAt a) (updatedAt b)
  else if String.eqb field "title" then String.compare (title a) (title b)
  else Eq.

(** One key of a sort document; a text score sorts from high to low. *)
Definition compare_key (term : option string) (k : string * SortValue)
  (a b : GalleryImage) : comparison :=
  match snd k with
  | Ascending => compare_field (fst k) a b
  | Descending => CompOpp (compare_field (fst k) a b)
  | MetaTextScore => Qcompare (relevance term b) (relevance term a)
  end.

(** A sort document orders by its first key, then by the next keys. *)
Fixpoint compare_docs (term : option string) (sort : SortDoc)
  (a b : GalleryImage) : comparison :=
  match sort with
  | [] => Eq
  | k :: ks =>
      match compare_key term k a b with
      | Eq => compare_docs term ks a b
      | c => c
      end
  end.

Definition precedes (term : option string) (sort : SortDoc)
  (a b : GalleryImage) : bool :=
  match compare_docs term sort a b with
  | Gt => false
  | _ => true
  end.

Fixpoint insert_sorted (le : GalleryImage -> GalleryImage -> bool)
  (d : GalleryImage) (sorted : list GalleryImage) : list GalleryImage :=
  match sorted with
  | [] => [d]
  | x :: rest => if le d x then d :: sorted else x :: insert_sorted le d rest
  end.

Definition sort_docs (le : GalleryImage -> GalleryImage -> bool)
  (docs : list GalleryImage) : list GalleryImage :=
  foldr (insert_sorted le) [] docs.

(** [cursor.skip(n)]: a count of documents, or the cursor is refused. *)
Definition skipped (skip : option Js.number) (docs : list GalleryImage)
  : option (list GalleryImage) :=
  match skip with
  | None => Some docs
  | Some n => (fun k => drop k docs) <$> Js.to_nat n
  end.

(** [cursor.limit(n)]: 0 is no limit, -n limits like n. *)
Definition limited (limit : option Js.number) (docs : list GalleryImage)
  : option (list GalleryImage) :=
  match limit with
  | None => Some docs
  | Some n =>
      let m := if Js.lt n (Js.of_Z 0) then Js.sub (Js.of_Z 0) n else n in
      (fun k => match k with O => docs | _ => take k docs end) <$> Js.to_nat m
  end.

Definition serve_find (f : Filter) (sort : SortDoc) (skip limit : option Js.number)
  (s : Stores) : Result (list GalleryImage) * Stores :=
  let found := sort_docs (precedes (text_search f) sort) (List.filter (matches f) (images s)) in
  match skipped skip found ≫= limited limit with
  | Some page => (Returned page, s)
  | None => (Thrown (Error "Cursor arguments are not valid"), s)
  end.

(** An insert is refused on a duplicate [_id] or [cloudinaryId] (the unique
    index); acknowledged without an id, nothing is stored. *)
Definition serve_insertOne (ack : option ObjectId) (doc : GalleryImage)
  (s : Stores) : Result (option ObjectId) * Stores :=
  match ack with
  | None => (Returned None, s)
  | Some id =>
      if existsb (has_id id) (images s)
         || existsb (fun d => String.eqb (cloudinaryId d) (cloudinaryId doc)) (images s)
      then (Thrown (Error "E11000 duplicate key error collection: images"), s)
      else (Returned (Some id), set_images (images s ++ [with_id id doc]) s)
  end.

Definition createIndex (keys : list string) (unique : bool) : IO unit :=
  await (CreateIndex keys unique) (fun s => (Returned tt, s)).

Definition insertOne (doc : GalleryImage) : IO (option ObjectId) := fun w =>
  await (InsertOne doc) (serve_insertOne (insertedId (env w)) doc) w.

Definition findOne (id : ObjectId) : IO (option GalleryImage) :=
  await (FindOne id) (fun s => (Returned (List.find (has_id id) (images s)), s)).

Definition findOneByCloudinaryId (cid : string) : IO (option GalleryImage) :=
  await (FindOneByCloudinaryId cid)
    (fun s => (Returned (List.find (fun d => String.eqb (cloudinaryId d) cid) (images s)), s)).

(** [findOneAndUpdate(..., { $set }, { returnDocument: 'after' })] *)
Definition findOneAndUpdate (id : ObjectId) (u : UpdateObject) : IO (option GalleryImage) :=
  await (FindOneAndUpdate id u)
    (fun s => let '(r, docs) := update_first id u (images s) in
              (Returned r, set_images docs s)).

(** [deleteOne]: the [deletedCount] of its result. *)
Definition deleteOne (id : ObjectId) : IO Z :=
  await (DeleteOne id)
    (fun s => let '(n, docs) := delete_first id (images s) in
              (Returned n, set_images docs s)).

Definition countDocuments (f : Filter) : IO Js.number :=
  await (CountDocuments f)
    (fun s => (Returned (Js.of_nat (length (List.filter (matches f) (images s)))), s)).

(** [find(f).sort(sort).skip(skip).limit(limit).toArray()] *)
Definition find (f : Filter) (sort : SortDoc) (skip limit : option Js.number)
  : IO (list GalleryImage) :=
  await (Find f sort skip limit) (serve_find f sort skip limit).

End Collection.
End Collection.

(** ** lib/cloudinary.ts *)

Module Cloudinary.
Section Cloudinary.
Context `{Mongo}.

Definition set_assets (ids : list string) (s : Stores) : Stores :=
  {| images := images s; assets := ids |}.

(** An upload stores the asset under the public id Cloudinary reports. *)
Definition serve_upload (r : CloudinaryUploadResult.t) (s : Stores)
  : Result CloudinaryUploadResult.t * Stores :=
  let id := CloudinaryUploadResult.public_id r in
  (Returned r, if bool_decide (id ∈ assets s) then s else set_assets (assets s ++ [id]) s).

Definition serve_destroy (public_id : string) (s : Stores) : Result unit * Stores :=
  (Returned tt, set_assets (List.filter (fun a => negb (String.eqb a public_id)) (assets s)) s).

(** [api.resources]: the public ids of up to [max_results] assets with the
    prefix. *)
Definition serve_resources (prefix : string) (max_results : Js.number) (s : Stores)
  : Result (list string) * Stores :=
  match Js.to_nat max_results with
  | Some n => (Returned (take n (List.filter (fun a => Js.startsWith a prefix) (assets s))), s)
  | None => (Thrown (NotAnError "max_results is not valid"), s)
  end.

(** [catch (error) { console.error(...); throw error; }] *)
Definition logged {A} (body : IO A) : IO A :=
  try_catch body (fun error => throw error).

Definition uploadImage (file : Buffer) (publicId : option string)
  : IO CloudinaryUploadResult.t := fun w =>
  let public_id := if Js.truthy publicId then publicId else None in
  await (UploadStream file public_id) (serve_upload (uploaded (env w))) w.

Definition deleteImage (publicId : string) : IO unit :=
  logged (await (Destroy publicId) (serve_destroy publicId)).

Definition updateImage (publicId : string) (file : Buffer) : IO CloudinaryUploadResult.t :=
  logged (deleteImage publicId;; uploadImage file (Some publicId)).

Definition listImages (maxResults : option Js.number) : IO (list string) :=
  let maxResults := default (Js.of_Z 50) maxResults in
  logged (await (Resources "gallery" maxResults) (serve_resources "gallery" maxResults)).

End Cloudinary.
End Cloudinary.

(** ** lib/services/galleryService.ts *)

(** A JavaScript [Set] of strings: its elements in insertion order. *)
Module StringSet.

Definition add (s : list string) (x : string) : list string :=
  if bool_decide (x ∈ s) then s else s ++ [x].

(** [new Set(iterable)] *)
Definition new (xs : list string) : list string := foldl add [] xs.

Definition has (s : list string) (x : string) : bool := bool_decide (x ∈ s).

End StringSet.

Module GalleryService.
Section GalleryService.
Context `{Mongo}.

Definition set_collection : IO unit := fun w => (Returned tt, with_collection true w).

Definition getCollection : IO unit := fun w =>
  if collection w then (Returned tt, w)
  else
    (await GetDatabase (fun s => (Returned tt, s));;
     set_collection;;
     Collection.createIndex ["cloudinaryId"] true;;
     Collection.createIndex ["createdAt"] false;;
     Collection.createIndex ["tags"] false;;
     Collection.createIndex ["isPublic"] false;;
     Collection.createIndex ["title"; "description"] false;;
     ret tt) w.

Definition createImage (imageData : CreateImageRequest.t) (file : Buffer)
  : IO GalleryImage :=
  try_catch
    (getCollection;;
     let* cloudinaryResult := Cloudinary.uploadImage file None in
     let* created := new_Date in
     let* updated := new_Date in
     let newImage :=
       {| _id := None;
          title := CreateImageRequest.title imageData;
          description := Some (Js.or_else (CreateImageRequest.description imageData) "");
          cloudinaryId := CloudinaryUploadResult.public_id cloudinaryResult;
          cloudinaryUrl := CloudinaryUploadResult.secure_url cloudinaryResult;
          publicId := CloudinaryUploadResult.public_id cloudinaryResult;
          format := CloudinaryUploadResult.format cloudinaryResult;
          width := CloudinaryUploadResult.width cloudinaryResult;
          height := CloudinaryUploadResult.height cloudinaryResult;
          bytes := CloudinaryUploadResult.bytes cloudinaryResult;
          tags := default [] (CreateImageRequest.tags imageData);
          createdAt := created;
          updatedAt := updated;
          uploadedBy := None;
          isPublic := default true (CreateImageRequest.isPublic imageData) |} in
     let* result := Collection.insertOne newImage in
     match result with
     | None =>
         Cloudinary.deleteImage (CloudinaryUploadResult.public_id cloudinaryResult);;
         throw (Error "Failed to create image record in database")
     | Some insertedId => ret (Collection.with_id insertedId newImage)
     end)
    (fun error =>
       throw (Error ("Failed to create image: " +:+ message_or error "Unknown error"))).

(** The filter on tags and visibility shared by listing and search. *)
Definition build_filter (text : option string) (tags : option string)
  (isPublic : option bool) : Filter :=
  {| text_search := text;
     tags_in :=
       if Js.truthy tags
       then Some (Js.trim <$> Js.split "," (default "" tags))
       else None;
     isPublic_is := isPublic |}.

Definition direction (sortOrder : string) : SortValue :=
  if String.eqb sortOrder "asc" then Ascending else Descending.

(** [sort[key] = value] on a sort document: a key already there keeps its
    place. *)
Fixpoint assign (key : string) (value : SortValue) (sort : SortDoc) : SortDoc :=
  match sort with
  | [] => [(key, value)]
  | (k, v) :: rest =>
      if String.eqb k key then (k, value) :: rest
      else (k, v) :: assign key value rest
  end.

Definition page_of (totalItems page limit : Js.number) : Pagination :=
  let totalPages := Js.ceil (Js.div totalItems limit) in
  {| currentPage := page;
     totalPages := totalPages;
     totalItems := totalItems;
     itemsPerPage := limit;
     hasNextPage := Js.lt page totalPages;
     hasPrevPage := Js.gt page (Js.of_Z 1) |}.

Definition getImages (query : PaginationQuery.t)
  : IO (PaginatedResponse GalleryImage) :=
  try_catch
    (getCollection;;
     let page := default (Js.of_Z 1) (PaginationQuery.page query) in
     let limit := default (Js.of_Z 20) (PaginationQuery.limit query) in
     let sortBy := default "createdAt" (PaginationQuery.sortBy query) in
     let sortOrder := default "desc" (PaginationQuery.sortOrder query) in
     let filter :=
       build_filter None (PaginationQuery.tags query) (PaginationQuery.isPublic query) in
     let sort := assign sortBy (direction sortOrder) [] in
     let skip := Js.mul (Js.sub page (Js.of_Z 1)) limit in
     let* totalItems := Collection.countDocuments filter in
     let* images := Collection.find filter sort (Some skip) (Some limit) in
     ret {| response :=
              {| success := true;
                 message := "Images retrieved successfully";
                 data := Some images;
                 error := None |};
            pagination := page_of totalItems page limit |})
    (fun error =>
       throw (Error ("Failed to retrieve images: " +:+ message_or error "Unknown error"))).

Definition getImageById (id : string) : IO (option GalleryImage) :=
  try_catch
    (getCollection;;
     if negb (ObjectId_isValid id) then throw (Error "Invalid image ID format")
     else Collection.findOne (ObjectId_new id))
    (fun error =>
       throw (Error ("Failed to retrieve image: " +:+ message_or error "Unknown error"))).

Definition getImageByCloudinaryId (cloudinaryId : string) : IO (option GalleryImage) :=
  try_catch
    (getCollection;;
     Collection.findOneByCloudinaryId cloudinaryId)
    (fun error =>
       throw (Error ("Failed to retrieve image: " +:+ message_or error "Unknown error"))).

Definition updateImage (id : string) (updateData : UpdateImageRequest.t)
  (file : option Buffer) : IO (option GalleryImage) :=
  try_catch
    (getCollection;;
     if negb (ObjectId_isValid id) then throw (Error "Invalid image ID format")
     else
       let* existingImage := Collection.findOne (ObjectId_new id) in
       match existingImage with
       | None => throw (Error "Image not found")
       | Some existingImage =>
           let* cloudinaryResult :=
             match file with
             | Some file =>
                 let* r := Cloudinary.updateImage (cloudinaryId existingImage) file in
                 ret (Some r)
             | None => ret None
             end in
           let* updated := new_Date in
           let updateObject :=
             {| set_updatedAt := Some updated;
                set_title := UpdateImageRequest.title updateData;
                set_description := UpdateImageRequest.description updateData;
                set_tags := UpdateImageRequest.tags updateData;
                set_isPublic := UpdateImageRequest.isPublic updateData;
                set_cloudinaryUrl := CloudinaryUploadResult.secure_url <$> cloudinaryResult;
                set_format := CloudinaryUploadResult.format <$> cloudinaryResult;
                set_width := CloudinaryUploadResult.width <$> cloudinaryResult;
                set_height := CloudinaryUploadResult.height <$> cloudinaryResult;
                set_bytes := CloudinaryUploadResult.bytes <$> cloudinaryResult |} in
           Collection.findOneAndUpdate (ObjectId_new id) updateObject
       end)
    (fun error =>
       throw (Error ("Failed to update image: " +:+ message_or error "Unknown error"))).

Definition deleteImage (id : string) : IO bool :=
  try_catch
    (getCollection;;
     if negb (ObjectId_isValid id) then throw (Error "Invalid image ID format")
     else
       let* existingImage := Collection.findOne (ObjectId_new id) in
       match existingImage with
       | None => throw (Error "Image not found")
       | Some existingImage =>
           Cloudinary.deleteImage (cloudinaryId existingImage);;
           let* deletedCount := Collection.deleteOne (ObjectId_new id) in
           ret (deletedCount =? 1)%Z
       end)
    (fun error =>
       throw (Error ("Failed to delete image: " +:+ message_or error "Unknown error"))).

Definition searchImages (searchTerm : string) (query : PaginationQuery.t)
  : IO (PaginatedResponse GalleryImage) :=
  try_catch
    (getCollection;;
     let page := default (Js.of_Z 1) (PaginationQuery.page query) in
     let limit := default (Js.of_Z 20) (PaginationQuery.limit query) in
     let sortBy := default "createdAt" (PaginationQuery.sortBy query) in
     let sortOrder := default "desc" (PaginationQuery.sortOrder query) in
     let filter :=
       build_filter (Some searchTerm) (PaginationQuery.tags query)
         (PaginationQuery.isPublic query) in
     let sort := [("score", MetaTextScore)] in
     let sort :=
       if Js.truthy (Some sortBy) then assign sortBy (direction sortOrder) sort
       else sort in
     let skip := Js.mul (Js.sub page (Js.of_Z 1)) limit in
     let* totalItems := Collection.countDocuments filter in
     let* images := Collection.find filter sort (Some skip) (Some limit) in
     ret {| response :=
              {| success := true;
                 message := "Search completed successfully";
                 data := Some images;
                 error := None |};
            pagination := page_of totalItems page limit |})
    (fun error =>
       throw (Error ("Failed to search images: " +:+ message_or error "Unknown error"))).

Definition missing_in_cloudinary (mongoId : string) : string :=
  "Image " +:+ mongoId +:+ " exists in MongoDB but not in Cloudinary".

Definition missing_in_mongo (cloudinaryId : string) : string :=
  "Image " +:+ cloudinaryId +:+ " exists in Cloudinary but not in MongoDB".

(** The comparison [syncWithCloudinary] makes once both listings are in:
    [mongoImages] are the documents found, [resources] the public ids of the
    assets listed. *)
Definition compare_listings (mongoImages : list GalleryImage) (resources : list string)
  : SyncStatus :=
  let mongoCloudinaryIds := StringSet.new (cloudinaryId <$> mongoImages) in
  let cloudinaryIds := StringSet.new resources in
  let discrepancies : list string := [] in
  let discrepancies :=
    foldl (fun found mongoId =>
             if negb (StringSet.has cloudinaryIds mongoId)
             then found ++ [missing_in_cloudinary mongoId] else found)
      discrepancies mongoCloudinaryIds in
  let discrepancies :=
    foldl (fun found cloudinaryId =>
             if negb (StringSet.has mongoCloudinaryIds cloudinaryId)
             then found ++ [missing_in_mongo cloudinaryId] else found)
      discrepancies cloudinaryIds in
  {| inSync := (length discrepancies =? 0)%nat;
     mongoCount := Js.of_nat (length mongoImages);
     cloudinaryCount := Js.of_nat (length resources);
     discrepancies := discrepancies |}.

Definition syncWithCloudinary : IO SyncStatus :=
  try_catch
    (getCollection;;
     let* mongoImages :=
       Collection.find {| text_search := None; tags_in := None; isPublic_is := None |}
         [] None None in
     let* resources := Cloudinary.listImages (Some (Js.of_Z 500)) in
     ret (compare_listings mongoImages resources))
    (fun error =>
       throw (Error ("Failed to sync with Cloudinary: " +:+ message_or error "Unknown error"))).

End GalleryService.
End GalleryService.

(** ** The route handlers *)

Module File.
Record t := {
  type : string;
  content : Buffer;
}.

(** [file.size], in bytes *)
Definition size (f : t) : Js.number := Js.of_nat (length (content f)).
End File.

(** The fields of a multipart form; [None] is a field that was not sent. *)
Record FormData := {
  form_file : option File.t;
  form_title : option string;
  form_description : option string;
  form_tags : option string;
  form_isPublic : option string;
}.

(** [URLSearchParams]: the pairs of the query string in order. *)
Definition SearchParams := list (string * string).

Definition get (params : SearchParams) (name : string) : option string :=
  snd <$> List.find (fun p => String.eqb (fst p) name) params.

Section Routes.
Context `{Mongo}.

Inductive Data :=
| ImageData (image : GalleryImage)
| DeletedData (id : string) (deleted : bool).

Inductive Body :=
| Envelope (r : ApiResponse Data)
| Listing (r : PaginatedResponse GalleryImage).

(** [NextResponse.json(body, { status })] *)
Record NextResponse := {
  body : Body;
  status : Z;
}.

Definition failure (message error : string) (status : Z) : NextResponse :=
  {| body := Envelope {| success := false; message := message;
                         data := None; error := Some error |};
     status := status |}.

End Routes.

(** app/api/images/route.ts *)
Module ImagesRoute.
Section ImagesRoute.
Context `{Mongo}.

Definition parse_query (searchParams : SearchParams) : PaginationQuery.t :=
  {| PaginationQuery.page := Some (Js.parseInt (Js.or_else (get searchParams "page") "1"));
     PaginationQuery.limit := Some (Js.parseInt (Js.or_else (get searchParams "limit") "20"));
     PaginationQuery.sortBy := Some (Js.or_else (get searchParams "sortBy") "createdAt");
     PaginationQuery.sortOrder := Some (Js.or_else (get searchParams "sortOrder") "desc");
     PaginationQuery.tags :=
       if Js.truthy (get searchParams "tags") then get searchParams "tags" else None;
     PaginationQuery.isPublic :=
       if Js.truthy (get searchParams "isPublic")
       then Some (String.eqb (default "" (get searchParams "isPublic")) "true")
       else None |}.

(** [query.page!], [query.limit!] *)
Definition page_of_query (query : PaginationQuery.t) : Js.number :=
  default Js.NaN (PaginationQuery.page query).
Definition limit_of_query (query : PaginationQuery.t) : Js.number :=
  default Js.NaN (PaginationQuery.limit query).

Definition GET (searchParams : SearchParams) : IO NextResponse :=
  try_catch
    (let query := parse_query searchParams in
     if Js.lt (page_of_query query) (Js.of_Z 1)
     then ret (failure "Invalid page number" "Page number must be greater than 0" 400)
     else if Js.lt (limit_of_query query) (Js.of_Z 1)
             || Js.gt (limit_of_query query) (Js.of_Z 100)
     then ret (failure "Invalid limit" "Limit must be between 1 and 100" 400)
     else
       let searchTerm := get searchParams "search" in
       let* result :=
         if Js.truthy searchTerm
         then GalleryService.searchImages (default "" searchTerm) query
         else GalleryService.getImages query in
       ret {| body := Listing result; status := 200 |})
    (fun error =>
       ret (failure "Failed to retrieve images"
              (message_or error "Unknown error occurred") 500)).

End ImagesRoute.
End ImagesRoute.

(** app/api/images/upload/route.ts *)
Module UploadRoute.
Section UploadRoute.
Context `{Mongo}.

(** 10MB in bytes *)
Definition maxSize : Js.number := Js.of_Z (10 * 1024 * 1024).

Definition parse_tags (tags : option string) : list string :=
  if Js.truthy tags
  then List.filter (fun tag => (0 <? String.length tag)%nat)
         (Js.trim <$> Js.split "," (default "" tags))
  else [].

Definition parse_flag (isPublic : option string) : bool :=
  match isPublic with
  | Some v => String.eqb v "true" || String.eqb v "1" || String.eqb v "on"
  | None => false
  end.

Definition POST (formData : FormData) : IO NextResponse :=
  try_catch
    (match form_file formData with
     | None => ret (failure "No file provided" "File is required for upload" 400)
     | Some file =>
         if negb (Js.truthy (form_title formData))
         then ret (failure "Title is required" "Title field cannot be empty" 400)
         else if negb (Js.startsWith (File.type file) "image/")
         then ret (failure "Invalid file type" "Only image files are allowed" 400)
         else if Js.gt (File.size file) maxSize
         then ret (failure "File too large" "File size must be less than 10MB" 400)
         else
           let fileBuffer := File.content file in
           let imageData :=
             {| CreateImageRequest.title := Js.trim (default "" (form_title formData));
                CreateImageRequest.description :=
                  Some (Js.or_else (Js.trim <$> form_description formData) "");
                CreateImageRequest.tags := Some (parse_tags (form_tags formData));
                CreateImageRequest.isPublic := Some (parse_flag (form_isPublic formData)) |} in
           let* createdImage := GalleryService.createImage imageData fileBuffer in
           ret {| body := Envelope {| success := true;
                                      message := "Image uploaded successfully";
                                      data := Some (ImageData createdImage);
                                      error := None |};
                  status := 201 |}
     end)
    (fun error =>
       ret (failure "Failed to upload image"
              (message_or error "Unknown error occurred") 500)).

End UploadRoute.
End UploadRoute.

(** app/api/images/[id]/route.ts *)
Module ImageRoute.
Section ImageRoute.
Context `{Mongo}.

Definition GET (id : string) : IO NextResponse :=
  try_catch
    (if negb (Js.truthy (Some id))
     then ret (failure "Image ID is required" "Missing image ID parameter" 400)
     else
       let* image := GalleryService.getImageById id in
       match image with
       | None => ret (failure "Image not found" "No image found with the provided ID" 404)
       | Some image =>
           ret {| body := Envelope {| success := true;
                                      message := "Image retrieved successfully";
                                      data := Some (ImageData image);
                                      error := None |};
                  status := 200 |}
       end)
    (fun error =>
       ret (failure "Failed to retrieve image"
              (message_or error "Unknown error occurred") 500)).

Definition DELETE (id : string) : IO NextResponse :=
  try_catch
    (if negb (Js.truthy (Some id))
     then ret (failure "Image ID is required" "Missing image ID parameter" 400)
     else
       let* deleted := GalleryService.deleteImage id in
       if negb deleted
       then ret (failure "Image not found"
                   "No image found with the provided ID or deletion failed" 404)
       else
         ret {| body := Envelope {| success := true;
                                    message := "Image deleted successfully";
                                    data := Some (DeletedData id true);
                                    error := None |};
                status := 200 |})
    (fun error =>
       ret (failure "Failed to delete image"
              (message_or error "Unknown error occurred") 500)).

End ImageRoute.
End ImageRoute.

(** ** Vocabulary of the properties *)

Section Vocabulary.
Context `{Mongo}.

(** The calls [getCollection] makes. *)
Definition setup_call (c : Call) : bool :=
  match c with
  | GetDatabase | CreateIndex _ _ => true
  | _ => false
  end.

(** No call is rejected. *)
Definition up (w : World) : Prop := forall c, rejects (env w) c = None.

(** No other request touches the stores when the call [c] is served. *)
Definition undisturbed (w : World) (c : Call) : Prop :=
  forall s, meanwhile (env w) c s = s.

Definition quiet (w : World) : Prop := forall c, undisturbed w c.

(** Code that changes neither the environment nor the clock, and that leaves
    the stores as they are when no other request interferes. *)
Definition leaves_stores {A} (m : IO A) : Prop :=
  forall w r w1, m w = (r, w1) ->
    env w1 = env w /\ now w1 = now w /\ (quiet w -> stores w1 = stores w).

(** The elements of one insertion-ordered set that the other does not have. *)
Definition only_in (here there : list string) : list string :=
  filter (fun x => negb (StringSet.has there x) = true) here.

(** The listing or the search, as the route chooses between them. *)
Definition list_or_search (searchTerm : option string) (query : PaginationQuery.t)
  : IO (PaginatedResponse GalleryImage) :=
  match searchTerm with
  | Some term => GalleryService.searchImages term query
  | None => GalleryService.getImages query
  end.

(** The [$set] document of an update: the patch, the time of the update
    and, when a new file was uploaded, what Cloudinary reported for it. *)
Definition patch_of (updateData : UpdateImageRequest.t) (updated : Date)
  (cloudinaryResult : option CloudinaryUploadResult.t) : UpdateObject :=
  {| set_updatedAt := Some updated;
     set_title := UpdateImageRequest.title updateData;
     set_description := UpdateImageRequest.description updateData;
     set_tags := UpdateImageRequest.tags updateData;
     set_isPublic := UpdateImageRequest.isPublic updateData;
     set_cloudinaryUrl := CloudinaryUploadResult.secure_url <$> cloudinaryResult;
     set_format := CloudinaryUploadResult.format <$> cloudinaryResult;
     set_width := CloudinaryUploadResult.width <$> cloudinaryResult;
     set_height := CloudinaryUploadResult.height <$> cloudinaryResult;
     set_bytes := CloudinaryUploadResult.bytes <$> cloudinaryResult |}.

(** What [GET /images] answers once the paging values have passed its
    checks: the page of the service, or a 500 for what the service threw. *)
Definition delegated (searchParams : SearchParams) (w : World)
  : Result NextResponse * World :=
  let searchTerm := get searchParams "search" in
  match list_or_search (if Js.truthy searchTerm then searchTerm else None)
          (ImagesRoute.parse_query searchParams) w with
  | (Returned result, w') => (Returned {| body := Listing result; status := 200 |}, w')
  | (Thrown error, w') =>
      (Returned (failure "Failed to retrieve images"
                   (message_or error "Unknown error occurred") 500), w')
  end.

Definition returned {A} (r : Result A * World) : bool :=
  match fst r with
  | Returned _ => true
  | Thrown _ => false
  end.

(** The documents of an answered page. *)
Definition page_data (r : Result (PaginatedResponse GalleryImage) * World)
  : option (list GalleryImage) :=
  match fst r with
  | Returned page => data (response page)
  | Thrown _ => None
  end.

Definition status_of (r : Result NextResponse * World) : option Z :=
  match fst r with
  | Returned response => Some (status response)
  | Thrown _ => None
  end.

End Vocabulary.

(** A three-way comparison that orders: symmetric, with [Eq] a congruence
    and [Lt] transitive. *)
Record Ordering {A : Type} (cmp : A -> A -> comparison) : Prop := {
  ordering_antisym : forall a b, cmp b a = CompOpp (cmp a b);
  ordering_eq : forall a b c, cmp a b = Eq -> cmp a c = cmp b c;
  ordering_lt : forall a b c, cmp a b = Lt -> cmp b c = Lt -> cmp a c = Lt;
}.

(** [a] may come before [b]. *)
Definition not_after {A : Type} (cmp : A -> A -> comparison) (a b : A) : Prop :=
  cmp a b <> Gt.

(** A string that does not start, after white space and a sign, with a
    decimal digit. *)
Definition non_numeric (s : string) : bool :=
  let s := Js.trimStart s in
  let s :=
    match s with
    | String "-" r | String "+" r => r
    | _ => s
    end in
  match s with
  | EmptyString => true
  | String c _ =>
      match Js.digitValue c with
      | Some d => negb (d <? 10)%Z
      | None => true
      end
  end.

Definition whitespace_only (s : string) : bool :=
  forallb Js.isWhiteSpace (list_ascii_of_string s).

(** ** A gallery to run the code on *)

Module Fixture.

Definition is_hex (c : ascii) : bool :=
  match Js.digitValue c with
  | Some d => (d <? 16)%Z
  | None => false
  end.

(** Object ids written as 24 hexadecimal digits. *)
Definition hex24 (s : string) : bool :=
  (String.length s =? 24)%nat && forallb is_hex (list_ascii_of_string s).

Definition occurrences (term text : string) : Z :=
  Z.of_nat (length (List.filter (String.eqb term) (Js.split " " text))).

(** Relevance counted as the occurrences of the term among the words of the
    title and of the description. *)
Definition mongo : Mongo :=
  {| ObjectId := string;
     ObjectId_isValid := hex24;
     ObjectId_new := fun id => id;
     textScore := fun term title description =>
       inject_Z (occurrences term title + occurrences term (default "" description)) |}.

Definition image (id title : string) (tags : list string) (created : Z)
  : @GalleryImage mongo :=
  {| _id := Some (id : @ObjectId mongo); title := title; description := Some "";
     cloudinaryId := "gallery/" +:+ id; cloudinaryUrl := "https://res.cloudinary.com/" +:+ id;
     publicId := "gallery/" +:+ id; format := "jpg";
     width := Js.of_Z 800; height := Js.of_Z 600; bytes := Js.of_Z 120000;
     tags := tags; createdAt := created; updatedAt := created;
     uploadedBy := None; isPublic := true |}.

Definition sunset := image "64b7f0c2a1d3e4f5a6b7c8d1" "beach sunset" ["nature"; "sky"] 1000%Z.
Definition dusk := image "64b7f0c2a1d3e4f5a6b7c8d2" "sunset after sunset" ["sky"] 2000%Z.
Definition city := image "64b7f0c2a1d3e4f5a6b7c8d3" "city lights" ["city"] 3000%Z.

Definition upload : CloudinaryUploadResult.t :=
  {| CloudinaryUploadResult.public_id := "gallery/fresh";
     CloudinaryUploadResult.secure_url := "https://res.cloudinary.com/fresh";
     CloudinaryUploadResult.format := "png";
     CloudinaryUploadResult.width := Js.of_Z 640;
     CloudinaryUploadResult.height := Js.of_Z 480;
     CloudinaryUploadResult.bytes := Js.of_Z 3 |}.

(** Every call is served and nobody else is at work. *)
Definition calm : @Environment mongo :=
  {| rejects := fun _ => None;
     meanwhile := fun _ s => s;
     uploaded := upload;
     insertedId := Some ("64b7f0c2a1d3e4f5a6b7c8d4" : @ObjectId mongo) |}.

(** The database refuses inserts. *)
Definition no_inserts : @Environment mongo :=
  {| rejects := fun c =>
       match c with
       | InsertOne _ => Some (Error "connection closed")
       | _ => None
       end;
     meanwhile := fun _ s => s;
     uploaded := upload;
     insertedId := Some ("64b7f0c2a1d3e4f5a6b7c8d4" : @ObjectId mongo) |}.

(** Another request empties the collection just before a delete is served. *)
Definition racing : @Environment mongo :=
  {| rejects := fun _ => None;
     meanwhile := fun c s =>
       match c with
       | DeleteOne _ => {| images := []; assets := assets s |}
       | _ => s
       end;
     uploaded := upload;
     insertedId := Some ("64b7f0c2a1d3e4f5a6b7c8d4" : @ObjectId mongo) |}.

Definition gallery : @Stores mongo :=
  {| images := [sunset; dusk; city];
     assets := ["gallery/64b7f0c2a1d3e4f5a6b7c8d1"; "gallery/64b7f0c2a1d3e4f5a6b7c8d2";
                "gallery/64b7f0c2a1d3e4f5a6b7c8d3"] |}.

Definition world (e : @Environment mongo) : @World mongo :=
  {| stores := gallery; collection := false; now := 5000%Z; calls := []; env := e |}.

Definition png : File.t :=
  {| File.type := "image/png"; File.content := [Byte.x89; Byte.x50; Byte.x4e] |}.

(** Page 2 of the three images, two a page. *)
Definition second_page : PaginationQuery.t :=
  {| PaginationQuery.page := Some (Js.of_Z 2);
     PaginationQuery.limit := Some (Js.of_Z 2);
     PaginationQuery.sortBy := None; PaginationQuery.sortOrder := None;
     PaginationQuery.tags := None; PaginationQuery.isPublic := None |}.

Definition by_title : PaginationQuery.t :=
  {| PaginationQuery.page := None; PaginationQuery.limit := None;
     PaginationQuery.sortBy := Some "title"; PaginationQuery.sortOrder := Some "asc";
     PaginationQuery.tags := None; PaginationQuery.isPublic := None |}.

(** A patch of tags only. *)
Definition retag : UpdateImageRequest.t :=
  {| UpdateImageRequest.title := None; UpdateImageRequest.description := None;
     UpdateImageRequest.tags := Some ["dusk"; "sea"];
     UpdateImageRequest.isPublic := None |}.

Definition dawn : CreateImageRequest.t :=
  {| CreateImageRequest.title := "dawn"; CreateImageRequest.description := None;
     CreateImageRequest.tags := None; CreateImageRequest.isPublic := None |}.

(** An upload with three spaces for a title. *)
Definition blank_title : FormData :=
  {| form_file := Some png; form_title := Some "   ";
     form_description := None; form_tags := Some "nature, sky";
     form_isPublic := Some "true" |}.

End Fixture.

(** * The rest of the service, of the routes and of the gallery page *)

(** ** More of JavaScript *)

Module JsMore.

(** [a + b] on numbers *)
Definition add (a b : Js.number) : Js.number :=
  match a, b with
  | Js.NaN, _ | _, Js.NaN => Js.NaN
  | Js.Infinity s, Js.Infinity t => if Bool.eqb s t then Js.Infinity s else Js.NaN
  | Js.Infinity s, Js.Fin _ | Js.Fin _, Js.Infinity s => Js.Infinity s
  | Js.Fin x, Js.Fin y => Js.Fin (x + y)
  end.

(** [Math.round]: to the nearest integer, halves upwards. *)
Definition round (a : Js.number) : Js.number :=
  match a with
  | Js.Fin x => Js.of_Z (Qfloor (x + (1 # 2)))
  | _ => a
  end.

(** Truthiness of a number: 0 and NaN are falsy. *)
Definition truthy (a : Js.number) : bool :=
  match a with
  | Js.NaN => false
  | Js.Infinity _ => true
  | Js.Fin x => negb (Qeq_bool x 0)
  end.

(** [v || 0] for a number [v] that may be undefined. *)
Definition or_zero (v : option Js.number) : Js.number :=
  match v with
  | Some a => if truthy a then a else Js.of_Z 0
  | None => Js.of_Z 0
  end.

Fixpoint insert (x : string) (sorted : list string) : list string :=
  match sorted with
  | [] => [x]
  | y :: rest => if String.leb x y then x :: sorted else y :: insert x rest
  end.

(** [array.sort()] on strings: ascending by code units. *)
Definition sort (xs : list string) : list string := foldr insert [] xs.

End JsMore.

(** ** The read-only queries

    [distinct] and [aggregate] are asked of the collection like the calls of
    the model, but they are not entered among its [calls]: whether such a
    query is refused is a parameter of its own. *)

Inductive Query :=
| Distinct (field : string)
| Aggregate.                          (* the $group stage of getStats *)

Class Queries := {
  refused : Query -> option Exn;
}.

Record DatabaseStats := {
  totalImages : Js.number;
  publicImages : Js.number;
  privateImages : Js.number;
  totalSize : Js.number;
  averageSize : Js.number;
}.

Module GalleryQueries.
Section GalleryQueries.
Context `{Mongo} `{Queries}.

Definition ask {A} (q : Query) (serve : Stores -> Result A * Stores) : IO A := fun w =>
  match refused q with
  | Some e => (Thrown e, w)
  | None => let '(r, s') := serve (stores w) in (r, with_stores s' w)
  end.

(** [distinct('tags')]: the values of the tags arrays, each once. *)
Definition serve_distinct_tags (s : Stores) : Result (list string) * Stores :=
  (Returned (StringSet.new (concat (tags <$> images s))), s).

(** [$group] with [_id: null], [$sum] and [$avg] of [bytes]: one group when
    there is a document, none otherwise. *)
Definition serve_aggregate (s : Stores) : Result (list (Js.number * Js.number)) * Stores :=
  match images s with
  | [] => (Returned [], s)
  | docs =>
      let total := foldl JsMore.add (Js.of_Z 0) (bytes <$> docs) in
      (Returned [(total, Js.div total (Js.of_nat (length docs)))], s)
  end.

Definition everything : Filter :=
  {| text_search := None; tags_in := None; isPublic_is := None |}.

Definition visible (b : bool) : Filter :=
  {| text_search := None; tags_in := None; isPublic_is := Some b |}.

Definition getStats : IO DatabaseStats :=
  try_catch
    (GalleryService.getCollection;;
     let* totalImages := Collection.countDocuments everything in
     let* publicImages := Collection.countDocuments (visible true) in
     let* privateImages := Collection.countDocuments (visible false) in
     let* sizeStats := ask Aggregate serve_aggregate in
     ret {| totalImages := totalImages;
            publicImages := publicImages;
            privateImages := privateImages;
            totalSize := JsMore.or_zero (fst <$> head sizeStats);
            averageSize := JsMore.round (JsMore.or_zero (snd <$> head sizeStats)) |})
    (fun error =>
       throw (Error ("Failed to retrieve statistics: " +:+ message_or error "Unknown error"))).


Definition getAllTags : IO (list string) :=
  try_catch
    (GalleryService.getCollection;;
     let* tags := ask (Distinct "tags") serve_distinct_tags in
     ret (JsMore.sort tags))
    (fun error =>
       throw (Error ("Failed to retrieve tags: " +:+ message_or error "Unknown error"))).

End GalleryQueries.
End GalleryQueries.

(** ** The other route handlers *)

(** A response whose [data] is of one type. *)
Record Answer (T : Type) := {
  answer : ApiResponse T;
  answer_status : Z;
}.
Arguments answer {T}.
Arguments answer_status {T}.
Arguments Build_Answer {T}.

(** app/api/gallery/sync/route.ts *)
Module SyncRoute.
Section SyncRoute.
Context `{Mongo}.

Definition GET : IO (Answer SyncStatus) :=
  try_catch
    (let* syncStatus := GalleryService.syncWithCloudinary in
     ret {| answer := {| success := true;
                         message := "Synchronization status retrieved successfully";
                         data := Some syncStatus;
                         error := None |};
            answer_status := 200 |})
    (fun error =>
       ret {| answer := {| success := false;
                           message := "Failed to retrieve synchronization status";
                           data := None;
                           error := Some (message_or error "Unknown error occurred") |};
              answer_status := 500 |}).

End SyncRoute.
End SyncRoute.

(** app/api/tags/route.ts *)
Module TagsRoute.
Section TagsRoute.
Context `{Mongo} `{Queries}.

Definition GET : IO (Answer (list string)) :=
  try_catch
    (let* tags := GalleryQueries.getAllTags in
     ret {| answer := {| success := true;
                         message := "Tags retrieved successfully";
                         data := Some tags;
                         error := None |};
            answer_status := 200 |})
    (fun error =>
       ret {| answer := {| success := false;
                           message := "Failed to retrieve tags";
                           data := None;
                           error := Some (message_or error "Unknown error occurred") |};
              answer_status := 500 |}).

End TagsRoute.
End TagsRoute.

(** app/api/images/[id]/route.ts, PUT *)
Module ImageRoutePut.
Section ImageRoutePut.
Context `{Mongo}.

(** The file of an update, once it has passed the checks on its type and
    its size; [inl] is the answer to a file that has not. *)
Definition checked_file (file : option File.t) : NextResponse + option Buffer :=
  match file with
  | None => inr None
  | Some file =>
      if negb (Js.startsWith (File.type file) "image/")
      then inl (failure "Invalid file type" "Only image files are allowed" 400)
      else if Js.gt (File.size file) UploadRoute.maxSize
      then inl (failure "File too large" "File size must be less than 10MB" 400)
      else inr (Some (File.content file))
  end.

Definition PUT (id : string) (formData : FormData) : IO NextResponse :=
  try_catch
    (if negb (Js.truthy (Some id))
     then ret (failure "Image ID is required" "Missing image ID parameter" 400)
     else
       let title := form_title formData in
       if match title with
          | Some title => (String.length (Js.trim title) =? 0)%nat
          | None => false
          end
       then ret (failure "Title cannot be empty" "Title field is required" 400)
       else
         let updateData :=
           {| UpdateImageRequest.title := Js.trim <$> title;
              UpdateImageRequest.description := Js.trim <$> form_description formData;
              UpdateImageRequest.tags :=
                (fun tags => UploadRoute.parse_tags (Some tags)) <$> form_tags formData;
              UpdateImageRequest.isPublic :=
                (fun isPublic => UploadRoute.parse_flag (Some isPublic))
                  <$> form_isPublic formData |} in
         match checked_file (form_file formData) with
         | inl refusal => ret refusal
         | inr fileBuffer =>
             let* updatedImage := GalleryService.updateImage id updateData fileBuffer in
             match updatedImage with
             | None =>
                 ret (failure "Image not found" "No image found with the provided ID" 404)
             | Some updatedImage =>
                 ret {| body := Envelope {| success := true;
                                            message := "Image updated successfully";
                                            data := Some (ImageData updatedImage);
                                            error := None |};
                        status := 200 |}
             end
         end)
    (fun error =>
       ret (failure "Failed to update image"
              (message_or error "Unknown error occurred") 500)).

End ImageRoutePut.
End ImageRoutePut.

(** ** components/Gallery.tsx: the page buttons

    Page counts and page numbers are integers. *)
Module GalleryPage.

(** The number on the [i]-th button. *)
Definition pageNum (totalPages currentPage i : Z) : Z :=
  if (totalPages <=? 5)%Z then (i + 1)%Z
  else if (currentPage <=? 3)%Z then (i + 1)%Z
  else if (currentPage >=? totalPages - 2)%Z then (totalPages - 4 + i)%Z
  else (currentPage - 2 + i)%Z.

(** [Array.from({ length: Math.min(5, totalPages) }, (_, i) => pageNum)] *)
Definition buttons (totalPages currentPage : Z) : list Z :=
  (fun i => pageNum totalPages currentPage (Z.of_nat i))
    <$> seq 0 (Z.to_nat (Z.min 5 totalPages)).

End GalleryPage.

(** ** More worlds to run the code on *)

Module Scenario.

(** The database takes no delete. *)
Definition no_deletes : @Environment Fixture.mongo :=
  {| rejects := fun c =>
       match c with
       | DeleteOne _ => Some (Error "connection closed")
       | _ => None
       end;
     meanwhile := fun _ s => s;
     uploaded := Fixture.upload;
     insertedId := Some ("64b7f0c2a1d3e4f5a6b7c8d4" : @ObjectId Fixture.mongo) |}.

(** Cloudinary takes no upload. *)
Definition no_uploads : @Environment Fixture.mongo :=
  {| rejects := fun c =>
       match c with
       | UploadStream _ _ => Some (NotAnError "http_code 420")
       | _ => None
       end;
     meanwhile := fun _ s => s;
     uploaded := Fixture.upload;
     insertedId := Some ("64b7f0c2a1d3e4f5a6b7c8d4" : @ObjectId Fixture.mongo) |}.

Definition answering : Queries := {| refused := fun _ => None |}.

(** A media store with more assets than one listing returns: the asset of
    the first image comes after 500 others. *)
Definition crowded : @World Fixture.mongo :=
  {| stores :=
       {| images := [Fixture.sunset];
          assets := replicate 500 "gallery/other" ++ ["gallery/64b7f0c2a1d3e4f5a6b7c8d1"] |};
     collection := true; now := 5000%Z; calls := []; env := Fixture.calm |}.


(** An update of the title only. *)
Definition rename : FormData :=
  {| form_file := None; form_title := Some "harbour";
     form_description := None; form_tags := None; form_isPublic := None |}.

Definition first_page : SearchParams := [("page", "1"); ("limit", "2"); ("tags", "sky, city")].

End Scenario.

(** ** More vocabulary *)

Section MoreVocabulary.
Context `{Mongo}.

(** The document [createImage] inserts. *)
Definition new_image (imageData : CreateImageRequest.t) (r : CloudinaryUploadResult.t)
  (date : Date) : GalleryImage :=
  {| _id := None;
     title := CreateImageRequest.title imageData;
     description := Some (Js.or_else (CreateImageRequest.description imageData) "");
     cloudinaryId := CloudinaryUploadResult.public_id r;
     cloudinaryUrl := CloudinaryUploadResult.secure_url r;
     publicId := CloudinaryUploadResult.public_id r;
     format := CloudinaryUploadResult.format r;
     width := CloudinaryUploadResult.width r;
     height := CloudinaryUploadResult.height r;
     bytes := CloudinaryUploadResult.bytes r;
     tags := default [] (CreateImageRequest.tags imageData);
     createdAt := date;
     updatedAt := date;
     uploadedBy := None;
     isPublic := default true (CreateImageRequest.isPublic imageData) |}.

(** The identifier is not in use, and neither is the asset id. *)
Definition fresh (id : ObjectId) (public_id : string) (s : Stores) : Prop :=
  existsb (Collection.has_id id) (images s) = false
  /\ existsb (fun d => String.eqb (cloudinaryId d) public_id) (images s) = false
  /\ public_id ∉ assets s.

(** The documents a listing or a search has to choose from, in order. *)
Definition candidates (f : Filter) (sort : SortDoc) (s : Stores) : list GalleryImage :=
  Collection.sort_docs (Collection.precedes (text_search f) sort)
    (List.filter (Collection.matches f) (images s)).

(** What [api.resources] lists of the media store. *)
Definition listed (s : Stores) : list string :=
  take 500 (List.filter (fun a => Js.startsWith a "gallery") (assets s)).

(** A file that the upload and the update turn away: not an image by its
    type, or more than 10MB. *)
Definition unfit (file : File.t) : Prop :=
  Js.startsWith (File.type file) "image/" = false
  \/ (10 * 1024 * 1024 < Z.of_nat (length (File.content file)))%Z.

(** Form data that [POST /upload] does not pass on. *)
Definition refused_upload (formData : FormData) : Prop :=
  match form_file formData with
  | None => True
  | Some file =>
      form_title formData = None \/ form_title formData = Some "" \/ unfit file
  end.

(** A request that [PUT /images/{id}] does not pass on. *)
Definition refused_update (id : string) (formData : FormData) : Prop :=
  id = ""
  \/ (exists title, form_title formData = Some title /\ Js.trim title = "")
  \/ (exists file, form_file formData = Some file /\ unfit file).

End MoreVocabulary.

(** * Properties *)

(** ** The JavaScript primitives on a few inputs *)

Example parseInt_20 : Js.parseInt "20" = Js.of_Z 20.
Proof. reflexivity. Qed.
Example parseInt_abc : Js.parseInt "abc" = Js.NaN.
Proof. reflexivity. Qed.
Example parseInt_12abc : Js.parseInt " -12abc" = Js.of_Z (-12).
Proof. reflexivity. Qed.
Example parseInt_hex : Js.parseInt "0x1F" = Js.of_Z 31.
Proof. reflexivity. Qed.
Example trim_spaces : Js.trim "  a b  " = "a b" /\ Js.trim "   " = "".
Proof. split; reflexivity. Qed.
Example split_tags : Js.split "," "nature, sky,," = ["nature"; " sky"; ""; ""].
Proof. reflexivity. Qed.
Example ceil_div_7_2 : Js.ceil (Js.div (Js.of_Z 7) (Js.of_Z 2)) = Js.of_Z 4.
Proof. reflexivity. Qed.

(** ** Strings *)

Lemma append_nil (b : string) : "" +:+ b = b.
Proof. reflexivity. Qed.

Lemma append_cons (x : ascii) (a b : string) : String x a +:+ b = String x (a +:+ b).
Proof. reflexivity. Qed.

Lemma append_assoc (a b c : string) : (a +:+ b) +:+ c = a +:+ (b +:+ c).
Proof.
  induction a as [|x a IH]; [done|]. rewrite !append_cons. by rewrite IH.
Qed.

Lemma length_append (a b : string) :
  String.length (a +:+ b) = String.length a + String.length b.
Proof.
  induction a as [|x a IH]; [done|]. rewrite append_cons. simpl. by rewrite IH.
Qed.

(** A common suffix cancels. *)
Lemma append_inj_l (a b c : string) : a +:+ c = b +:+ c -> a = b.
Proof.
  revert b. induction a as [|x a IH]; intros [|y b] Heq;
    rewrite ?append_cons, ?append_nil in Heq.
  - done.
  - apply (f_equal String.length) in Heq. simpl in Heq.
    rewrite length_append in Heq. lia.
  - apply (f_equal String.length) in Heq. simpl in Heq.
    rewrite length_append in Heq. lia.
  - injection Heq as -> Heq. f_equal. by apply IH.
Qed.

(** Strings of equal length at the end of equal strings are equal. *)
Lemma append_inj_r (a b c d : string) :
  String.length c = String.length d -> a +:+ c = b +:+ d -> c = d.
Proof.
  intros Hlen. revert b. induction a as [|x a IH]; intros [|y b] Heq;
    rewrite ?append_cons, ?append_nil in Heq.
  - done.
  - apply (f_equal String.length) in Heq. simpl in Heq.
    rewrite length_append in Heq. lia.
  - apply (f_equal String.length) in Heq. simpl in Heq.
    rewrite length_append in Heq. lia.
  - injection Heq as _ Heq. by eapply IH.
Qed.

Section Reconciliation.
Context `{Mongo}.

#[local] Instance missing_in_cloudinary_inj : Inj (=) (=) GalleryService.missing_in_cloudinary.
Proof.
  intros a b Heq. unfold GalleryService.missing_in_cloudinary in Heq.
  apply (inj (String.append "Image ")) in Heq. by apply append_inj_l in Heq.
Qed.

#[local] Instance missing_in_mongo_inj : Inj (=) (=) GalleryService.missing_in_mongo.
Proof.
  intros a b Heq. unfold GalleryService.missing_in_mongo in Heq.
  apply (inj (String.append "Image ")) in Heq. by apply append_inj_l in Heq.
Qed.

(** The two kinds of message never coincide: they end differently. *)
Lemma missing_messages_differ (a b : string) :
  GalleryService.missing_in_cloudinary a <> GalleryService.missing_in_mongo b.
Proof.
  unfold GalleryService.missing_in_cloudinary, GalleryService.missing_in_mongo.
  intros Heq. rewrite <- !append_assoc in Heq.
  apply append_inj_r in Heq; [discriminate | reflexivity].
Qed.

(** *** The insertion-ordered set *)

Lemma elem_of_StringSet_add (s : list string) (x y : string) :
  y ∈ StringSet.add s x <-> y ∈ s \/ y = x.
Proof.
  unfold StringSet.add. case_bool_decide as Hx.
  - split; [by left | intros [?| ->]; done].
  - rewrite elem_of_app, list_elem_of_singleton. done.
Qed.

Lemma NoDup_StringSet_add (s : list string) (x : string) :
  NoDup s -> NoDup (StringSet.add s x).
Proof.
  intros Hs. unfold StringSet.add. case_bool_decide as Hx; [done|].
  apply NoDup_app. split_and!; [done | | apply NoDup_singleton].
  intros y Hy ->%list_elem_of_singleton. done.
Qed.

Lemma StringSet_foldl (xs s : list string) :
  NoDup s ->
  NoDup (foldl StringSet.add s xs) /\
  forall y, y ∈ foldl StringSet.add s xs <-> y ∈ s \/ y ∈ xs.
Proof.
  revert s. induction xs as [|x xs IH]; intros s Hs; simpl.
  - split; [done|]. intros y. rewrite elem_of_nil. tauto.
  - destruct (IH (StringSet.add s x) (NoDup_StringSet_add s x Hs)) as [Hnd Hin].
    split; [done|]. intros y.
    rewrite Hin, elem_of_StringSet_add, elem_of_cons. tauto.
Qed.

Lemma NoDup_StringSet_new (xs : list string) : NoDup (StringSet.new xs).
Proof. apply StringSet_foldl, NoDup_nil_2. Qed.

Lemma elem_of_StringSet_new (xs : list string) (y : string) :
  y ∈ StringSet.new xs <-> y ∈ xs.
Proof.
  unfold StringSet.new.
  destruct (StringSet_foldl xs [] NoDup_nil_2) as [_ Hin].
  rewrite Hin, elem_of_nil. tauto.
Qed.

Lemma StringSet_new_to_set (xs : list string) :
  list_to_set (StringSet.new xs) =@{gset string} list_to_set xs.
Proof. apply set_eq. intros y. rewrite !elem_of_list_to_set. apply elem_of_StringSet_new. Qed.

(** *** The two loops *)

(** A loop that pushes a message for the elements passing a test collects
    the messages of the elements kept by a filter. *)
Lemma foldl_push (test : string -> bool) (say : string -> string) (xs found : list string) :
  foldl (fun found x => if test x then found ++ [say x] else found) found xs
  = found ++ (say <$> filter (fun x => test x = true) xs).
Proof.
  revert found. induction xs as [|x xs IH]; intros found; simpl.
  - by rewrite app_nil_r.
  - rewrite IH. rewrite filter_cons. destruct (test x) eqn:Hx.
    + rewrite decide_True by done. rewrite fmap_cons, <- app_assoc. done.
    + rewrite decide_False by done. done.
Qed.


Lemma discrepancies_compare_listings (mongoImages : list GalleryImage) (resources : list string) :
  let mongoCloudinaryIds := StringSet.new (cloudinaryId <$> mongoImages) in
  let cloudinaryIds := StringSet.new resources in
  discrepancies (GalleryService.compare_listings mongoImages resources)
  = (GalleryService.missing_in_cloudinary <$> only_in mongoCloudinaryIds cloudinaryIds)
    ++ (GalleryService.missing_in_mongo <$> only_in cloudinaryIds mongoCloudinaryIds).
Proof.
  intros. unfold GalleryService.compare_listings. simpl.
  rewrite !foldl_push. done.
Qed.

Lemma elem_of_only_in (here there : list string) (x : string) :
  x ∈ only_in here there <-> x ∈ here /\ x ∉ there.
Proof.
  unfold only_in, StringSet.has. rewrite list_elem_of_filter.
  rewrite negb_true_iff, bool_decide_eq_false. tauto.
Qed.

Lemma NoDup_only_in (here there : list string) : NoDup here -> NoDup (only_in here there).
Proof. apply NoDup_filter. Qed.

Lemma only_in_to_set (xs ys : list string) :
  list_to_set (only_in (StringSet.new xs) (StringSet.new ys))
  =@{gset string} list_to_set xs ∖ list_to_set ys.
Proof.
  apply set_eq. intros y.
  rewrite elem_of_difference, !elem_of_list_to_set, elem_of_only_in,
    !elem_of_StringSet_new. done.
Qed.

Lemma length_only_in (xs ys : list string) :
  length (only_in (StringSet.new xs) (StringSet.new ys))
  = size (list_to_set xs ∖ list_to_set ys : gset string).
Proof.
  rewrite <- only_in_to_set. symmetry. apply size_list_to_set.
  apply NoDup_only_in, NoDup_StringSet_new.
Qed.

(** The comparison of two listings, whatever they are: one discrepancy for
    each element of the symmetric difference of the set of record asset ids
    and the set of listed asset ids, no message twice and no other message. *)
Lemma compare_listings_symmetric_difference
  (mongoImages : list GalleryImage) (resources : list string) :
  let recordSet : gset string := list_to_set (cloudinaryId <$> mongoImages) in
  let assetSet : gset string := list_to_set resources in
  let status := GalleryService.compare_listings mongoImages resources in
  length (discrepancies status)
    = size (recordSet ∖ assetSet) + size (assetSet ∖ recordSet)
  /\ NoDup (discrepancies status)
  /\ (forall d, d ∈ discrepancies status <->
        (exists id, id ∈ recordSet ∖ assetSet /\ d = GalleryService.missing_in_cloudinary id)
        \/ (exists id, id ∈ assetSet ∖ recordSet /\ d = GalleryService.missing_in_mongo id))
  /\ (inSync status = true <-> discrepancies status = []).
Proof.
  intros recordSet assetSet status. subst status.
  rewrite discrepancies_compare_listings.
  split_and!.
  - rewrite length_app, !length_fmap, !length_only_in. done.
  - apply NoDup_app. split_and!.
    + apply (NoDup_fmap_2 _), NoDup_only_in, NoDup_StringSet_new.
    + intros d (a & -> & _)%list_elem_of_fmap (b & Hab & _)%list_elem_of_fmap.
      by apply missing_messages_differ in Hab.
    + apply (NoDup_fmap_2 _), NoDup_only_in, NoDup_StringSet_new.
  - intros d. rewrite elem_of_app, !list_elem_of_fmap.
    subst recordSet assetSet.
    rewrite <- !only_in_to_set.
    split.
    + intros [(x & -> & Hx) | (x & -> & Hx)]; [left | right]; exists x;
        (split; [by rewrite elem_of_list_to_set | done]).
    + intros [(x & Hx & ->) | (x & Hx & ->)]; rewrite elem_of_list_to_set in Hx;
        [left | right]; exists x; done.
  - unfold GalleryService.compare_listings. simpl.
    rewrite !foldl_push. simpl. rewrite Nat.eqb_eq. apply length_zero_iff_nil.
Qed.

End Reconciliation.

(** ** Numbers *)

Lemma lt_of_Z (a b : Z) : Js.lt (Js.of_Z a) (Js.of_Z b) = bool_decide (a < b)%Z.
Proof.
  unfold Js.lt, Js.of_Z, Js.Qltb, Qle_bool. simpl. rewrite !Z.mul_1_r.
  case_bool_decide; [apply negb_true_iff | apply negb_false_iff]; lia.
Qed.

Lemma gt_of_Z (a b : Z) : Js.gt (Js.of_Z a) (Js.of_Z b) = bool_decide (b < a)%Z.
Proof. apply lt_of_Z. Qed.

(** [Math.ceil(t / l)] on integers, for a positive [l]: the least [n] with
    [t <= l * n]. *)
Lemma ceil_div_of_Z (t l : Z) :
  (0 < l)%Z ->
  exists n : Z,
    Js.ceil (Js.div (Js.of_Z t) (Js.of_Z l)) = Js.of_Z n
    /\ (l * (n - 1) < t <= l * n)%Z.
Proof.
  intros Hl. exists (- ((- t) / l))%Z. split.
  - unfold Js.div, Js.of_Z, Js.Qis_zero.
    assert (Qeq_bool (inject_Z l) 0 = false) as ->.
    { apply not_true_is_false. intros Heq%Qeq_bool_iff.
      unfold Qeq in Heq. simpl in Heq. lia. }
    unfold Js.ceil, Js.of_Z, Qceiling. do 3 f_equal.
    rewrite Zdiv_Qdiv. apply Qfloor_comp.
    rewrite inject_Z_opp. unfold Qdiv. ring.
  - pose proof (Z.div_mod (- t) l ltac:(lia)) as Hdm.
    pose proof (Z.mod_pos_bound (- t) l Hl) as Hb.
    nia.
Qed.

(** ** Running monadic code *)

Section Running.
Context `{Mongo}.

Lemma bind_returned {A B} (m : IO A) (k : A -> IO B) (w w2 : World) (b : B) :
  bind m k w = (Returned b, w2) ->
  exists a w1, m w = (Returned a, w1) /\ k a w1 = (Returned b, w2).
Proof.
  unfold bind. destruct (m w) as [[a|e] w1]; [eauto | discriminate].
Qed.

Lemma bind_run {A B} (m : IO A) (k : A -> IO B) (w w1 : World) (a : A) :
  m w = (Returned a, w1) -> bind m k w = k a w1.
Proof. unfold bind. by intros ->. Qed.

Lemma bind_thrown {A B} (m : IO A) (k : A -> IO B) (w w1 : World) (e : Exn) :
  m w = (Thrown e, w1) -> bind m k w = (Thrown e, w1).
Proof. unfold bind. by intros ->. Qed.

(** A handler that only throws lets nothing but the results of the body
    through. *)
Lemma try_catch_returned {A} (body : IO A) (wrap : Exn -> Exn) (w w' : World) (a : A) :
  try_catch body (fun error => throw (wrap error)) w = (Returned a, w') ->
  body w = (Returned a, w').
Proof.
  unfold try_catch, throw. destruct (body w) as [[a'|e] w1]; [done | discriminate].
Qed.

Lemma try_catch_run {A} (body : IO A) (handler : Exn -> IO A) (w w' : World) (a : A) :
  body w = (Returned a, w') -> try_catch body handler w = (Returned a, w').
Proof. unfold try_catch. by intros ->. Qed.

Lemma try_catch_thrown {A} (body : IO A) (handler : Exn -> IO A) (w w' : World) (e : Exn) :
  body w = (Thrown e, w') -> try_catch body handler w = handler e w'.
Proof. unfold try_catch. by intros ->. Qed.

Lemma await_returned {A} (c : Call) (serve : Stores -> Result A * Stores)
  (w w' : World) (a : A) :
  await c serve w = (Returned a, w') ->
  rejects (env w) c = None
  /\ exists s', serve (meanwhile (env w) c (stores w)) = (Returned a, s')
             /\ w' = with_stores s' (with_call c w).
Proof.
  unfold await. simpl. destruct (rejects (env w) c); [discriminate|].
  destruct (serve _) as [r s'] eqn:Hs. intros [= -> <-]. eauto.
Qed.


End Running.

Section Setting.
Context `{Mongo}.


Lemma await_served {A} (c : Call) (serve : Stores -> Result A * Stores) (w : World)
  (r : Result A) (s' : Stores) :
  rejects (env w) c = None ->
  undisturbed w c ->
  serve (stores w) = (r, s') ->
  await c serve w
  = (r, {| stores := s'; collection := collection w; now := now w;
           calls := calls w ++ [c]; env := env w |}).
Proof.
  intros Hup Hq Hserve. unfold await. simpl. by rewrite Hup, Hq, Hserve.
Qed.

Lemma await_rejected {A} (c : Call) (serve : Stores -> Result A * Stores) (w : World) (e : Exn) :
  rejects (env w) c = Some e ->
  undisturbed w c ->
  await c serve w
  = (Thrown e,
     {| stores := stores w; collection := collection w; now := now w;
        calls := calls w ++ [c]; env := env w |}).
Proof.
  intros Hup Hq. unfold await. simpl. by rewrite Hup, Hq.
Qed.

Lemma createIndex_served (keys : list string) (unique : bool) (w : World) :
  rejects (env w) (CreateIndex keys unique) = None ->
  undisturbed w (CreateIndex keys unique) ->
  Collection.createIndex keys unique w
  = (Returned tt,
     {| stores := stores w; collection := collection w; now := now w;
        calls := calls w ++ [CreateIndex keys unique]; env := env w |}).
Proof.
  intros Hup Hq. unfold Collection.createIndex. by apply await_served.
Qed.

(** With the database reachable, [getCollection] returns, has made only
    set-up calls and leaves the stores alone. *)
Lemma getCollection_returns (w : World) :
  (forall c, setup_call c = true -> rejects (env w) c = None) ->
  (forall c, setup_call c = true -> undisturbed w c) ->
  exists pre,
    Forall (fun c => setup_call c = true) pre
    /\ GalleryService.getCollection w
       = (Returned tt,
          {| stores := stores w; collection := true; now := now w;
             calls := calls w ++ pre; env := env w |}).
Proof.
  intros Hup Hq. unfold GalleryService.getCollection.
  destruct (collection w) eqn:Hc.
  - exists []. split; [constructor|]. rewrite app_nil_r.
    destruct w; simpl in *; by subst.
  - eexists [GetDatabase; CreateIndex _ _; CreateIndex _ _; CreateIndex _ _;
             CreateIndex _ _; CreateIndex _ _].
    split; [repeat constructor|].
    erewrite bind_run
      by (apply await_served; [by apply Hup | by apply Hq | reflexivity]).
    cbn [fst snd]. unfold GalleryService.set_collection at 1.
    unfold bind at 1, with_collection; cbn [stores collection now calls env].
    do 5 (erewrite bind_run
            by (apply createIndex_served; [apply Hup | apply Hq]; done);
          cbn [stores collection now calls env]).
    unfold ret. by rewrite <- !app_assoc.
Qed.

End Setting.

Section Frames.
Context `{Mongo}.


Lemma quiet_env (w w1 : World) : env w1 = env w -> quiet w -> quiet w1.
Proof. unfold quiet, undisturbed. by intros ->. Qed.

Lemma leaves_stores_ret {A} (a : A) : leaves_stores (ret a).
Proof. intros w r w1 [= <- <-]. done. Qed.

Lemma leaves_stores_bind {A B} (m : IO A) (k : A -> IO B) :
  leaves_stores m -> (forall a, leaves_stores (k a)) -> leaves_stores (bind m k).
Proof.
  intros Hm Hk w r w2. unfold bind.
  destruct (m w) as [[a|e] w1] eqn:Hrun.
  - intros Hrun2. destruct (Hm _ _ _ Hrun) as (He & Hn & Hs).
    destruct (Hk a _ _ _ Hrun2) as (He2 & Hn2 & Hs2).
    split_and!; [congruence | congruence |].
    intros Hq. rewrite Hs2, Hs; [done | done | by eapply quiet_env].
  - intros [= <- <-]. by apply (Hm _ _ _ Hrun).
Qed.

Lemma leaves_stores_await {A} (c : Call) (serve : Stores -> Result A * Stores) :
  (forall s, snd (serve s) = s) -> leaves_stores (await c serve).
Proof.
  intros Hserve w r w1. unfold await. simpl.
  destruct (rejects (env w) c).
  - intros [= <- <-]. simpl. split_and!; [done..|]. intros Hq. apply Hq.
  - specialize (Hserve (meanwhile (env w) c (stores w))).
    destruct (serve _) as [r' s']. simpl in Hserve. subst s'.
    intros [= <- <-]. simpl. split_and!; [done..|]. intros Hq. apply Hq.
Qed.

Lemma leaves_stores_getCollection : leaves_stores GalleryService.getCollection.
Proof.
  intros w r w1. unfold GalleryService.getCollection.
  destruct (collection w).
  - intros [= <- <-]. done.
  - revert w r w1. change (leaves_stores
      (await GetDatabase (fun s => (Returned tt, s));;
       GalleryService.set_collection;;
       Collection.createIndex ["cloudinaryId"] true;;
       Collection.createIndex ["createdAt"] false;;
       Collection.createIndex ["tags"] false;;
       Collection.createIndex ["isPublic"] false;;
       Collection.createIndex ["title"; "description"] false;;
       ret tt)).
    repeat (apply leaves_stores_bind; [|intros ?]);
      try (apply leaves_stores_await; done); try apply leaves_stores_ret.
    intros w r w1 [= <- <-]. done.
Qed.

Lemma countDocuments_returned (f : Filter) (w w1 : World) (t : Js.number) :
  Collection.countDocuments f w = (Returned t, w1) ->
  t = Js.of_nat (length (List.filter (Collection.matches f)
                           (images (meanwhile (env w) (CountDocuments f) (stores w))))).
Proof.
  intros (_ & s' & Hserve & _)%await_returned. by injection Hserve as <- _.
Qed.

(** Both operations answer with [page_of] the count they were given. *)
Lemma getImages_returned (query : PaginationQuery.t) (w w' : World)
  (r : PaginatedResponse GalleryImage) :
  GalleryService.getImages query w = (Returned r, w') ->
  exists w1 w2 t,
    GalleryService.getCollection w = (Returned tt, w1)
    /\ Collection.countDocuments
         (GalleryService.build_filter None (PaginationQuery.tags query)
            (PaginationQuery.isPublic query)) w1 = (Returned t, w2)
    /\ pagination r
       = GalleryService.page_of t
           (default (Js.of_Z 1) (PaginationQuery.page query))
           (default (Js.of_Z 20) (PaginationQuery.limit query)).
Proof.
  intros Hrun%try_catch_returned.
  apply bind_returned in Hrun as ([] & w1 & Hcoll & Hrun).
  apply bind_returned in Hrun as (t & w2 & Hcount & Hrun).
  apply bind_returned in Hrun as (found & w3 & Hfind & Hrun).
  injection Hrun as <- _. eauto 10.
Qed.

Lemma searchImages_returned (searchTerm : string) (query : PaginationQuery.t)
  (w w' : World) (r : PaginatedResponse GalleryImage) :
  GalleryService.searchImages searchTerm query w = (Returned r, w') ->
  exists w1 w2 t,
    GalleryService.getCollection w = (Returned tt, w1)
    /\ Collection.countDocuments
         (GalleryService.build_filter (Some searchTerm) (PaginationQuery.tags query)
            (PaginationQuery.isPublic query)) w1 = (Returned t, w2)
    /\ pagination r
       = GalleryService.page_of t
           (default (Js.of_Z 1) (PaginationQuery.page query))
           (default (Js.of_Z 20) (PaginationQuery.limit query)).
Proof.
  intros Hrun%try_catch_returned.
  apply bind_returned in Hrun as ([] & w1 & Hcoll & Hrun).
  apply bind_returned in Hrun as (t & w2 & Hcount & Hrun).
  apply bind_returned in Hrun as (found & w3 & Hfind & Hrun).
  injection Hrun as <- _. eauto 10.
Qed.


(** The page block for a count [T], a page [p] and a positive limit [l]. *)
Lemma page_of_integers (T : nat) (p l : Z) :
  (0 < l)%Z ->
  exists n : Z,
    GalleryService.page_of (Js.of_nat T) (Js.of_Z p) (Js.of_Z l)
    = {| currentPage := Js.of_Z p; totalPages := Js.of_Z n;
         totalItems := Js.of_nat T; itemsPerPage := Js.of_Z l;
         hasNextPage := bool_decide (p < n)%Z;
         hasPrevPage := bool_decide (1 < p)%Z |}
    /\ (l * (n - 1) < Z.of_nat T <= l * n)%Z.
Proof.
  intros Hl. destruct (ceil_div_of_Z (Z.of_nat T) l Hl) as (n & Hceil & Hn).
  exists n. split; [|done]. unfold GalleryService.page_of.
  change (Js.of_nat T) with (Js.of_Z (Z.of_nat T)).
  by rewrite Hceil, lt_of_Z, gt_of_Z.
Qed.

(** C2. A listing or a search asked for page [p >= 1] with a limit [l] between
    1 and 100 answers with the number [T] of documents matching the filter
    and with [totalPages = ceil(T / l)], the least [n] with [T <= l * n];
    [hasNextPage] holds exactly when [p < totalPages] and [hasPrevPage]
    exactly when [p > 1]. *)
Theorem pagination_metadata (searchTerm : option string) (query : PaginationQuery.t)
  (p l : Z) (w w' : World) (r : PaginatedResponse GalleryImage) :
  PaginationQuery.page query = Some (Js.of_Z p) ->
  PaginationQuery.limit query = Some (Js.of_Z l) ->
  (1 <= p)%Z ->
  (1 <= l <= 100)%Z ->
  list_or_search searchTerm query w = (Returned r, w') ->
  exists (T : nat) (n : Z),
    totalItems (pagination r) = Js.of_nat T
    /\ (quiet w ->
        T = length (List.filter
                      (Collection.matches
                         (GalleryService.build_filter searchTerm
                            (PaginationQuery.tags query) (PaginationQuery.isPublic query)))
                      (images (stores w))))
    /\ totalPages (pagination r) = Js.of_Z n
    /\ (l * (n - 1) < Z.of_nat T <= l * n)%Z
    /\ hasNextPage (pagination r) = bool_decide (p < n)%Z
    /\ hasPrevPage (pagination r) = bool_decide (1 < p)%Z
    /\ currentPage (pagination r) = Js.of_Z p
    /\ itemsPerPage (pagination r) = Js.of_Z l.
Proof.
  intros Hp Hl Hpage Hlimit Hrun.
  assert (exists w1 w2 t,
    GalleryService.getCollection w = (Returned tt, w1)
    /\ Collection.countDocuments
         (GalleryService.build_filter searchTerm (PaginationQuery.tags query)
            (PaginationQuery.isPublic query)) w1 = (Returned t, w2)
    /\ pagination r = GalleryService.page_of t (Js.of_Z p) (Js.of_Z l))
    as (w1 & w2 & t & Hcoll & Hcount & ->).
  { destruct searchTerm as [term|]; simpl in Hrun;
      [apply searchImages_returned in Hrun | apply getImages_returned in Hrun];
      rewrite Hp, Hl in Hrun; exact Hrun. }
  apply countDocuments_returned in Hcount as ->.
  set (T := length _).
  destruct (page_of_integers T p l ltac:(lia)) as (n & -> & Hn).
  exists T, n. cbn [totalItems totalPages hasNextPage hasPrevPage currentPage itemsPerPage].
  split_and!; try done; try lia.
  intros Hq. subst T.
  destruct (leaves_stores_getCollection _ _ _ Hcoll) as (He & _ & Hs).
  rewrite He, Hq, Hs; done.
Qed.

End Frames.

Section Lookup.
Context `{Mongo}.

Lemma truthy_Some (s : string) : s <> "" -> Js.truthy (Some s) = true.
Proof.
  intros Hs. unfold Js.truthy. apply negb_true_iff.
  by apply String.eqb_neq.
Qed.

Lemma up_setup (w : World) :
  up w -> forall c, setup_call c = true -> rejects (env w) c = None.
Proof. intros Hup c _. apply Hup. Qed.

Lemma quiet_setup (w : World) :
  quiet w -> forall c, setup_call c = true -> undisturbed w c.
Proof. intros Hq c _. apply Hq. Qed.

(** An identifier that is not an object id makes read-one and delete throw,
    whatever the collaborators do. *)
Lemma getImageById_invalid (id : string) (w : World) :
  ObjectId_isValid id = false ->
  exists e w', GalleryService.getImageById id w = (Thrown e, w').
Proof.
  intros Hid. unfold GalleryService.getImageById, try_catch, bind, throw.
  rewrite Hid. simpl.
  destruct (GalleryService.getCollection w) as [[[]|e] w1]; eauto.
Qed.

Lemma deleteImage_invalid (id : string) (w : World) :
  ObjectId_isValid id = false ->
  exists e w',
    GalleryService.deleteImage id w = (Thrown e, w')
    /\ (quiet w -> stores w' = stores w).
Proof.
  intros Hid. unfold GalleryService.deleteImage, try_catch, bind, throw.
  rewrite Hid. simpl.
  destruct (GalleryService.getCollection w) as [[[]|e] w1] eqn:Hcoll;
    (do 2 eexists; split; [reflexivity|]);
    intros Hq; by apply (leaves_stores_getCollection _ _ _ Hcoll).
Qed.

Lemma findOne_served (id : ObjectId) (w : World) :
  rejects (env w) (FindOne id) = None ->
  undisturbed w (FindOne id) ->
  Collection.findOne id w
  = (Returned (List.find (Collection.has_id id) (images (stores w))),
     {| stores := stores w; collection := collection w; now := now w;
        calls := calls w ++ [FindOne id]; env := env w |}).
Proof. intros Hup Hq. unfold Collection.findOne. by apply await_served. Qed.

(** With both collaborators at hand, reading by a well-formed identifier
    returns the first record that has it, if any. *)
Lemma getImageById_served (id : string) (w : World) :
  ObjectId_isValid id = true ->
  up w ->
  quiet w ->
  exists w',
    GalleryService.getImageById id w
    = (Returned (List.find (Collection.has_id (ObjectId_new id)) (images (stores w))), w')
    /\ stores w' = stores w.
Proof.
  intros Hid Hup Hq.
  destruct (getCollection_returns w (up_setup w Hup) (quiet_setup w Hq))
    as (pre & _ & Hcoll).
  eexists. split; [|shelve].
  unfold GalleryService.getImageById. apply try_catch_run.
  erewrite bind_run by exact Hcoll. rewrite Hid. cbn [negb].
  rewrite findOne_served by (first [apply Hup | apply Hq]).
  reflexivity.
  Unshelve. done.
Qed.

Lemma deleteImage_missing (id : string) (w : World) :
  ObjectId_isValid id = true ->
  up w ->
  quiet w ->
  List.find (Collection.has_id (ObjectId_new id)) (images (stores w)) = None ->
  exists w',
    GalleryService.deleteImage id w
    = (Thrown (Error "Failed to delete image: Image not found"), w')
    /\ stores w' = stores w.
Proof.
  intros Hid Hup Hq Hfind.
  destruct (getCollection_returns w (up_setup w Hup) (quiet_setup w Hq))
    as (pre & _ & Hcoll).
  eexists. split; [|shelve].
  unfold GalleryService.deleteImage. erewrite try_catch_thrown; cycle 1.
  { erewrite bind_run by exact Hcoll. rewrite Hid. cbn [negb].
    erewrite bind_run by (apply findOne_served; first [apply Hup | apply Hq]).
    cbn [stores]. rewrite Hfind. reflexivity. }
  reflexivity.
  Unshelve. done.
Qed.

(** The slip next to C3: for a well-formed identifier that no record has,
    the service throws "Image not found" instead of returning [false], so the
    404 branch of the DELETE handler is passed over and the answer is 500. *)
Lemma delete_missing_answers_500 (id : string) (w : World) :
  id <> "" ->
  ObjectId_isValid id = true ->
  up w ->
  quiet w ->
  List.find (Collection.has_id (ObjectId_new id)) (images (stores w)) = None ->
  exists w',
    ImageRoute.DELETE id w
    = (Returned (failure "Failed to delete image"
                   "Failed to delete image: Image not found" 500), w')
    /\ stores w' = stores w.
Proof.
  intros Hne Hid Hup Hq Hfind.
  destruct (deleteImage_missing id w Hid Hup Hq Hfind) as (w' & Hrun & Hs).
  exists w'. split; [|done].
  unfold ImageRoute.DELETE. rewrite (truthy_Some id Hne). simpl.
  erewrite try_catch_thrown by (by erewrite bind_thrown). reflexivity.
Qed.

(** C3, as the code has it.  For a non-empty identifier and collaborators
    at hand: an identifier that is not well formed makes both read-one and
    delete fail with an error that the routes answer with 500, the stores
    untouched; a well-formed identifier that no record has makes read-one
    return nothing, which [GET /images/{id}] answers with 404. *)
Theorem unknown_identifiers (id : string) (w : World) :
  id <> "" ->
  up w ->
  quiet w ->
  (ObjectId_isValid id = false ->
   fst (GalleryService.getImageById id w)
     = Thrown (Error "Failed to retrieve image: Invalid image ID format")
   /\ fst (GalleryService.deleteImage id w)
      = Thrown (Error "Failed to delete image: Invalid image ID format")
   /\ status_of (ImageRoute.GET id w) = Some 500%Z
   /\ status_of (ImageRoute.DELETE id w) = Some 500%Z
   /\ stores (snd (ImageRoute.DELETE id w)) = stores w)
  /\ (ObjectId_isValid id = true ->
      List.find (Collection.has_id (ObjectId_new id)) (images (stores w)) = None ->
      (exists w', GalleryService.getImageById id w = (Returned None, w'))
      /\ fst (ImageRoute.GET id w)
         = Returned (failure "Image not found" "No image found with the provided ID" 404)).
Proof.
  intros Hne Hup Hq. split.
  - intros Hid.
    destruct (getImageById_invalid id w Hid) as (e1 & w1 & Hget).
    destruct (deleteImage_invalid id w Hid) as (e2 & w2 & Hdel & Hs).
    destruct (getCollection_returns w (up_setup w Hup) (quiet_setup w Hq))
      as (pre & _ & Hcoll).
    split_and!.
    + unfold GalleryService.getImageById.
      erewrite try_catch_thrown; cycle 1.
      { erewrite bind_run by exact Hcoll. rewrite Hid. reflexivity. }
      reflexivity.
    + unfold GalleryService.deleteImage.
      erewrite try_catch_thrown; cycle 1.
      { erewrite bind_run by exact Hcoll. rewrite Hid. reflexivity. }
      reflexivity.
    + unfold ImageRoute.GET. rewrite (truthy_Some id Hne). simpl.
      erewrite try_catch_thrown by (by erewrite bind_thrown). done.
    + unfold ImageRoute.DELETE. rewrite (truthy_Some id Hne). simpl.
      erewrite try_catch_thrown by (by erewrite bind_thrown). done.
    + unfold ImageRoute.DELETE. rewrite (truthy_Some id Hne). simpl.
      erewrite try_catch_thrown by (by erewrite bind_thrown). simpl. by apply Hs.
  - intros Hid Hfind.
    destruct (getImageById_served id w Hid Hup Hq) as (w' & Hget & _).
    rewrite Hfind in Hget. split; [eauto|].
    unfold ImageRoute.GET. rewrite (truthy_Some id Hne). simpl.
    erewrite try_catch_run; [reflexivity|].
    by erewrite bind_run by exact Hget.
Qed.

End Lookup.

Section Creation.
Context `{Mongo}.

Lemma uploadImage_served (file : Buffer) (publicId : option string) (w : World) :
  let public_id := if Js.truthy publicId then publicId else None in
  rejects (env w) (UploadStream file public_id) = None ->
  undisturbed w (UploadStream file public_id) ->
  Cloudinary.uploadImage file publicId w
  = (Returned (uploaded (env w)),
     {| stores := snd (Cloudinary.serve_upload (uploaded (env w)) (stores w));
        collection := collection w; now := now w;
        calls := calls w ++ [UploadStream file public_id]; env := env w |}).
Proof.
  intros public_id Hup Hq. unfold Cloudinary.uploadImage. fold public_id.
  by apply await_served.
Qed.

Lemma elem_of_serve_upload (r : CloudinaryUploadResult.t) (s : Stores) :
  CloudinaryUploadResult.public_id r ∈ assets (snd (Cloudinary.serve_upload r s))
  /\ images (snd (Cloudinary.serve_upload r s)) = images s.
Proof.
  unfold Cloudinary.serve_upload. simpl. case_bool_decide; simpl; [done|].
  split; [|done]. apply elem_of_app. right. apply list_elem_of_singleton. done.
Qed.

Lemma insertOne_rejected (doc : GalleryImage) (w : World) (e : Exn) :
  rejects (env w) (InsertOne doc) = Some e ->
  undisturbed w (InsertOne doc) ->
  Collection.insertOne doc w
  = (Thrown e,
     {| stores := stores w; collection := collection w; now := now w;
        calls := calls w ++ [InsertOne doc]; env := env w |}).
Proof. intros Hrej Hq. unfold Collection.insertOne. by apply await_rejected. Qed.

Lemma new_Date_run (w : World) : new_Date w = (Returned (now w), w).
Proof. reflexivity. Qed.

(** C4 on the code.  When the upload is served and the insert that follows
    is rejected, [createImage] fails with the propagated error after exactly
    the calls of the set-up, the upload and the insert: no [destroy] is issued
    and the uploaded asset stays in the media store with no record for it. *)
Theorem create_keeps_upload_when_insert_rejects
  (imageData : CreateImageRequest.t) (file : Buffer) (w : World) (e : Exn) :
  (forall c, setup_call c = true -> rejects (env w) c = None) ->
  rejects (env w) (UploadStream file None) = None ->
  (forall doc, rejects (env w) (InsertOne doc) = Some e) ->
  quiet w ->
  exists w' pre doc,
    GalleryService.createImage imageData file w
    = (Thrown (Error ("Failed to create image: " +:+ message_or e "Unknown error")), w')
    /\ calls w' = calls w ++ pre ++ [UploadStream file None; InsertOne doc]
    /\ Forall (fun c => setup_call c = true) pre
    /\ CloudinaryUploadResult.public_id (uploaded (env w)) ∈ assets (stores w')
    /\ images (stores w') = images (stores w).
Proof.
  intros Hup Hupload Hinsert Hq.
  destruct (getCollection_returns w Hup (quiet_setup w Hq)) as (pre & Hpre & Hcoll).
  eexists _, pre, _. split.
  - unfold GalleryService.createImage.
    erewrite try_catch_thrown; cycle 1.
    { erewrite bind_run by exact Hcoll.
      erewrite bind_run by (apply (uploadImage_served file None); [apply Hupload | apply Hq]).
      cbn [stores collection now calls env].
      erewrite bind_run by apply new_Date_run.
      erewrite bind_run by apply new_Date_run.
      cbn [stores collection now calls env].
      erewrite bind_thrown; [reflexivity|].
      apply insertOne_rejected; [apply Hinsert | apply Hq]. }
    reflexivity.
  - cbn [stores collection now calls env].
    destruct (elem_of_serve_upload (uploaded (env w)) (stores w)) as [Hin Him].
    split_and!; [by rewrite <- !app_assoc | done | done | done].
Qed.

Lemma insertOne_unacknowledged (doc : GalleryImage) (w : World) :
  insertedId (env w) = None ->
  rejects (env w) (InsertOne doc) = None ->
  undisturbed w (InsertOne doc) ->
  Collection.insertOne doc w
  = (Returned None,
     {| stores := stores w; collection := collection w; now := now w;
        calls := calls w ++ [InsertOne doc]; env := env w |}).
Proof.
  intros Hack Hup Hq. unfold Collection.insertOne.
  apply await_served; [done | done |]. by rewrite Hack.
Qed.

Lemma deleteImage_served (publicId : string) (w : World) :
  rejects (env w) (Destroy publicId) = None ->
  undisturbed w (Destroy publicId) ->
  Cloudinary.deleteImage publicId w
  = (Returned tt,
     {| stores := snd (Cloudinary.serve_destroy publicId (stores w));
        collection := collection w; now := now w;
        calls := calls w ++ [Destroy publicId]; env := env w |}).
Proof.
  intros Hup Hq. unfold Cloudinary.deleteImage, Cloudinary.logged.
  apply try_catch_run. by apply await_served.
Qed.

Lemma not_elem_of_serve_destroy (publicId : string) (s : Stores) :
  publicId ∉ assets (snd (Cloudinary.serve_destroy publicId s)).
Proof.
  unfold Cloudinary.serve_destroy. simpl.
  rewrite list_elem_of_In, filter_In. intros [_ Hne].
  apply negb_true_iff in Hne. by rewrite String.eqb_refl in Hne.
Qed.

(** The path the code does compensate: an insert acknowledged without an
    id.  The uploaded asset is destroyed before the failure is reported. *)
Lemma create_compensates_unacknowledged_insert
  (imageData : CreateImageRequest.t) (file : Buffer) (w : World) :
  up w ->
  quiet w ->
  insertedId (env w) = None ->
  exists w' pre doc,
    GalleryService.createImage imageData file w
    = (Thrown (Error "Failed to create image: Failed to create image record in database"), w')
    /\ calls w' = calls w ++ pre
         ++ [UploadStream file None; InsertOne doc;
             Destroy (CloudinaryUploadResult.public_id (uploaded (env w)))]
    /\ CloudinaryUploadResult.public_id (uploaded (env w)) ∉ assets (stores w').
Proof.
  intros Hup Hq Hack.
  destruct (getCollection_returns w (up_setup w Hup) (quiet_setup w Hq))
    as (pre & Hpre & Hcoll).
  eexists _, pre, _. split.
  - unfold GalleryService.createImage.
    erewrite try_catch_thrown; cycle 1.
    { erewrite bind_run by exact Hcoll.
      erewrite bind_run by (apply (uploadImage_served file None); [apply Hup | apply Hq]).
      cbn [stores collection now calls env].
      erewrite bind_run by apply new_Date_run.
      erewrite bind_run by apply new_Date_run.
      cbn [stores collection now calls env].
      erewrite bind_run
        by (apply insertOne_unacknowledged; [apply Hack | apply Hup | apply Hq]).
      cbn [stores collection now calls env].
      erewrite bind_run by (apply deleteImage_served; [apply Hup | apply Hq]).
      reflexivity. }
    reflexivity.
  - cbn [stores collection now calls env]. split.
    + by rewrite <- !app_assoc.
    + apply not_elem_of_serve_destroy.
Qed.

(** Replacing an asset: the old one is destroyed, the new one uploaded; the
    records are not involved. *)
Lemma updateImage_served (publicId : string) (file : Buffer) (w : World) :
  up w ->
  quiet w ->
  exists w',
    Cloudinary.updateImage publicId file w = (Returned (uploaded (env w)), w')
    /\ images (stores w') = images (stores w)
    /\ collection w' = collection w /\ now w' = now w /\ env w' = env w.
Proof.
  intros Hup Hq. eexists. split.
  - unfold Cloudinary.updateImage, Cloudinary.logged. apply try_catch_run.
    erewrite bind_run by (apply deleteImage_served; [apply Hup | apply Hq]).
    rewrite (uploadImage_served file (Some publicId)) by (first [apply Hup | apply Hq]).
    reflexivity.
  - cbn [stores collection now calls env].
    by destruct (elem_of_serve_upload (uploaded (env w))
                   (snd (Cloudinary.serve_destroy publicId (stores w)))) as [_ ->].
Qed.

End Creation.

Section Mutation.
Context `{Mongo}.

Lemma update_first_found (id : ObjectId) (u : UpdateObject) (docs : list GalleryImage)
  (existing : GalleryImage) :
  List.find (Collection.has_id id) docs = Some existing ->
  exists before after,
    docs = before ++ existing :: after
    /\ Collection.update_first id u docs
       = (Some (Collection.apply_set u existing),
          before ++ Collection.apply_set u existing :: after).
Proof.
  induction docs as [|d docs IH]; simpl; [discriminate|].
  destruct (Collection.has_id id d) eqn:Hd.
  - intros [= ->]. by exists [], docs.
  - intros Hfind. destruct (IH Hfind) as (before & after & -> & ->).
    by exists (d :: before), after.
Qed.

Lemma findOneAndUpdate_served (id : ObjectId) (u : UpdateObject) (w : World) :
  rejects (env w) (FindOneAndUpdate id u) = None ->
  undisturbed w (FindOneAndUpdate id u) ->
  Collection.findOneAndUpdate id u w
  = (Returned (fst (Collection.update_first id u (images (stores w)))),
     {| stores := Collection.set_images
                    (snd (Collection.update_first id u (images (stores w)))) (stores w);
        collection := collection w; now := now w;
        calls := calls w ++ [FindOneAndUpdate id u]; env := env w |}).
Proof.
  intros Hup Hq. unfold Collection.findOneAndUpdate.
  apply await_served; [done | done |]. by destruct (Collection.update_first _ _ _).
Qed.

(** C6. An update of an existing record replaces the record, in place, by
    one in which each field the patch supplies has the supplied value,
    [updatedAt] is the current time, and every other field of the patch is as
    before.  Without a new file [cloudinaryUrl], [format], [width], [height]
    and [bytes] are as before too and the media store is not touched: with a
    patch of tags only, just [tags] and [updatedAt] change.  With a new file
    these five fields are what Cloudinary reports for it.  No other record is
    touched. *)
Theorem update_sets_only_the_patch
  (id : string) (updateData : UpdateImageRequest.t) (file : option Buffer)
  (w : World) (existing : GalleryImage) :
  ObjectId_isValid id = true ->
  up w ->
  quiet w ->
  List.find (Collection.has_id (ObjectId_new id)) (images (stores w)) = Some existing ->
  let reported (A : Type) (field : CloudinaryUploadResult.t -> A) (old : A) : A :=
    match file with
    | Some _ => field (uploaded (env w))
    | None => old
    end in
  exists w' updated before after,
    GalleryService.updateImage id updateData file w = (Returned (Some updated), w')
    /\ images (stores w) = before ++ existing :: after
    /\ images (stores w') = before ++ updated :: after
    /\ (file = None -> assets (stores w') = assets (stores w))
    /\ updatedAt updated = now w
    /\ title updated = default (title existing) (UpdateImageRequest.title updateData)
    /\ description updated
       = from_option Some (description existing) (UpdateImageRequest.description updateData)
    /\ tags updated = default (tags existing) (UpdateImageRequest.tags updateData)
    /\ isPublic updated = default (isPublic existing) (UpdateImageRequest.isPublic updateData)
    /\ cloudinaryUrl updated
       = reported _ CloudinaryUploadResult.secure_url (cloudinaryUrl existing)
    /\ format updated = reported _ CloudinaryUploadResult.format (format existing)
    /\ width updated = reported _ CloudinaryUploadResult.width (width existing)
    /\ height updated = reported _ CloudinaryUploadResult.height (height existing)
    /\ bytes updated = reported _ CloudinaryUploadResult.bytes (bytes existing)
    /\ cloudinaryId updated = cloudinaryId existing
    /\ publicId updated = publicId existing
    /\ createdAt updated = createdAt existing
    /\ uploadedBy updated = uploadedBy existing
    /\ _id updated = _id existing.
Proof.
  intros Hid Hup Hq Hfind reported.
  destruct (getCollection_returns w (up_setup w Hup) (quiet_setup w Hq))
    as (pre & Hpre & Hcoll).
  set (cloudinaryResult := (fun _ : Buffer => uploaded (env w)) <$> file).
  destruct (update_first_found _ (patch_of updateData (now w) cloudinaryResult) _ _ Hfind)
    as (before & after & Hdocs & Hupdate).
  set (w1 := {| stores := stores w; collection := true; now := now w;
                calls := (calls w ++ pre) ++ [FindOne (ObjectId_new id)];
                env := env w |}).
  assert (exists w2,
    (match file with
     | Some file =>
         let* r := Cloudinary.updateImage (cloudinaryId existing) file in ret (Some r)
     | None => ret None
     end) w1 = (Returned cloudinaryResult, w2)
    /\ images (stores w2) = images (stores w)
    /\ now w2 = now w /\ env w2 = env w
    /\ (file = None -> stores w2 = stores w)) as (w2 & Hcloud & Himages & Hnow & Henv & Hnone).
  { subst cloudinaryResult. destruct file as [file|]; simpl.
    - destruct (updateImage_served (cloudinaryId existing) file w1 Hup Hq)
        as (w2 & Hrun & ? & ? & ? & ?).
      exists w2. split_and!; [by erewrite bind_run by exact Hrun | done..].
    - by exists w1. }
  assert (up w2 /\ quiet w2) as [Hup2 Hq2].
  { split; intros c; [rewrite Henv; apply Hup | intros s; rewrite Henv; apply Hq]. }
  eexists _, (Collection.apply_set (patch_of updateData (now w) cloudinaryResult) existing),
    before, after.
  split.
  - unfold GalleryService.updateImage. apply try_catch_run.
    erewrite bind_run by exact Hcoll. rewrite Hid. cbn [negb].
    erewrite bind_run by (apply findOne_served; first [apply Hup | apply Hq]).
    cbn [stores collection now calls env]. rewrite Hfind. fold w1.
    erewrite bind_run by exact Hcloud.
    erewrite bind_run by apply new_Date_run.
    rewrite Hnow. fold (patch_of updateData (now w) cloudinaryResult).
    rewrite findOneAndUpdate_served by (first [apply Hup2 | apply Hq2]).
    rewrite Himages, Hupdate. reflexivity.
  - cbn [stores collection now calls env Collection.set_images images assets snd].
    subst reported cloudinaryResult.
    split_and!; try done; try (by destruct file).
    intros ->. by rewrite Hnone.
Qed.

Lemma delete_first_count (id : ObjectId) (docs : list GalleryImage) :
  let '(n, rest) := Collection.delete_first id docs in
  (n = 1%Z /\ length docs = S (length rest)) \/ (n = 0%Z /\ rest = docs).
Proof.
  induction docs as [|d docs IH]; simpl; [by right|].
  destruct (Collection.has_id id d); [by left|].
  destruct (Collection.delete_first id docs) as [n rest].
  destruct IH as [[-> Hlen]|[-> ->]]; [left | right]; simpl; auto.
Qed.

Lemma delete_first_found (id : ObjectId) (docs : list GalleryImage) (existing : GalleryImage) :
  List.find (Collection.has_id id) docs = Some existing ->
  fst (Collection.delete_first id docs) = 1%Z.
Proof.
  induction docs as [|d docs IH]; simpl; [discriminate|].
  destruct (Collection.has_id id d); [done|].
  intros Hfind. specialize (IH Hfind).
  by destruct (Collection.delete_first id docs).
Qed.

Lemma deleteOne_served (id : ObjectId) (w : World) :
  rejects (env w) (DeleteOne id) = None ->
  let s := meanwhile (env w) (DeleteOne id) (stores w) in
  Collection.deleteOne id w
  = (Returned (fst (Collection.delete_first id (images s))),
     {| stores := Collection.set_images (snd (Collection.delete_first id (images s))) s;
        collection := collection w; now := now w;
        calls := calls w ++ [DeleteOne id]; env := env w |}).
Proof.
  intros Hup s. unfold Collection.deleteOne, await. simpl. rewrite Hup.
  fold s. by destruct (Collection.delete_first id (images s)).
Qed.

(** C7. Deleting an existing record asks Cloudinary to destroy the asset
    and only then asks MongoDB to delete the record; the result is [true]
    exactly when that delete removed one document from the collection as it
    found it.  When no other request gets in between, one document is
    removed, the result is [true] and the asset is gone. *)
Theorem delete_destroys_asset_then_record
  (id : string) (w : World) (existing : GalleryImage) :
  ObjectId_isValid id = true ->
  up w ->
  (forall c, (forall i, c <> DeleteOne i) -> undisturbed w c) ->
  List.find (Collection.has_id (ObjectId_new id)) (images (stores w)) = Some existing ->
  let found :=
    images (meanwhile (env w) (DeleteOne (ObjectId_new id))
              (snd (Cloudinary.serve_destroy (cloudinaryId existing) (stores w)))) in
  exists w' pre (result : bool),
    GalleryService.deleteImage id w = (Returned result, w')
    /\ calls w' = calls w ++ pre
         ++ [FindOne (ObjectId_new id); Destroy (cloudinaryId existing);
             DeleteOne (ObjectId_new id)]
    /\ Forall (fun c => setup_call c = true) pre
    /\ (result = true <-> length found = S (length (images (stores w'))))
    /\ (result = false -> images (stores w') = found)
    /\ (undisturbed w (DeleteOne (ObjectId_new id)) ->
        result = true /\ cloudinaryId existing ∉ assets (stores w')).
Proof.
  intros Hid Hup Hq Hfind found.
  assert (forall c, setup_call c = true -> undisturbed w c) as Hqs.
  { intros c Hc. apply Hq. intros i ->. discriminate. }
  destruct (getCollection_returns w (up_setup w Hup) Hqs) as (pre & Hpre & Hcoll).
  eexists _, pre, _. split.
  - unfold GalleryService.deleteImage. apply try_catch_run.
    erewrite bind_run by exact Hcoll. rewrite Hid. cbn [negb].
    erewrite bind_run by (apply findOne_served; [apply Hup | by apply Hq]).
    cbn [stores collection now calls env]. rewrite Hfind.
    erewrite bind_run by (apply deleteImage_served; [apply Hup | by apply Hq]).
    cbn [stores collection now calls env].
    erewrite bind_run by (apply deleteOne_served; apply Hup).
    reflexivity.
  - cbn [stores collection now calls env Collection.set_images images assets].
    fold found.
    pose proof (delete_first_count (ObjectId_new id) found) as Hcount.
    destruct (Collection.delete_first (ObjectId_new id) found) as [n rest] eqn:Hdel.
    cbn [fst snd].
    split_and!.
    + by rewrite <- !app_assoc.
    + done.
    + rewrite Z.eqb_eq. destruct Hcount as [[-> Hlen]|[-> ->]]; [done|].
      split; [done | lia].
    + intros Hres%Z.eqb_neq. by destruct Hcount as [[-> _]|[_ ->]].
    + intros Hquiet. subst found. rewrite Hquiet in Hdel |- *.
      split.
      * apply Z.eqb_eq. change n with (fst (n, rest)). rewrite <- Hdel.
        eapply delete_first_found. exact Hfind.
      * apply not_elem_of_serve_destroy.
Qed.

End Mutation.

Section Endpoints.
Context `{Mongo}.

(** C8. [GET /images] answers 400, without a call to the service or to a
    collaborator, when the parsed page is below 1 or the parsed limit is below
    1 or above 100; for a page below 1 the message is "Invalid page number". *)
Theorem images_route_rejects_bad_paging (searchParams : SearchParams) (w : World) :
  let page := ImagesRoute.page_of_query (ImagesRoute.parse_query searchParams) in
  let limit := ImagesRoute.limit_of_query (ImagesRoute.parse_query searchParams) in
  Js.lt page (Js.of_Z 1) = true
  \/ Js.lt limit (Js.of_Z 1) = true
  \/ Js.gt limit (Js.of_Z 100) = true ->
  exists message error,
    ImagesRoute.GET searchParams w = (Returned (failure message error 400), w)
    /\ (Js.lt page (Js.of_Z 1) = true -> message = "Invalid page number").
Proof.
  intros page limit Hbad. unfold ImagesRoute.GET, try_catch.
  fold page limit.
  destruct (Js.lt page (Js.of_Z 1)) eqn:Hpage.
  - by eexists _, _.
  - destruct Hbad as [?|Hbad]; [done|].
    assert (Js.lt limit (Js.of_Z 1) || Js.gt limit (Js.of_Z 100) = true) as ->.
    { apply orb_true_iff. tauto. }
    by eexists _, _.
Qed.

Lemma digits_non_numeric (s : string) :
  match s with
  | EmptyString => true
  | String c _ =>
      match Js.digitValue c with
      | Some d => negb (d <? 10)%Z
      | None => true
      end
  end = true ->
  match s with
  | String "0" (String "x" r) | String "0" (String "X" r) => (16%Z, r)
  | _ => (10%Z, s)
  end = (10%Z, s)
  /\ Js.digits 10 s None = None.
Proof.
  destruct s as [|c s]; [done|]. intros Hc.
  assert (c <> "0"%char) as Hc0 by (by intros ->).
  split.
  - destruct c as [[] [] [] [] [] [] [] []]; try done.
  - simpl. destruct (Js.digitValue c) as [d|]; [|done].
    apply negb_true_iff in Hc. by rewrite Hc.
Qed.

(** [parseInt] finds no number in such a string. *)
Lemma parseInt_non_numeric (s : string) : non_numeric s = true -> Js.parseInt s = Js.NaN.
Proof.
  unfold non_numeric, Js.parseInt.
  set (t := Js.trimStart s). clearbody t.
  assert (forall sign u, 
    match u with
    | EmptyString => true
    | String c _ =>
        match Js.digitValue c with
        | Some d => negb (d <? 10)%Z
        | None => true
        end
    end = true ->
    (let '(radix, s0) :=
       match u with
       | String "0" (String "x" r) | String "0" (String "X" r) => (16%Z, r)
       | _ => (10%Z, u)
       end in
     match Js.digits radix s0 None with
     | Some z => Js.of_Z (sign * z)
     | None => Js.NaN
     end) = Js.NaN) as Hrest.
  { intros sign u Hu. destruct (digits_non_numeric u Hu) as [-> ->]. done. }
  destruct t as [|c t]; [done|].
  destruct (decide (c = "-"%char)) as [->|Hm]; [apply Hrest|].
  destruct (decide (c = "+"%char)) as [->|Hp]; [apply Hrest|].
  intros Hc.
  replace (match c with "-"%char | "+"%char => t | _ => String c t end)
    with (String c t) in Hc
    by (destruct c as [[] [] [] [] [] [] [] []]; done).
  replace (match c with
           | "-"%char => ((-1)%Z, t)
           | "+"%char => (1%Z, t)
           | _ => (1%Z, String c t)
           end) with (1%Z, String c t)
    by (destruct c as [[] [] [] [] [] [] [] []]; done).
  exact (Hrest 1%Z (String c t) Hc).
Qed.

Lemma or_else_non_empty (s d : string) : s <> "" -> Js.or_else (Some s) d = s.
Proof. intros Hs. unfold Js.or_else. by apply String.eqb_neq in Hs as ->. Qed.

Lemma GET_delegates (searchParams : SearchParams) (w : World) :
  Js.lt (ImagesRoute.page_of_query (ImagesRoute.parse_query searchParams)) (Js.of_Z 1) = false ->
  Js.lt (ImagesRoute.limit_of_query (ImagesRoute.parse_query searchParams)) (Js.of_Z 1) = false ->
  Js.gt (ImagesRoute.limit_of_query (ImagesRoute.parse_query searchParams)) (Js.of_Z 100) = false ->
  ImagesRoute.GET searchParams w = delegated searchParams w.
Proof.
  intros Hpage Hlow Hhigh. unfold ImagesRoute.GET, delegated, try_catch, bind, ret.
  rewrite Hpage, Hlow, Hhigh. cbn [orb].
  unfold list_or_search.
  destruct (get searchParams "search") as [term|] eqn:Hterm; cbn [Js.truthy default].
  - destruct (negb (String.eqb term "")); cbn [default].
    + by destruct (GalleryService.searchImages _ _ w) as [[r|e] w'].
    + by destruct (GalleryService.getImages _ w) as [[r|e] w'].
  - by destruct (GalleryService.getImages _ w) as [[r|e] w'].
Qed.

(** C9, as the code has it.  When the page or the limit of a
    [GET /images] request is a non-empty string without a leading integer,
    [parseInt] yields NaN for it and its bounds comparison is false; if the
    other parameter passes its own check as well (it is NaN too, or within its
    bounds), no 400 is returned: the request goes to the service with the NaN
    among its paging values, and the answer is 200 or 500. *)
Theorem images_route_lets_NaN_through (searchParams : SearchParams) (w : World) (s : string) :
  let page := ImagesRoute.page_of_query (ImagesRoute.parse_query searchParams) in
  let limit := ImagesRoute.limit_of_query (ImagesRoute.parse_query searchParams) in
  s <> "" ->
  non_numeric s = true ->
  get searchParams "page" = Some s \/ get searchParams "limit" = Some s ->
  page = Js.NaN \/ Js.lt page (Js.of_Z 1) = false ->
  limit = Js.NaN
  \/ (Js.lt limit (Js.of_Z 1) = false /\ Js.gt limit (Js.of_Z 100) = false) ->
  (page = Js.NaN \/ limit = Js.NaN)
  /\ Js.lt page (Js.of_Z 1) = false
  /\ Js.lt limit (Js.of_Z 1) || Js.gt limit (Js.of_Z 100) = false
  /\ ImagesRoute.GET searchParams w = delegated searchParams w
  /\ (status_of (ImagesRoute.GET searchParams w) = Some 200%Z
      \/ status_of (ImagesRoute.GET searchParams w) = Some 500%Z).
Proof.
  intros page limit Hs Hnon Hparam Hpage Hlimit.
  assert (page = Js.NaN \/ limit = Js.NaN) as HNaN.
  { destruct Hparam as [Hget|Hget]; [left | right]; subst page limit;
      unfold ImagesRoute.page_of_query, ImagesRoute.limit_of_query,
        ImagesRoute.parse_query; cbn [PaginationQuery.page PaginationQuery.limit default];
      rewrite Hget, or_else_non_empty by done; by apply parseInt_non_numeric. }
  assert (Js.lt page (Js.of_Z 1) = false) as Hp.
  { destruct Hpage as [->|?]; done. }
  assert (Js.lt limit (Js.of_Z 1) = false /\ Js.gt limit (Js.of_Z 100) = false)
    as [Hlow Hhigh].
  { destruct Hlimit as [->|?]; done. }
  pose proof (GET_delegates searchParams w Hp Hlow Hhigh) as Hget.
  split_and!; [done | done | by rewrite Hlow, Hhigh | done |].
  rewrite Hget. unfold delegated, status_of.
  destruct (list_or_search _ _ w) as [[r|e] w']; [by left | by right].
Qed.

End Endpoints.

Section Upload.
Context `{Mongo}.

Lemma trimStart_whitespace (s : string) :
  whitespace_only s = true -> Js.trimStart s = "".
Proof.
  unfold whitespace_only. induction s as [|c s IH]; simpl; [done|].
  intros [Hc Hs]%andb_true_iff. rewrite Hc. by apply IH.
Qed.

Lemma trim_whitespace (s : string) : whitespace_only s = true -> Js.trim s = "".
Proof. intros Hs. unfold Js.trim. by rewrite trimStart_whitespace. Qed.

(** The title check of the upload route turns away exactly the absent and
    the empty title. *)
Lemma title_check (t : option string) :
  negb (Js.truthy t) = true <-> t = None \/ t = Some "".
Proof.
  destruct t as [s|]; simpl.
  - rewrite negb_involutive, String.eqb_eq. split.
    + intros ->. by right.
    + intros [?|[= ->]]; done.
  - split; [by left | done].
Qed.

Lemma insertOne_served (doc : GalleryImage) (id : ObjectId) (w : World) :
  insertedId (env w) = Some id ->
  existsb (Collection.has_id id) (images (stores w)) = false ->
  existsb (fun d => String.eqb (cloudinaryId d) (cloudinaryId doc)) (images (stores w)) = false ->
  rejects (env w) (InsertOne doc) = None ->
  undisturbed w (InsertOne doc) ->
  Collection.insertOne doc w
  = (Returned (Some id),
     {| stores := Collection.set_images (images (stores w) ++ [Collection.with_id id doc])
                    (stores w);
        collection := collection w; now := now w;
        calls := calls w ++ [InsertOne doc]; env := env w |}).
Proof.
  intros Hack Hid Hcid Hup Hq. unfold Collection.insertOne.
  apply await_served; [done | done |].
  unfold Collection.serve_insertOne. by rewrite Hack, Hid, Hcid.
Qed.

(** C10. A title made of white space only passes the title check of
    [POST /images/upload], which turns away only the absent and the empty
    title; it is trimmed afterwards, and the record is created and stored with
    the empty string as its title. *)
Theorem upload_stores_blank_title_as_empty
  (formData : FormData) (file : File.t) (blank : string) (w : World) (id : ObjectId) :
  form_file formData = Some file ->
  form_title formData = Some blank ->
  blank <> "" ->
  whitespace_only blank = true ->
  Js.startsWith (File.type file) "image/" = true ->
  Js.gt (File.size file) UploadRoute.maxSize = false ->
  up w ->
  quiet w ->
  insertedId (env w) = Some id ->
  existsb (Collection.has_id id) (images (stores w)) = false ->
  existsb (fun d => String.eqb (cloudinaryId d)
                      (CloudinaryUploadResult.public_id (uploaded (env w))))
    (images (stores w)) = false ->
  (forall t, negb (Js.truthy t) = true <-> t = None \/ t = Some "")
  /\ exists w' created,
       UploadRoute.POST formData w
       = (Returned {| body := Envelope {| success := true;
                                          message := "Image uploaded successfully";
                                          data := Some (ImageData created);
                                          error := None |};
                      status := 201 |}, w')
       /\ title created = ""
       /\ images (stores w') = images (stores w) ++ [created].
Proof.
  intros Hfile Htitle Hne Hblank Htype Hsize Hup Hq Hack Hid Hcid.
  split; [apply title_check|].
  destruct (getCollection_returns w (up_setup w Hup) (quiet_setup w Hq))
    as (pre & Hpre & Hcoll).
  destruct (elem_of_serve_upload (uploaded (env w)) (stores w)) as [_ Himages].
  eexists _, _. split.
  - unfold UploadRoute.POST. rewrite Hfile, Htitle, (truthy_Some blank Hne), Htype, Hsize.
    cbn [negb]. change (default "" (Some blank)) with blank.
    rewrite (trim_whitespace blank Hblank).
    apply try_catch_run.
    erewrite bind_run; [reflexivity|].
    unfold GalleryService.createImage. apply try_catch_run.
    erewrite bind_run by exact Hcoll.
    erewrite bind_run by (apply (uploadImage_served (File.content file) None); [apply Hup | apply Hq]).
    cbn [stores collection now calls env].
    erewrite bind_run by apply new_Date_run.
    erewrite bind_run by apply new_Date_run.
    cbn [stores collection now calls env].
    erewrite bind_run.
    2:{ apply insertOne_served; cbn [stores collection now calls env cloudinaryId];
          [exact Hack | by rewrite Himages | by rewrite Himages | apply Hup | apply Hq]. }
    reflexivity.
  - cbn [stores collection now calls env Collection.set_images images
           Collection.with_id title CreateImageRequest.title].
    by rewrite Himages.
Qed.

End Upload.

(** ** Sorting *)

Section Orderings.
Context {A : Type}.

Lemma ordering_eq_r (cmp : A -> A -> comparison) (a b c : A) :
  Ordering cmp -> cmp b c = Eq -> cmp a b = cmp a c.
Proof.
  intros Hord Hbc.
  rewrite (ordering_antisym cmp Hord b a), (ordering_antisym cmp Hord c a).
  f_equal. by apply (ordering_eq cmp Hord).
Qed.

Lemma not_after_total (cmp : A -> A -> comparison) (a b : A) :
  Ordering cmp -> cmp a b = Gt -> not_after cmp b a.
Proof.
  intros Hord Hab. unfold not_after.
  by rewrite (ordering_antisym cmp Hord a b), Hab.
Qed.

Lemma not_after_trans (cmp : A -> A -> comparison) (a b c : A) :
  Ordering cmp -> not_after cmp a b -> not_after cmp b c -> not_after cmp a c.
Proof.
  intros Hord Hab Hbc. unfold not_after in *.
  destruct (cmp a b) eqn:Eab; [| |done].
  - by rewrite (ordering_eq cmp Hord a b c Eab).
  - destruct (cmp b c) eqn:Ebc; [| |done].
    + by rewrite <- (ordering_eq_r cmp a b c Hord Ebc), Eab.
    + by rewrite (ordering_lt cmp Hord a b c Eab Ebc).
Qed.

Lemma Ordering_opp (cmp : A -> A -> comparison) :
  Ordering cmp -> Ordering (fun a b => CompOpp (cmp a b)).
Proof.
  intros Hord. split.
  - intros a b. by rewrite (ordering_antisym cmp Hord a b).
  - intros a b c Hab. f_equal. apply (ordering_eq cmp Hord).
    by destruct (cmp a b).
  - intros a b c Hab Hbc.
    assert (cmp c b = Lt) as Hcb.
    { rewrite (ordering_antisym cmp Hord b c). by destruct (cmp b c). }
    assert (cmp b a = Lt) as Hba.
    { rewrite (ordering_antisym cmp Hord a b). by destruct (cmp a b). }
    rewrite (ordering_antisym cmp Hord c a), (ordering_lt cmp Hord c b a Hcb Hba).
    done.
Qed.

Lemma Ordering_flip (cmp : A -> A -> comparison) :
  Ordering cmp -> Ordering (fun a b => cmp b a).
Proof.
  intros Hord. split.
  - intros a b. apply (ordering_antisym cmp Hord).
  - intros a b c Hab. apply (ordering_eq_r cmp c a b Hord).
    rewrite (ordering_antisym cmp Hord b a), Hab. done.
  - intros a b c Hab Hbc. by apply (ordering_lt cmp Hord c b a).
Qed.

Lemma Ordering_const : Ordering (fun _ _ : A => Eq).
Proof. by split. Qed.

(** Ordering by a first comparison, then by a second one. *)
Lemma Ordering_lex (first second : A -> A -> comparison) :
  Ordering first -> Ordering second ->
  Ordering (fun a b => match first a b with Eq => second a b | c => c end).
Proof.
  intros H1 H2. split.
  - intros a b. rewrite (ordering_antisym first H1 a b).
    destruct (first a b); simpl; [apply (ordering_antisym second H2) | done..].
  - intros a b c Hab. destruct (first a b) eqn:Eab; [|done..].
    rewrite (ordering_eq first H1 a b c Eab).
    destruct (first b c); [by apply (ordering_eq second H2) | done..].
  - intros a b c Hab Hbc.
    destruct (first a b) eqn:Eab; [| |done].
    + rewrite (ordering_eq first H1 a b c Eab).
      destruct (first b c) eqn:Ebc; [|done..].
      by apply (ordering_lt second H2 a b c).
    + destruct (first b c) eqn:Ebc; [| |done].
      * by rewrite <- (ordering_eq_r first a b c H1 Ebc), Eab.
      * by rewrite (ordering_lt first H1 a b c Eab Ebc).
Qed.

Lemma Ordering_Z (key : A -> Z) : Ordering (fun a b => Z.compare (key a) (key b)).
Proof.
  split.
  - intros a b. apply Z.compare_antisym.
  - intros a b c Hab%Z.compare_eq. by rewrite Hab.
  - intros a b c Hab%Z.compare_lt_iff Hbc%Z.compare_lt_iff.
    apply Z.compare_lt_iff. by eapply Z.lt_trans.
Qed.

Lemma Ordering_Q (key : A -> Q) : Ordering (fun a b => Qcompare (key a) (key b)).
Proof.
  split.
  - intros a b. symmetry. apply Qcompare_antisym.
  - intros a b c Hab%Qeq_alt. by rewrite Hab.
  - intros a b c Hab%Qlt_alt Hbc%Qlt_alt. apply Qlt_alt. by eapply Qlt_trans.
Qed.

Lemma string_compare_lt_trans (a b c : string) :
  String.compare a b = Lt -> String.compare b c = Lt -> String.compare a c = Lt.
Proof.
  revert b c. induction a as [|x a IH]; intros [|y b] [|z c]; simpl; try done.
  destruct (Ascii.compare x y) eqn:Exy; [| |done].
  - apply Ascii.compare_eq_iff in Exy as ->.
    destruct (Ascii.compare y z); [apply IH | done..].
  - intros _. destruct (Ascii.compare y z) eqn:Eyz; [| |done].
    + apply Ascii.compare_eq_iff in Eyz as <-. by rewrite Exy.
    + intros _. assert (Ascii.compare x z = Lt) as ->; [|done].
      unfold Ascii.compare in *.
      apply N.compare_lt_iff in Exy. apply N.compare_lt_iff in Eyz.
      apply N.compare_lt_iff. by eapply N.lt_trans.
Qed.

Lemma Ordering_string (key : A -> string) :
  Ordering (fun a b => String.compare (key a) (key b)).
Proof.
  split.
  - intros a b. apply String.compare_antisym.
  - intros a b c Hab%String.compare_eq_iff. by rewrite Hab.
  - intros a b c. apply string_compare_lt_trans.
Qed.

End Orderings.

Section Sorting.
Context `{Mongo}.

Lemma Ordering_compare_field (field : string) : Ordering (Collection.compare_field field).
Proof.
  unfold Collection.compare_field.
  destruct (String.eqb field "createdAt"); [apply Ordering_Z|].
  destruct (String.eqb field "updatedAt"); [apply Ordering_Z|].
  destruct (String.eqb field "title"); [apply Ordering_string|].
  apply Ordering_const.
Qed.

Lemma Ordering_compare_key (term : option string) (k : string * SortValue) :
  Ordering (Collection.compare_key term k).
Proof.
  unfold Collection.compare_key. destruct (snd k).
  - apply Ordering_compare_field.
  - apply Ordering_opp, Ordering_compare_field.
  - apply (Ordering_flip (fun a b =>
      Qcompare (Collection.relevance term a) (Collection.relevance term b))).
    apply Ordering_Q.
Qed.

Lemma Ordering_compare_docs (term : option string) (sort : SortDoc) :
  Ordering (Collection.compare_docs term sort).
Proof.
  induction sort as [|k ks IH]; simpl.
  - apply Ordering_const.
  - apply (Ordering_lex (Collection.compare_key term k)
             (Collection.compare_docs term ks));
      [apply Ordering_compare_key | apply IH].
Qed.

Lemma precedes_not_after (term : option string) (sort : SortDoc) (a b : GalleryImage) :
  Collection.precedes term sort a b = true
  <-> not_after (Collection.compare_docs term sort) a b.
Proof.
  unfold Collection.precedes, not_after.
  destruct (Collection.compare_docs term sort a b); split; done.
Qed.

(** Insertion keeps a list sorted. *)
Lemma insert_sorted_sorted (cmp : GalleryImage -> GalleryImage -> comparison)
  (d : GalleryImage) (l : list GalleryImage) :
  Ordering cmp ->
  StronglySorted (not_after cmp) l ->
  StronglySorted (not_after cmp)
    (Collection.insert_sorted
       (fun a b => match cmp a b with Gt => false | _ => true end) d l)
  /\ forall x, x ∈ Collection.insert_sorted
                    (fun a b => match cmp a b with Gt => false | _ => true end) d l
               -> x = d \/ x ∈ l.
Proof.
  intros Hord. induction l as [|y l IH]; simpl; intros Hl.
  - split; [repeat constructor|]. intros x ->%list_elem_of_singleton. by left.
  - apply StronglySorted_inv in Hl as [Hl Hy].
    assert (cmp d y <> Gt ->
            StronglySorted (not_after cmp) (d :: y :: l)) as Hfront.
    { intros Hdy. constructor; [by constructor|]. constructor; [done|].
      eapply Forall_impl; [exact Hy|]. intros z Hz.
      by apply (not_after_trans cmp d y z Hord). }
    destruct (cmp d y) eqn:Edy.
    + split; [by apply Hfront|].
      intros x [->|Hx]%elem_of_cons; [by left | by right].
    + split; [by apply Hfront|].
      intros x [->|Hx]%elem_of_cons; [by left | by right].
    + destruct (IH Hl) as [Hsorted Hin]. split.
      * constructor; [done|]. apply Forall_forall. intros x Hx.
        destruct (Hin x Hx) as [->|Hxl].
        -- by apply not_after_total.
        -- by eapply Forall_forall in Hy.
      * intros x [->|Hx]%elem_of_cons; [right; by left|].
        destruct (Hin x Hx) as [->|Hxl]; [by left | right; by right].
Qed.

Lemma sort_docs_sorted (term : option string) (sort : SortDoc) (docs : list GalleryImage) :
  StronglySorted (not_after (Collection.compare_docs term sort))
    (Collection.sort_docs (Collection.precedes term sort) docs).
Proof.
  unfold Collection.sort_docs. induction docs as [|d docs IH]; simpl.
  - constructor.
  - apply (insert_sorted_sorted (Collection.compare_docs term sort));
      [apply Ordering_compare_docs | exact IH].
Qed.

Lemma StronglySorted_drop {B} (R : B -> B -> Prop) (k : nat) (l : list B) :
  StronglySorted R l -> StronglySorted R (drop k l).
Proof.
  intros Hl. rewrite <- (take_drop k l) in Hl. by apply StronglySorted_app_1_r in Hl.
Qed.

Lemma StronglySorted_take {B} (R : B -> B -> Prop) (k : nat) (l : list B) :
  StronglySorted R l -> StronglySorted R (take k l).
Proof.
  intros Hl. rewrite <- (take_drop k l) in Hl. by apply StronglySorted_app_1_l in Hl.
Qed.

(** What a cursor returns is in the order of its sort document. *)
Lemma find_sorted (f : Filter) (sort : SortDoc) (skip limit : option Js.number)
  (w w' : World) (found : list GalleryImage) :
  Collection.find f sort skip limit w = (Returned found, w') ->
  StronglySorted (not_after (Collection.compare_docs (text_search f) sort)) found.
Proof.
  intros (_ & s' & Hserve & _)%await_returned.
  unfold Collection.serve_find in Hserve.
  set (sorted := Collection.sort_docs _ _) in Hserve.
  assert (StronglySorted (not_after (Collection.compare_docs (text_search f) sort)) sorted)
    as Hsorted by apply sort_docs_sorted.
  destruct (Collection.skipped skip sorted) as [rest|] eqn:Hskip; [|done].
  simpl in Hserve.
  destruct (Collection.limited limit rest) as [page|] eqn:Hlimit; [|done].
  injection Hserve as <- _.
  assert (StronglySorted (not_after (Collection.compare_docs (text_search f) sort)) rest)
    as Hrest.
  { unfold Collection.skipped in Hskip. destruct skip as [n|].
    - destruct (Js.to_nat n) as [k|]; [|done]. injection Hskip as <-.
      by apply StronglySorted_drop.
    - by injection Hskip as <-. }
  unfold Collection.limited in Hlimit. destruct limit as [n|].
  - destruct (Js.to_nat _) as [[|k]|]; [| |done]; injection Hlimit as <-;
      [done | by apply StronglySorted_take].
  - by injection Hlimit as <-.
Qed.

Lemma StronglySorted_lookup {B} (R : B -> B -> Prop) (l : list B) (i j : nat) (a b : B) :
  StronglySorted R l -> i < j -> l !! i = Some a -> l !! j = Some b -> R a b.
Proof.
  intros Hl. revert i j. induction Hl as [|x l Hl IH Hx]; intros i j Hij Hi Hj.
  - done.
  - destruct j as [|j]; [lia|]. destruct i as [|i]; simpl in *.
    + injection Hi as <-. eapply Forall_forall in Hx; [done|].
      by eapply list_elem_of_lookup_2.
    + eapply IH; [|done..]. lia.
Qed.

(** Ordering by text score, then by one more key. *)
Lemma not_after_score_then_key (term : option string) (k : string * SortValue)
  (a b : GalleryImage) :
  not_after (Collection.compare_docs term [("score", MetaTextScore); k]) a b ->
  (Collection.relevance term b <= Collection.relevance term a)%Q
  /\ (Collection.relevance term a == Collection.relevance term b ->
      not_after (Collection.compare_key term k) a b).
Proof.
  unfold not_after. simpl. unfold Collection.compare_key at 1. simpl.
  destruct (Qcompare _ _) eqn:Ecmp; intros Hab.
  - split.
    + apply Qle_alt. by rewrite Ecmp.
    + intros _. by destruct (Collection.compare_key term k a b).
  - split.
    + apply Qle_alt. by rewrite Ecmp.
    + intros Heq. symmetry in Heq. apply Qeq_alt in Heq. congruence.
  - done.
Qed.

(** C5, as the code has it.  The results of a search sorted by one of
    [createdAt], [updatedAt] and [title] come by decreasing text-search
    relevance first; the requested field, in the requested direction, orders
    only the results of equal relevance. *)
Theorem search_orders_by_relevance_then_field
  (searchTerm : string) (query : PaginationQuery.t) (w w' : World)
  (r : PaginatedResponse GalleryImage) (found : list GalleryImage) :
  let sortBy := default "createdAt" (PaginationQuery.sortBy query) in
  let sortOrder := default "desc" (PaginationQuery.sortOrder query) in
  sortBy ∈ ["createdAt"; "updatedAt"; "title"] ->
  GalleryService.searchImages searchTerm query w = (Returned r, w') ->
  data (response r) = Some found ->
  forall i j a b,
    i < j -> found !! i = Some a -> found !! j = Some b ->
    (Collection.relevance (Some searchTerm) b <= Collection.relevance (Some searchTerm) a)%Q
    /\ (Collection.relevance (Some searchTerm) a == Collection.relevance (Some searchTerm) b ->
        not_after
          (Collection.compare_key (Some searchTerm)
             (sortBy, GalleryService.direction sortOrder)) a b).
Proof.
  intros sortBy sortOrder Hfield Hrun Hdata i j a b Hij Hi Hj.
  apply try_catch_returned in Hrun.
  apply bind_returned in Hrun as ([] & w1 & Hcoll & Hrun).
  apply bind_returned in Hrun as (t & w2 & Hcount & Hrun).
  apply bind_returned in Hrun as (page & w3 & Hfind & Hrun).
  injection Hrun as <- _. simpl in Hdata. injection Hdata as ->.
  apply find_sorted in Hfind. fold sortBy sortOrder in Hfind.
  assert (Js.truthy (Some sortBy) = true
          /\ GalleryService.assign sortBy (GalleryService.direction sortOrder)
               [("score", MetaTextScore)]
             = [("score", MetaTextScore); (sortBy, GalleryService.direction sortOrder)])
    as [Htruthy Hassign].
  { clearbody sortBy. rewrite !elem_of_cons, elem_of_nil in Hfield.
    destruct Hfield as [->|[->|[->|[]]]]; done. }
  rewrite Htruthy, Hassign in Hfind. cbn [text_search GalleryService.build_filter] in Hfind.
  apply not_after_score_then_key.
  by eapply (StronglySorted_lookup _ found i j).
Qed.

End Sorting.

(** ** The properties at work on the fixture gallery *)

Section Fixtures.
#[local] Existing Instance Fixture.mongo.

Lemma calm_up : up (Fixture.world Fixture.calm).
Proof. intros c. reflexivity. Defined.

Lemma calm_quiet : quiet (Fixture.world Fixture.calm).
Proof. intros c s. reflexivity. Defined.

Lemma pagination_metadata_witness :
  exists r w',
    list_or_search None Fixture.second_page (Fixture.world Fixture.calm) = (Returned r, w')
    /\ exists (T : nat) (n : Z),
         totalItems (pagination r) = Js.of_nat T
         /\ (quiet (Fixture.world Fixture.calm) ->
             T = length (List.filter
                           (Collection.matches
                              (GalleryService.build_filter None
                                 (PaginationQuery.tags Fixture.second_page)
                                 (PaginationQuery.isPublic Fixture.second_page)))
                           (images (stores (Fixture.world Fixture.calm)))))
         /\ totalPages (pagination r) = Js.of_Z n
         /\ (2 * (n - 1) < Z.of_nat T <= 2 * n)%Z
         /\ hasNextPage (pagination r) = bool_decide (2 < n)%Z
         /\ hasPrevPage (pagination r) = bool_decide (1 < 2)%Z
         /\ currentPage (pagination r) = Js.of_Z 2
         /\ itemsPerPage (pagination r) = Js.of_Z 2.
Proof.
  assert (returned (list_or_search None Fixture.second_page (Fixture.world Fixture.calm))
          = true) as Hreturned by (vm_compute; reflexivity).
  destruct (list_or_search None Fixture.second_page (Fixture.world Fixture.calm))
    as [[r|e] w'] eqn:Hrun; [|discriminate Hreturned].
  exists r, w'. split; [reflexivity|].
  apply (pagination_metadata None Fixture.second_page 2 2
           (Fixture.world Fixture.calm) w' r);
    [reflexivity | reflexivity | lia | lia | exact Hrun].
Defined.

(** An identifier that is not an object id, and one that no record has. *)
Lemma unknown_identifiers_witness :
  (status_of (ImageRoute.GET "not-an-id" (Fixture.world Fixture.calm)) = Some 500%Z
   /\ status_of (ImageRoute.DELETE "not-an-id" (Fixture.world Fixture.calm)) = Some 500%Z)
  /\ fst (ImageRoute.GET "64b7f0c2a1d3e4f5a6b7c8ff" (Fixture.world Fixture.calm))
     = Returned (failure "Image not found" "No image found with the provided ID" 404).
Proof.
  split.
  - destruct (unknown_identifiers "not-an-id" (Fixture.world Fixture.calm)
                ltac:(discriminate) calm_up calm_quiet) as [Hinvalid _].
    destruct (Hinvalid eq_refl) as (_ & _ & Hget & Hdelete & _).
    exact (conj Hget Hdelete).
  - destruct (unknown_identifiers "64b7f0c2a1d3e4f5a6b7c8ff" (Fixture.world Fixture.calm)
                ltac:(discriminate) calm_up calm_quiet) as [_ Hmissing].
    destruct (Hmissing eq_refl eq_refl) as [_ Hget]. exact Hget.
Defined.

(** C3 as it is stated fails on the code: [GET /images/not-an-id] and
    [DELETE /images/not-an-id] are answered with 500. *)
Lemma invalid_id_is_not_answered_404 :
  @ObjectId_isValid Fixture.mongo "not-an-id" = false
  /\ status_of (ImageRoute.GET "not-an-id" (Fixture.world Fixture.calm)) = Some 500%Z
  /\ status_of (ImageRoute.GET "not-an-id" (Fixture.world Fixture.calm)) <> Some 404%Z
  /\ status_of (ImageRoute.DELETE "not-an-id" (Fixture.world Fixture.calm)) = Some 500%Z.
Proof. split_and!; [reflexivity | reflexivity | discriminate | reflexivity]. Qed.

(** The database refuses the insert: the upload is left behind. *)
Lemma create_keeps_upload_witness :
  exists w' pre doc,
    GalleryService.createImage
Fixture.dawn
      (File.content Fixture.png) (Fixture.world Fixture.no_inserts)
    = (Thrown (Error "Failed to create image: connection closed"), w')
    /\ calls w' = calls (Fixture.world Fixture.no_inserts) ++ pre
         ++ [UploadStream (File.content Fixture.png) None; InsertOne doc]
    /\ Forall (fun c => setup_call c = true) pre
    /\ "gallery/fresh" ∈ assets (stores w')
    /\ images (stores w') = images (stores (Fixture.world Fixture.no_inserts)).
Proof.
  apply (create_keeps_upload_when_insert_rejects _ _
           (Fixture.world Fixture.no_inserts) (Error "connection closed")).
  - intros [] Hc; (reflexivity || discriminate).
  - reflexivity.
  - intros doc. reflexivity.
  - intros c s. reflexivity.
Defined.

(** C5 as it is stated fails on the code: a search for "sunset" sorted by
    ascending title returns "sunset after sunset", the more relevant, before
    "beach sunset", although its title comes later. *)
Lemma search_by_title_is_not_in_title_order :
  page_data (GalleryService.searchImages "sunset" Fixture.by_title (Fixture.world Fixture.calm))
  = Some [Fixture.dusk; Fixture.sunset]
  /\ Collection.compare_field "title" Fixture.dusk Fixture.sunset = Gt
  /\ Collection.precedes (Some "sunset")
       [("title", Ascending); ("score", MetaTextScore)] Fixture.dusk Fixture.sunset
     = false.
Proof. split_and!; vm_compute; reflexivity. Qed.

Lemma search_orders_by_relevance_witness :
  (Collection.relevance (Some "sunset") Fixture.sunset
   <= Collection.relevance (Some "sunset") Fixture.dusk)%Q
  /\ (Collection.relevance (Some "sunset") Fixture.dusk
      == Collection.relevance (Some "sunset") Fixture.sunset ->
      not_after (Collection.compare_key (Some "sunset")
                   ("title", GalleryService.direction "asc"))
        Fixture.dusk Fixture.sunset).
Proof.
  assert (page_data (GalleryService.searchImages "sunset" Fixture.by_title
                       (Fixture.world Fixture.calm))
          = Some [Fixture.dusk; Fixture.sunset]) as Hdata by (vm_compute; reflexivity).
  destruct (GalleryService.searchImages "sunset" Fixture.by_title (Fixture.world Fixture.calm))
    as [[r|e] w'] eqn:Hrun; [|discriminate Hdata].
  apply (search_orders_by_relevance_then_field "sunset" Fixture.by_title
           (Fixture.world Fixture.calm) w' r [Fixture.dusk; Fixture.sunset]
           ltac:(apply list_elem_of_In; simpl; tauto) Hrun Hdata
           0 1 Fixture.dusk Fixture.sunset ltac:(lia) eq_refl eq_refl).
Defined.

(** A patch of tags only. *)
Lemma update_sets_only_the_patch_witness :
  exists w' updated before after,
    GalleryService.updateImage "64b7f0c2a1d3e4f5a6b7c8d1" Fixture.retag None
      (Fixture.world Fixture.calm) = (Returned (Some updated), w')
    /\ images (stores (Fixture.world Fixture.calm)) = before ++ Fixture.sunset :: after
    /\ images (stores w') = before ++ updated :: after
    /\ (None = None :> option Buffer ->
        assets (stores w') = assets (stores (Fixture.world Fixture.calm)))
    /\ updatedAt updated = 5000%Z
    /\ title updated = "beach sunset"
    /\ description updated = Some ""
    /\ tags updated = ["dusk"; "sea"]
    /\ isPublic updated = true
    /\ cloudinaryUrl updated = cloudinaryUrl Fixture.sunset
    /\ format updated = format Fixture.sunset
    /\ width updated = width Fixture.sunset
    /\ height updated = height Fixture.sunset
    /\ bytes updated = bytes Fixture.sunset
    /\ cloudinaryId updated = cloudinaryId Fixture.sunset
    /\ publicId updated = publicId Fixture.sunset
    /\ createdAt updated = createdAt Fixture.sunset
    /\ uploadedBy updated = uploadedBy Fixture.sunset
    /\ _id updated = _id Fixture.sunset.
Proof.
  apply (update_sets_only_the_patch "64b7f0c2a1d3e4f5a6b7c8d1" Fixture.retag None
           (Fixture.world Fixture.calm) Fixture.sunset eq_refl calm_up calm_quiet eq_refl).
Defined.

Lemma delete_destroys_asset_witness :
  exists w' pre (result : bool),
    GalleryService.deleteImage "64b7f0c2a1d3e4f5a6b7c8d1" (Fixture.world Fixture.calm)
    = (Returned result, w')
    /\ calls w' = calls (Fixture.world Fixture.calm) ++ pre
         ++ [FindOne "64b7f0c2a1d3e4f5a6b7c8d1";
             Destroy "gallery/64b7f0c2a1d3e4f5a6b7c8d1";
             DeleteOne "64b7f0c2a1d3e4f5a6b7c8d1"]
    /\ Forall (fun c => setup_call c = true) pre
    /\ (result = true <-> 3 = S (length (images (stores w'))))
    /\ (result = false -> images (stores w') = [Fixture.sunset; Fixture.dusk; Fixture.city])
    /\ (undisturbed (Fixture.world Fixture.calm) (DeleteOne "64b7f0c2a1d3e4f5a6b7c8d1") ->
        result = true /\ "gallery/64b7f0c2a1d3e4f5a6b7c8d1" ∉ assets (stores w')).
Proof.
  apply (delete_destroys_asset_then_record "64b7f0c2a1d3e4f5a6b7c8d1"
           (Fixture.world Fixture.calm) Fixture.sunset eq_refl calm_up).
  - intros c _ s. reflexivity.
  - reflexivity.
Defined.

(** The record is gone by the time the delete is served: the result is
    [false], which [DELETE /images/{id}] answers with 404. *)
Lemma delete_raced_returns_false :
  fst (GalleryService.deleteImage "64b7f0c2a1d3e4f5a6b7c8d1" (Fixture.world Fixture.racing))
  = Returned false
  /\ status_of (ImageRoute.DELETE "64b7f0c2a1d3e4f5a6b7c8d1" (Fixture.world Fixture.racing))
     = Some 404%Z.
Proof. split; reflexivity. Qed.

(** [GET /images?page=0] *)
Lemma images_route_rejects_page_0 :
  exists message error,
    ImagesRoute.GET [("page", "0")] (Fixture.world Fixture.calm)
    = (Returned (failure message error 400), Fixture.world Fixture.calm)
    /\ (Js.lt (Js.parseInt "0") (Js.of_Z 1) = true -> message = "Invalid page number").
Proof.
  apply (images_route_rejects_bad_paging [("page", "0")] (Fixture.world Fixture.calm)).
  left. reflexivity.
Defined.

(** C9 as it is stated fails on the code: [GET /images?page=abc&limit=0]
    has a page that is not a number and is answered with 400. *)
Lemma non_numeric_page_can_still_get_400 :
  non_numeric "abc" = true
  /\ Js.parseInt "abc" = Js.NaN
  /\ ImagesRoute.GET [("page", "abc"); ("limit", "0")] (Fixture.world Fixture.calm)
     = (Returned (failure "Invalid limit" "Limit must be between 1 and 100" 400),
        Fixture.world Fixture.calm).
Proof. split_and!; reflexivity. Qed.

(** [GET /images?page=abc] *)
Lemma images_route_lets_NaN_through_witness :
  (Js.parseInt "abc" = Js.NaN \/ Js.parseInt "20" = Js.NaN)
  /\ Js.lt (Js.parseInt "abc") (Js.of_Z 1) = false
  /\ Js.lt (Js.parseInt "20") (Js.of_Z 1) || Js.gt (Js.parseInt "20") (Js.of_Z 100) = false
  /\ ImagesRoute.GET [("page", "abc")] (Fixture.world Fixture.calm)
     = delegated [("page", "abc")] (Fixture.world Fixture.calm)
  /\ (status_of (ImagesRoute.GET [("page", "abc")] (Fixture.world Fixture.calm)) = Some 200%Z
      \/ status_of (ImagesRoute.GET [("page", "abc")] (Fixture.world Fixture.calm))
         = Some 500%Z).
Proof.
  apply (images_route_lets_NaN_through [("page", "abc")] (Fixture.world Fixture.calm) "abc").
  - discriminate.
  - reflexivity.
  - left. reflexivity.
  - left. reflexivity.
  - right. split; reflexivity.
Defined.

(** An upload with three spaces for a title. *)
Lemma upload_stores_blank_title_witness :
  (forall t, negb (Js.truthy t) = true <-> t = None \/ t = Some "")
  /\ exists w' created,
       UploadRoute.POST Fixture.blank_title (Fixture.world Fixture.calm)
       = (Returned {| body := Envelope {| success := true;
                                          message := "Image uploaded successfully";
                                          data := Some (ImageData created);
                                          error := None |};
                      status := 201 |}, w')
       /\ title created = ""
       /\ images (stores w') = images (stores (Fixture.world Fixture.calm)) ++ [created].
Proof.
  apply (upload_stores_blank_title_as_empty Fixture.blank_title Fixture.png "   "
           (Fixture.world Fixture.calm) "64b7f0c2a1d3e4f5a6b7c8d4");
    try reflexivity.
  - discriminate.
  - exact calm_up.
  - exact calm_quiet.
Defined.

End Fixtures.

(** * More properties *)

(** ** Creating, reading back and deleting *)

Section RoundTrips.
Context `{Mongo}.

Lemma stores_eq (a b : Stores) : images a = images b -> assets a = assets b -> a = b.
Proof. destruct a, b; simpl; by intros -> ->. Qed.

Lemma find_app_fresh (id : ObjectId) (docs : list GalleryImage) (d : GalleryImage) :
  existsb (Collection.has_id id) docs = false ->
  List.find (Collection.has_id id) (docs ++ [Collection.with_id id d])
  = Some (Collection.with_id id d).
Proof.
  induction docs as [|x docs IH]; simpl.
  - intros _. unfold Collection.has_id. simpl. by rewrite bool_decide_eq_true_2.
  - intros [Hx Hdocs]%orb_false_iff. rewrite Hx. by apply IH.
Qed.

Lemma find_cloudinaryId_app_fresh (cid : string) (docs : list GalleryImage) (d : GalleryImage) :
  existsb (fun x => String.eqb (cloudinaryId x) cid) docs = false ->
  cloudinaryId d = cid ->
  List.find (fun x => String.eqb (cloudinaryId x) cid) (docs ++ [d]) = Some d.
Proof.
  intros Hdocs Hd. induction docs as [|x docs IH]; simpl.
  - by rewrite Hd, String.eqb_refl.
  - simpl in Hdocs. apply orb_false_iff in Hdocs as [Hx Hdocs]. rewrite Hx. by apply IH.
Qed.

Lemma delete_first_app_fresh (id : ObjectId) (docs : list GalleryImage) (d : GalleryImage) :
  existsb (Collection.has_id id) docs = false ->
  Collection.delete_first id (docs ++ [Collection.with_id id d]) = (1%Z, docs).
Proof.
  induction docs as [|x docs IH]; simpl.
  - intros _. unfold Collection.has_id. simpl. by rewrite bool_decide_eq_true_2.
  - intros [Hx Hdocs]%orb_false_iff. rewrite Hx. by rewrite IH.
Qed.

Lemma filter_out_appended (x : string) (l : list string) :
  x ∉ l ->
  List.filter (fun a => negb (String.eqb a x)) (l ++ [x]) = l.
Proof.
  induction l as [|y l IH]; simpl; intros Hx.
  - by rewrite String.eqb_refl.
  - apply not_elem_of_cons in Hx as [Hxy Hx].
    assert (String.eqb y x = false) as -> by (apply String.eqb_neq; congruence).
    simpl. by rewrite IH.
Qed.

(** With both stores serving, [createImage] uploads, then inserts, and
    returns the inserted document with the id it was acknowledged with. *)
Lemma createImage_served (imageData : CreateImageRequest.t) (file : Buffer)
  (w : World) (id : ObjectId) :
  up w ->
  quiet w ->
  insertedId (env w) = Some id ->
  fresh id (CloudinaryUploadResult.public_id (uploaded (env w))) (stores w) ->
  let doc := new_image imageData (uploaded (env w)) (now w) in
  exists pre,
    Forall (fun c => setup_call c = true) pre
    /\ GalleryService.createImage imageData file w
       = (Returned (Collection.with_id id doc),
          {| stores :=
               {| images := images (stores w) ++ [Collection.with_id id doc];
                  assets := assets (stores w)
                            ++ [CloudinaryUploadResult.public_id (uploaded (env w))] |};
             collection := true; now := now w;
             calls := calls w ++ pre ++ [UploadStream file None; InsertOne doc];
             env := env w |}).
Proof.
  intros Hup Hq Hack (Hid & Hcid & Hasset) doc.
  destruct (getCollection_returns w (up_setup w Hup) (quiet_setup w Hq))
    as (pre & Hpre & Hcoll).
  exists pre. split; [done|].
  assert (snd (Cloudinary.serve_upload (uploaded (env w)) (stores w))
          = {| images := images (stores w);
               assets := assets (stores w)
                         ++ [CloudinaryUploadResult.public_id (uploaded (env w))] |})
    as Hstored.
  { unfold Cloudinary.serve_upload. simpl. by rewrite bool_decide_eq_false_2. }
  unfold GalleryService.createImage. apply try_catch_run.
  erewrite bind_run by exact Hcoll.
  erewrite bind_run by (apply (uploadImage_served file None); [apply Hup | apply Hq]).
  cbn [stores collection now calls env]. rewrite Hstored.
  erewrite bind_run by apply new_Date_run.
  erewrite bind_run by apply new_Date_run.
  cbn [stores collection now calls env]. fold (new_image imageData (uploaded (env w)) (now w)).
  fold doc.
  erewrite bind_run.
  2:{ apply (insertOne_served doc id); cbn [stores collection now calls env images];
        [exact Hack | exact Hid | exact Hcid | apply Hup | apply Hq]. }
  unfold ret, Collection.set_images.
  cbn [stores collection now calls env images assets Js.truthy].
  by rewrite <- !app_assoc.
Qed.

(** X1. A create with both stores serving and an unused id and asset id
    returns the new record: the request's title, its description or the empty
    string, its tags or none, its visibility or public, the upload's asset id,
    url and dimensions, and the current time as both dates.  The record is
    appended to the collection, the asset is in the media store, and the
    upload was asked for before the insert. *)
Theorem create_returns_the_stored_record (imageData : CreateImageRequest.t) (file : Buffer)
  (w : World) (id : ObjectId) :
  up w ->
  quiet w ->
  insertedId (env w) = Some id ->
  fresh id (CloudinaryUploadResult.public_id (uploaded (env w))) (stores w) ->
  exists created w' pre doc,
    GalleryService.createImage imageData file w = (Returned created, w')
    /\ images (stores w') = images (stores w) ++ [created]
    /\ assets (stores w')
       = assets (stores w) ++ [CloudinaryUploadResult.public_id (uploaded (env w))]
    /\ calls w' = calls w ++ pre ++ [UploadStream file None; InsertOne doc]
    /\ Forall (fun c => setup_call c = true) pre
    /\ _id created = Some id
    /\ title created = CreateImageRequest.title imageData
    /\ description created
       = Some (default "" (CreateImageRequest.description imageData))
    /\ tags created = default [] (CreateImageRequest.tags imageData)
    /\ isPublic created = default true (CreateImageRequest.isPublic imageData)
    /\ cloudinaryId created = CloudinaryUploadResult.public_id (uploaded (env w))
    /\ publicId created = cloudinaryId created
    /\ cloudinaryUrl created = CloudinaryUploadResult.secure_url (uploaded (env w))
    /\ bytes created = CloudinaryUploadResult.bytes (uploaded (env w))
    /\ createdAt created = now w
    /\ updatedAt created = now w.
Proof.
  intros Hup Hq Hack Hfresh.
  destruct (createImage_served imageData file w id Hup Hq Hack Hfresh)
    as (pre & Hpre & Hrun).
  eexists _, _, pre, _. split; [exact Hrun|].
  cbn [stores images assets calls Collection.with_id new_image _id title description tags
         isPublic cloudinaryId publicId cloudinaryUrl bytes createdAt updatedAt].
  split_and!; try done.
  destruct (CreateImageRequest.description imageData) as [d|]; [|done].
  simpl. unfold Js.or_else. by destruct (String.eqb_spec d "") as [->|].
Qed.

Lemma getImageById_run (id : string) (w : World) :
  ObjectId_isValid id = true ->
  up w ->
  quiet w ->
  fst (GalleryService.getImageById id w)
  = Returned (List.find (Collection.has_id (ObjectId_new id)) (images (stores w))).
Proof.
  intros Hid Hup Hq.
  destruct (getImageById_served id w Hid Hup Hq) as (w' & -> & _). done.
Qed.

Lemma getImageByCloudinaryId_run (cid : string) (w : World) :
  up w ->
  quiet w ->
  fst (GalleryService.getImageByCloudinaryId cid w)
  = Returned (List.find (fun d => String.eqb (cloudinaryId d) cid) (images (stores w))).
Proof.
  intros Hup Hq.
  destruct (getCollection_returns w (up_setup w Hup) (quiet_setup w Hq))
    as (pre & _ & Hcoll).
  unfold GalleryService.getImageByCloudinaryId.
  erewrite try_catch_run; [reflexivity|].
  erewrite bind_run by exact Hcoll.
  unfold Collection.findOneByCloudinaryId.
  apply await_served; [apply Hup | apply Hq | reflexivity].
Qed.

Lemma up_after (w w' : World) : env w' = env w -> up w -> up w'.
Proof. unfold up. by intros ->. Qed.

(** X2. A record that was just created is read back, whole, by its id and
    by its asset id. *)
Theorem created_record_is_read_back (imageData : CreateImageRequest.t) (file : Buffer)
  (w : World) (id : string) :
  ObjectId_isValid id = true ->
  up w ->
  quiet w ->
  insertedId (env w) = Some (ObjectId_new id) ->
  fresh (ObjectId_new id) (CloudinaryUploadResult.public_id (uploaded (env w))) (stores w) ->
  exists created w',
    GalleryService.createImage imageData file w = (Returned created, w')
    /\ fst (GalleryService.getImageById id w') = Returned (Some created)
    /\ fst (GalleryService.getImageByCloudinaryId (cloudinaryId created) w')
       = Returned (Some created).
Proof.
  intros Hid Hup Hq Hack Hfresh.
  destruct (createImage_served imageData file w _ Hup Hq Hack Hfresh)
    as (pre & Hpre & Hrun).
  destruct Hfresh as (Hfid & Hfcid & _).
  eexists _, _. split; [exact Hrun|].
  split.
  - rewrite getImageById_run by (first [done | by eapply up_after | by eapply quiet_env]).
    cbn [stores images]. by rewrite find_app_fresh.
  - rewrite getImageByCloudinaryId_run by (first [by eapply up_after | by eapply quiet_env]).
    cbn [stores images]. by rewrite (find_cloudinaryId_app_fresh _ _ _ Hfcid).
Qed.

(** Deleting an existing record when nobody interferes. *)
Lemma deleteImage_run (id : string) (w : World) (existing : GalleryImage) :
  ObjectId_isValid id = true ->
  up w ->
  quiet w ->
  List.find (Collection.has_id (ObjectId_new id)) (images (stores w)) = Some existing ->
  exists w',
    GalleryService.deleteImage id w
    = (Returned (fst (Collection.delete_first (ObjectId_new id) (images (stores w))) =? 1)%Z,
       w')
    /\ images (stores w') = snd (Collection.delete_first (ObjectId_new id) (images (stores w)))
    /\ assets (stores w')
       = List.filter (fun a => negb (String.eqb a (cloudinaryId existing))) (assets (stores w)).
Proof.
  intros Hid Hup Hq Hfind.
  destruct (getCollection_returns w (up_setup w Hup) (quiet_setup w Hq))
    as (pre & _ & Hcoll).
  eexists. split.
  - unfold GalleryService.deleteImage. apply try_catch_run.
    erewrite bind_run by exact Hcoll. rewrite Hid. cbn [negb].
    erewrite bind_run by (apply findOne_served; [apply Hup | apply Hq]).
    cbn [stores collection now calls env]. rewrite Hfind.
    erewrite bind_run by (apply deleteImage_served; [apply Hup | apply Hq]).
    cbn [stores collection now calls env].
    erewrite bind_run by (apply deleteOne_served; apply Hup).
    cbn [stores collection now calls env]. rewrite Hq. reflexivity.
  - split; reflexivity.
Qed.

(** X3. Creating a record and then deleting it by the id it was given
    leaves both stores as they were before the create. *)
Theorem create_then_delete_restores_the_stores (imageData : CreateImageRequest.t)
  (file : Buffer) (w : World) (id : string) :
  ObjectId_isValid id = true ->
  up w ->
  quiet w ->
  insertedId (env w) = Some (ObjectId_new id) ->
  fresh (ObjectId_new id) (CloudinaryUploadResult.public_id (uploaded (env w))) (stores w) ->
  exists created w1 w2,
    GalleryService.createImage imageData file w = (Returned created, w1)
    /\ GalleryService.deleteImage id w1 = (Returned true, w2)
    /\ stores w2 = stores w.
Proof.
  intros Hid Hup Hq Hack Hfresh.
  destruct (createImage_served imageData file w _ Hup Hq Hack Hfresh)
    as (pre & Hpre & Hrun).
  destruct Hfresh as (Hfid & Hfcid & Hasset).
  set (w1 := {| stores := _ |}) in Hrun.
  assert (up w1 /\ quiet w1) as [Hup1 Hq1] by (split; [exact Hup | exact Hq]).
  destruct (deleteImage_run id w1 _ Hid Hup1 Hq1
              (find_app_fresh _ _ _ Hfid)) as (w2 & Hdel & Himages & Hassets).
  cbn [stores images assets w1 Collection.with_id cloudinaryId new_image] in Himages, Hassets, Hdel.
  rewrite delete_first_app_fresh in Hdel, Himages by done.
  rewrite filter_out_appended in Hassets by done.
  eexists _, w1, w2. split_and!; [exact Hrun | exact Hdel | by apply stores_eq].
Qed.

End RoundTrips.

(** ** Listing, searching and reconciling on the stores *)

Section Listings.
Context `{Mongo}.




Lemma elem_of_insert_sorted (le : GalleryImage -> GalleryImage -> bool)
  (d x : GalleryImage) (l : list GalleryImage) :
  x ∈ Collection.insert_sorted le d l <-> x = d \/ x ∈ l.
Proof.
  induction l as [|y l IH]; simpl.
  - rewrite list_elem_of_singleton, elem_of_nil. tauto.
  - destruct (le d y).
    + by rewrite elem_of_cons.
    + rewrite !elem_of_cons, IH. tauto.
Qed.

Lemma elem_of_sort_docs (le : GalleryImage -> GalleryImage -> bool)
  (x : GalleryImage) (docs : list GalleryImage) :
  x ∈ Collection.sort_docs le docs <-> x ∈ docs.
Proof.
  unfold Collection.sort_docs. induction docs as [|d docs IH]; simpl; [done|].
  by rewrite elem_of_insert_sorted, IH, elem_of_cons.
Qed.



Lemma elem_of_candidates (f : Filter) (sort : SortDoc) (s : Stores) (d : GalleryImage) :
  d ∈ candidates f sort s <-> d ∈ images s /\ Collection.matches f d = true.
Proof.
  unfold candidates. rewrite elem_of_sort_docs, !list_elem_of_In, filter_In. done.
Qed.

(** A cursor hands out some of the candidates. *)
Lemma find_returned (f : Filter) (sort : SortDoc) (skip limit : option Js.number)
  (w w' : World) (found : list GalleryImage) :
  Collection.find f sort skip limit w = (Returned found, w') ->
  exists s, forall d, d ∈ found -> d ∈ candidates f sort s.
Proof.
  intros (_ & s' & Hserve & _)%await_returned.
  eexists. intros d Hd. unfold Collection.serve_find in Hserve.
  fold (candidates f sort (meanwhile (env w) (Find f sort skip limit) (stores w))) in Hserve.
  set (sorted := candidates _ _ _) in *.
  destruct (Collection.skipped skip sorted) as [rest|] eqn:Hskip; [|done].
  simpl in Hserve.
  destruct (Collection.limited limit rest) as [page|] eqn:Hlimit; [|done].
  injection Hserve as <- _.
  assert (d ∈ rest) as Hrest.
  { unfold Collection.limited in Hlimit. destruct limit as [n|].
    - destruct (Js.to_nat _) as [[|k]|]; [| |done]; injection Hlimit as <-;
        [done | by eapply subseteq_take].
    - by injection Hlimit as <-. }
  unfold Collection.skipped in Hskip. destruct skip as [n|].
  - destruct (Js.to_nat n) as [k|]; [|done]. injection Hskip as <-.
    by eapply subseteq_drop.
  - by injection Hskip as <-.
Qed.


Lemma countDocuments_served (f : Filter) (w : World) :
  up w ->
  quiet w ->
  Collection.countDocuments f w
  = (Returned (Js.of_nat (length (List.filter (Collection.matches f) (images (stores w))))),
     {| stores := stores w; collection := collection w; now := now w;
        calls := calls w ++ [CountDocuments f]; env := env w |}).
Proof.
  intros Hup Hq. unfold Collection.countDocuments.
  apply await_served; [apply Hup | apply Hq | reflexivity].
Qed.



(** X5. No listing and no search returns a document that its filter does
    not match: with a visibility asked for, the documents have it; with tags
    asked for, each document has one of them (as trimmed pieces of the comma
    list); and in a search each document has a positive relevance. *)
Theorem listed_documents_match_the_filter (searchTerm : option string)
  (query : PaginationQuery.t) (w w' : World) (r : PaginatedResponse GalleryImage)
  (found : list GalleryImage) (d : GalleryImage) :
  list_or_search searchTerm query w = (Returned r, w') ->
  data (response r) = Some found ->
  d ∈ found ->
  (forall b, PaginationQuery.isPublic query = Some b -> isPublic d = b)
  /\ (Js.truthy (PaginationQuery.tags query) = true ->
      exists t, t ∈ tags d
                /\ t ∈ Js.trim <$> Js.split "," (default "" (PaginationQuery.tags query)))
  /\ (forall term, searchTerm = Some term ->
        (0 < Collection.relevance (Some term) d)%Q).
Proof.
  intros Hrun Hdata Hd.
  assert (exists s sort,
    d ∈ candidates (GalleryService.build_filter searchTerm (PaginationQuery.tags query)
                      (PaginationQuery.isPublic query)) sort s) as (s & sort & Hcand).
  { destruct searchTerm as [term|]; simpl in Hrun;
      apply try_catch_returned in Hrun;
      apply bind_returned in Hrun as ([] & w1 & _ & Hrun);
      apply bind_returned in Hrun as (t & w2 & _ & Hrun);
      apply bind_returned in Hrun as (page & w3 & Hfind & Hrun);
      injection Hrun as <- _; simpl in Hdata; injection Hdata as ->;
      apply find_returned in Hfind as (s & Hs); eauto. }
  apply elem_of_candidates in Hcand as [_ Hmatch].
  unfold Collection.matches, GalleryService.build_filter in Hmatch.
  cbn [text_search tags_in isPublic_is] in Hmatch.
  apply andb_true_iff in Hmatch as [[Htext Htags]%andb_true_iff Hpublic].
  split_and!.
  - intros b Hb. rewrite Hb in Hpublic. by apply Bool.eqb_prop.
  - intros Htruthy. rewrite Htruthy in Htags.
    apply existsb_exists in Htags as (t & Ht & Hin).
    exists t. split; [by apply bool_decide_eq_true in Hin | by apply list_elem_of_In].
  - intros term ->. simpl in Htext. unfold Js.Qltb in Htext.
    apply negb_true_iff in Htext. apply Qnot_le_lt. intros Hle.
    apply Qle_bool_iff in Hle. simpl in Hle. congruence.
Qed.

End Listings.

(** ** Reconciling, tags and statistics *)

Section Reconciling.
Context `{Mongo}.

Lemma precedes_nothing (a b : GalleryImage) : Collection.precedes None [] a b = true.
Proof. reflexivity. Qed.

Lemma sort_docs_unordered (docs : list GalleryImage) :
  Collection.sort_docs (Collection.precedes None []) docs = docs.
Proof.
  unfold Collection.sort_docs. induction docs as [|d docs IH]; simpl; [done|].
  rewrite IH. by destruct docs.
Qed.

Lemma filter_everything (docs : list GalleryImage) :
  List.filter (Collection.matches GalleryQueries.everything) docs = docs.
Proof. induction docs as [|d docs IH]; simpl; [done|]. by rewrite IH. Qed.

Lemma candidates_everything (s : Stores) :
  candidates GalleryQueries.everything [] s = images s.
Proof.
  unfold candidates. cbn [text_search GalleryQueries.everything].
  by rewrite sort_docs_unordered, filter_everything.
Qed.

(** A cursor without a skip and a limit returns all candidates. *)
Lemma find_all_served (f : Filter) (sort : SortDoc) (w : World) :
  up w ->
  quiet w ->
  Collection.find f sort None None w
  = (Returned (candidates f sort (stores w)),
     {| stores := stores w; collection := collection w; now := now w;
        calls := calls w ++ [Find f sort None None]; env := env w |}).
Proof.
  intros Hup Hq. unfold Collection.find.
  apply await_served; [apply Hup | apply Hq | reflexivity].
Qed.

Lemma listImages_served (w : World) :
  up w ->
  quiet w ->
  Cloudinary.listImages (Some (Js.of_Z 500)) w
  = (Returned (listed (stores w)),
     {| stores := stores w; collection := collection w; now := now w;
        calls := calls w ++ [Resources "gallery" (Js.of_Z 500)]; env := env w |}).
Proof.
  intros Hup Hq. unfold Cloudinary.listImages, Cloudinary.logged.
  apply try_catch_run. apply await_served; [apply Hup | apply Hq | reflexivity].
Qed.

Lemma syncWithCloudinary_served (w : World) :
  up w ->
  quiet w ->
  exists w',
    GalleryService.syncWithCloudinary w
    = (Returned (GalleryService.compare_listings (images (stores w)) (listed (stores w))), w')
    /\ stores w' = stores w.
Proof.
  intros Hup Hq.
  destruct (getCollection_returns w (up_setup w Hup) (quiet_setup w Hq))
    as (pre & _ & Hcoll).
  eexists. split.
  - unfold GalleryService.syncWithCloudinary. apply try_catch_run.
    erewrite bind_run by exact Hcoll.
    erewrite bind_run by (apply find_all_served; [apply Hup | apply Hq]).
    cbn [stores collection now calls env].
    erewrite bind_run by (apply listImages_served; [apply Hup | apply Hq]).
    cbn [stores collection now calls env].
    fold GalleryQueries.everything. rewrite candidates_everything. reflexivity.
  - reflexivity.
Qed.

Lemma length_discrepancies (docs : list GalleryImage) (resources : list string) :
  length (discrepancies (GalleryService.compare_listings docs resources))
  = size (list_to_set (cloudinaryId <$> docs) ∖ list_to_set resources : gset string)
    + size (list_to_set resources ∖ list_to_set (cloudinaryId <$> docs) : gset string).
Proof.
  rewrite discrepancies_compare_listings, length_app, !length_fmap, !length_only_in. done.
Qed.

Lemma inSync_length (docs : list GalleryImage) (resources : list string) :
  inSync (GalleryService.compare_listings docs resources)
  = (length (discrepancies (GalleryService.compare_listings docs resources)) =? 0)%nat.
Proof. reflexivity. Qed.

(** Every run of [syncWithCloudinary] that returns has compared the
    records of the collection as its [find] found it with the assets of the
    media store as the listing found it. *)
Lemma syncWithCloudinary_returned (w w' : World) (status : SyncStatus) :
  GalleryService.syncWithCloudinary w = (Returned status, w') ->
  exists found listing : Stores,
    status = GalleryService.compare_listings (images found) (listed listing)
    /\ (quiet w -> found = stores w /\ listing = stores w).
Proof.
  intros Hrun. unfold GalleryService.syncWithCloudinary in Hrun.
  apply try_catch_returned in Hrun.
  apply bind_returned in Hrun as ([] & w1 & Hcoll & Hrun).
  apply bind_returned in Hrun as (mongoImages & w2 & Hfind & Hrun).
  apply bind_returned in Hrun as (resources & w3 & Hlist & Hrun).
  injection Hrun as <- _.
  apply leaves_stores_getCollection in Hcoll as (Henv1 & _ & Hstores1).
  apply await_returned in Hfind as (_ & s1 & Hfind & ->).
  unfold Collection.serve_find in Hfind. simpl in Hfind.
  rewrite sort_docs_unordered in Hfind.
  fold GalleryQueries.everything in Hfind. rewrite filter_everything in Hfind.
  injection Hfind as <- <-.
  unfold Cloudinary.listImages, Cloudinary.logged in Hlist.
  apply (try_catch_returned _ (fun error => error)) in Hlist.
  apply await_returned in Hlist as (_ & s2 & Hlist & _).
  injection Hlist as <- _.
  eexists _, _. split; [reflexivity|].
  intros Hq. pose proof (quiet_env w w1 Henv1 Hq) as Hq1.
  cbn [stores env with_stores with_call].
  rewrite !Hq1. split; by apply Hstores1.
Qed.

(** C1. [syncWithCloudinary] returns when its calls are served, and in
    every run that returns it reports one discrepancy for each element of the
    symmetric difference of the set of asset ids of the records it read and the
    set of asset ids the bounded listing returned (the records and the first
    500 assets under the prefix of the stores, when no other request is at
    work): the message "exists in MongoDB but not in Cloudinary" for each id
    the records alone have, the message "exists in Cloudinary but not in
    MongoDB" for each id the listing alone has, no message twice and no other
    message.  Their number is |recordSet \ assetSet| + |assetSet \ recordSet|,
    and [inSync] holds exactly when there is none. *)
Theorem sync_reports_symmetric_difference (w : World) :
  (up w -> quiet w ->
   exists status w', GalleryService.syncWithCloudinary w = (Returned status, w'))
  /\ forall status w',
       GalleryService.syncWithCloudinary w = (Returned status, w') ->
       exists found listing : Stores,
         (quiet w -> found = stores w /\ listing = stores w)
         /\ let recordSet : gset string := list_to_set (cloudinaryId <$> images found) in
            let assetSet : gset string := list_to_set (listed listing) in
            length (discrepancies status)
              = size (recordSet ∖ assetSet) + size (assetSet ∖ recordSet)
            /\ NoDup (discrepancies status)
            /\ (forall d, d ∈ discrepancies status <->
                  (exists id, id ∈ recordSet ∖ assetSet
                              /\ d = GalleryService.missing_in_cloudinary id)
                  \/ (exists id, id ∈ assetSet ∖ recordSet
                                 /\ d = GalleryService.missing_in_mongo id))
            /\ (inSync status = true <-> discrepancies status = []).
Proof.
  split.
  - intros Hup Hq. destruct (syncWithCloudinary_served w Hup Hq) as (w' & Hrun & _).
    eauto.
  - intros status w' Hrun.
    apply syncWithCloudinary_returned in Hrun as (found & listing & -> & Hstores).
    exists found, listing. split; [exact Hstores|].
    apply compare_listings_symmetric_difference.
Qed.

(** X6. With the stores serving, [syncWithCloudinary] compares the asset
    ids of all records with the first 500 assets under the prefix "gallery":
    it returns without changing the stores, counts the records and the listed
    assets, and reports [inSync] exactly when the set of the records' asset
    ids is the set of the listed ids. *)
Theorem sync_compares_records_with_listed_assets (w : World) :
  up w ->
  quiet w ->
  exists status w',
    GalleryService.syncWithCloudinary w = (Returned status, w')
    /\ stores w' = stores w
    /\ mongoCount status = Js.of_nat (length (images (stores w)))
    /\ cloudinaryCount status
       = Js.of_nat (Nat.min 500 (length (List.filter (fun a => Js.startsWith a "gallery")
                                           (assets (stores w)))))
    /\ (inSync status = true
        <-> list_to_set (cloudinaryId <$> images (stores w))
            =@{gset string} list_to_set (listed (stores w))).
Proof.
  intros Hup Hq. destruct (syncWithCloudinary_served w Hup Hq) as (w' & Hrun & Hstores).
  eexists _, w'. split_and!; [exact Hrun | exact Hstores | reflexivity | |].
  - cbn [GalleryService.compare_listings cloudinaryCount]. unfold listed.
    by rewrite length_take.
  - rewrite inSync_length, length_discrepancies, Nat.eqb_eq.
    set (R := list_to_set (cloudinaryId <$> images (stores w)) : gset string).
    set (A := list_to_set (listed (stores w)) : gset string).
    split.
    + intros Hsize.
      assert (R ∖ A = ∅) as HRA by (apply leibniz_equiv, size_empty_iff; lia).
      assert (A ∖ R = ∅) as HAR by (apply leibniz_equiv, size_empty_iff; lia).
      apply set_eq. intros x. split; intros Hx.
      * destruct (decide (x ∈ A)) as [|Hn]; [done|].
        assert (x ∈ R ∖ A) as Hin by (by apply elem_of_difference).
        rewrite HRA in Hin. by apply elem_of_empty in Hin.
      * destruct (decide (x ∈ R)) as [|Hn]; [done|].
        assert (x ∈ A ∖ R) as Hin by (by apply elem_of_difference).
        rewrite HAR in Hin. by apply elem_of_empty in Hin.
    + intros ->. by rewrite difference_diag_L, size_empty.
Qed.

(** X7. A record whose asset is in the media store but not among the
    first 500 assets that the listing returns is reported as "exists in
    MongoDB but not in Cloudinary", and the stores are reported out of
    sync. *)
Theorem sync_reports_assets_beyond_the_listing (w : World) (d : GalleryImage) :
  up w ->
  quiet w ->
  d ∈ images (stores w) ->
  cloudinaryId d ∈ assets (stores w) ->
  cloudinaryId d ∉ listed (stores w) ->
  exists status w',
    GalleryService.syncWithCloudinary w = (Returned status, w')
    /\ GalleryService.missing_in_cloudinary (cloudinaryId d) ∈ discrepancies status
    /\ inSync status = false.
Proof.
  intros Hup Hq Hd _ Hlisted.
  destruct (syncWithCloudinary_served w Hup Hq) as (w' & Hrun & _).
  assert (GalleryService.missing_in_cloudinary (cloudinaryId d)
          ∈ discrepancies (GalleryService.compare_listings (images (stores w))
                             (listed (stores w)))) as Hin.
  { rewrite discrepancies_compare_listings. apply elem_of_app. left.
    apply list_elem_of_fmap_2. apply elem_of_only_in.
    rewrite !elem_of_StringSet_new. split; [|done]. by apply list_elem_of_fmap_2. }
  eexists _, w'. split_and!; [exact Hrun | exact Hin |].
  rewrite inSync_length. apply Nat.eqb_neq. intros Hlen.
  apply nil_length_inv in Hlen. rewrite Hlen in Hin. by apply elem_of_nil in Hin.
Qed.

End Reconciling.

Section TagsAndStatistics.
Context `{Mongo} `{Queries}.

Lemma ask_served {A} (q : Query) (serve : Stores -> Result A * Stores)
  (w : World) (r : Result A) (s' : Stores) :
  refused q = None ->
  serve (stores w) = (r, s') ->
  GalleryQueries.ask q serve w
  = (r, {| stores := s'; collection := collection w; now := now w;
           calls := calls w; env := env w |}).
Proof. intros Hq Hs. unfold GalleryQueries.ask. by rewrite Hq, Hs. Qed.


Lemma string_leb_trans (a b c : string) :
  String.leb a b = true -> String.leb b c = true -> String.leb a c = true.
Proof.
  unfold String.leb.
  destruct (String.compare a b) eqn:Hab; [| |done]; intros _.
  - by apply String.compare_eq_iff in Hab as ->.
  - destruct (String.compare b c) eqn:Hbc; [| |done]; intros _.
    + by apply String.compare_eq_iff in Hbc as <-; rewrite Hab.
    + by rewrite (string_compare_lt_trans a b c).
Qed.

Lemma elem_of_insert (x y : string) (l : list string) :
  y ∈ JsMore.insert x l <-> y = x \/ y ∈ l.
Proof.
  induction l as [|z l IH]; simpl.
  - rewrite list_elem_of_singleton, elem_of_nil. tauto.
  - destruct (String.leb x z).
    + by rewrite elem_of_cons.
    + rewrite !elem_of_cons, IH. tauto.
Qed.

Lemma insert_sorted_ascending (x : string) (l : list string) :
  StronglySorted (fun a b => String.leb a b = true) l ->
  StronglySorted (fun a b => String.leb a b = true) (JsMore.insert x l).
Proof.
  induction 1 as [|z l Hl IH Hz]; simpl.
  - repeat constructor.
  - destruct (String.leb x z) eqn:Hxz.
    + constructor; [by constructor|]. constructor; [done|].
      eapply Forall_impl; [exact Hz|]. intros y Hy. by eapply string_leb_trans.
    + constructor; [done|]. apply Forall_forall. intros y [->|Hy]%elem_of_insert.
      * by destruct (String.leb_total x z) as [Hle|Hle]; [congruence|].
      * by eapply Forall_forall in Hz.
Qed.

Lemma sort_ascending (l : list string) :
  StronglySorted (fun a b => String.leb a b = true) (JsMore.sort l).
Proof.
  unfold JsMore.sort. induction l as [|x l IH]; simpl; [constructor|].
  by apply insert_sorted_ascending.
Qed.

Lemma elem_of_sort (y : string) (l : list string) : y ∈ JsMore.sort l <-> y ∈ l.
Proof.
  unfold JsMore.sort. induction l as [|x l IH]; simpl; [done|].
  by rewrite elem_of_insert, IH, elem_of_cons.
Qed.

Lemma NoDup_insert (x : string) (l : list string) :
  x ∉ l -> NoDup l -> NoDup (JsMore.insert x l).
Proof.
  induction l as [|z l IH]; simpl; intros Hx Hl.
  - apply NoDup_singleton.
  - destruct (String.leb x z).
    + by constructor.
    + apply NoDup_cons in Hl as [Hz Hl]. apply not_elem_of_cons in Hx as [Hxz Hx].
      constructor; [|by apply IH].
      rewrite elem_of_insert. intros [->|?]; done.
Qed.

Lemma NoDup_sort (l : list string) : NoDup l -> NoDup (JsMore.sort l).
Proof.
  unfold JsMore.sort. induction 1 as [|x l Hx Hl IH]; simpl; [constructor|].
  apply NoDup_insert; [|done]. by rewrite (elem_of_sort x l).
Qed.

(** X9. With the stores serving and the [distinct] query answered,
    [getAllTags] returns, without changing the stores, the tags that some
    record has, each once, in ascending order. *)
Theorem all_tags_are_sorted_and_distinct (w : World) :
  up w ->
  quiet w ->
  refused (Distinct "tags") = None ->
  exists found w',
    GalleryQueries.getAllTags w = (Returned found, w')
    /\ stores w' = stores w
    /\ (forall t, t ∈ found <-> exists d, d ∈ images (stores w) /\ t ∈ tags d)
    /\ NoDup found
    /\ (forall i j a b, i < j -> found !! i = Some a -> found !! j = Some b ->
          String.leb a b = true).
Proof.
  intros Hup Hq Hask.
  destruct (getCollection_returns w (up_setup w Hup) (quiet_setup w Hq))
    as (pre & _ & Hcoll).
  eexists _, _. split_and!.
  - unfold GalleryQueries.getAllTags. apply try_catch_run.
    erewrite bind_run by exact Hcoll.
    erewrite bind_run by (by apply ask_served).
    reflexivity.
  - reflexivity.
  - intros t. cbn [stores].
    rewrite elem_of_sort, elem_of_StringSet_new, list_elem_of_In, in_concat.
    split.
    + intros (ts & (d & -> & Hd)%list_elem_of_In%list_elem_of_fmap & Ht%list_elem_of_In).
      eauto.
    + intros (d & Hd & Ht). exists (tags d).
      split; [by apply list_elem_of_In, list_elem_of_fmap_2 | by apply list_elem_of_In].
  - apply NoDup_sort, NoDup_StringSet_new.
  - intros i j a b Hij Hi Hj.
    exact (StronglySorted_lookup _ _ i j a b (sort_ascending _) Hij Hi Hj).
Qed.

Lemma foldl_add_integers (sizes : list Z) (z : Z) :
  foldl JsMore.add (Js.of_Z z) (Js.of_Z <$> sizes) = Js.of_Z (z + foldr Z.add 0%Z sizes).
Proof.
  revert z. induction sizes as [|b sizes IH]; intros z.
  - simpl. by rewrite Z.add_0_r.
  - rewrite fmap_cons. cbn [foldl foldr].
    assert (JsMore.add (Js.of_Z z) (Js.of_Z b) = Js.of_Z (z + b)) as ->.
    { unfold JsMore.add, Js.of_Z, inject_Z, Qplus. simpl. do 2 f_equal. lia. }
    rewrite IH. f_equal. lia.
Qed.

Lemma or_zero_of_Z (z : Z) : JsMore.or_zero (Some (Js.of_Z z)) = Js.of_Z z.
Proof.
  unfold JsMore.or_zero, JsMore.truthy, Js.of_Z.
  destruct (Qeq_bool (inject_Z z) 0) eqn:Hz; [|done]. simpl.
  apply Qeq_bool_iff in Hz. unfold Qeq in Hz. simpl in Hz.
  by replace z with 0%Z by lia.
Qed.

(** The mean of integers, rounded to the nearest integer, halves upwards. *)
Lemma round_mean (total n : Z) :
  (0 < n)%Z ->
  JsMore.round (JsMore.or_zero (Some (Js.div (Js.of_Z total) (Js.of_Z n))))
  = Js.of_Z ((2 * total + n) / (2 * n)).
Proof.
  intros Hn. unfold Js.div, Js.of_Z, Js.Qis_zero.
  assert (~ inject_Z n == 0) as Hn0.
  { unfold Qeq. simpl. lia. }
  destruct (Qeq_bool (inject_Z n) 0) eqn:Hz; [by apply Qeq_bool_iff in Hz|].
  assert (Qfloor (inject_Z total / inject_Z n + (1 # 2)) = ((2 * total + n) / (2 * n))%Z)
    as Hmean.
  { rewrite Zdiv_Qdiv. apply Qfloor_comp.
    rewrite inject_Z_plus, !inject_Z_mult. change (inject_Z 2) with 2%Q. by field. }
  unfold JsMore.or_zero, JsMore.truthy.
  destruct (Qeq_bool (inject_Z total / inject_Z n) 0) eqn:Hq;
    cbn [negb]; unfold JsMore.round, Js.of_Z.
  - apply Qeq_bool_iff in Hq. rewrite <- Hmean. do 2 f_equal.
    apply Qfloor_comp. by rewrite Hq.
  - by rewrite Hmean.
Qed.

Lemma matches_visible (b : bool) (d : GalleryImage) :
  Collection.matches (GalleryQueries.visible b) d = Bool.eqb (isPublic d) b.
Proof. reflexivity. Qed.

Lemma length_filter_visible (docs : list GalleryImage) :
  length (List.filter (Collection.matches (GalleryQueries.visible true)) docs)
  + length (List.filter (Collection.matches (GalleryQueries.visible false)) docs)
  = length docs.
Proof.
  induction docs as [|d docs IH]; simpl; [done|].
  rewrite !matches_visible. destruct (isPublic d); simpl; lia.
Qed.

Lemma serve_aggregate_integers (s : Stores) (sizes : list Z) :
  bytes <$> images s = Js.of_Z <$> sizes ->
  GalleryQueries.serve_aggregate s
  = (Returned match sizes with
              | [] => []
              | _ => [(Js.of_Z (foldr Z.add 0%Z sizes),
                       Js.div (Js.of_Z (foldr Z.add 0%Z sizes))
                         (Js.of_Z (Z.of_nat (length sizes))))]
              end, s).
Proof.
  intros Hsizes. unfold GalleryQueries.serve_aggregate.
  assert (length (images s) = length sizes) as Hlen.
  { by rewrite <- (length_fmap bytes), Hsizes, length_fmap. }
  destruct (images s) as [|d docs]; destruct sizes as [|b sizes]; try done.
  by rewrite Hsizes, foldl_add_integers, Hlen.
Qed.

(** X10. With the stores serving and the aggregation answered, [getStats]
    returns without changing the stores; the public and the private images
    add up to the total; and with integer sizes the total size is their sum
    and the average size is their mean rounded to the nearest integer, halves
    upwards, both 0 for an empty collection. *)
Theorem stats_count_sum_and_round (w : World) (sizes : list Z) :
  let n := Z.of_nat (length sizes) in
  let total := foldr Z.add 0%Z sizes in
  up w ->
  quiet w ->
  refused Aggregate = None ->
  bytes <$> images (stores w) = Js.of_Z <$> sizes ->
  exists stats w' shown hidden,
    GalleryQueries.getStats w = (Returned stats, w')
    /\ stores w' = stores w
    /\ totalImages stats = Js.of_nat (length (images (stores w)))
    /\ publicImages stats = Js.of_nat shown
    /\ privateImages stats = Js.of_nat hidden
    /\ shown + hidden = length (images (stores w))
    /\ totalSize stats = Js.of_Z total
    /\ averageSize stats
       = Js.of_Z (match sizes with [] => 0 | _ => (2 * total + n) / (2 * n) end).
Proof.
  intros n total Hup Hq Hask Hsizes.
  destruct (getCollection_returns w (up_setup w Hup) (quiet_setup w Hq))
    as (pre & _ & Hcoll).
  eexists _, _, _, _. split_and!.
  - unfold GalleryQueries.getStats. apply try_catch_run.
    erewrite bind_run by exact Hcoll.
    erewrite bind_run by (apply countDocuments_served; [apply Hup | apply Hq]).
    cbn [stores collection now calls env].
    erewrite bind_run by (apply countDocuments_served; [apply Hup | apply Hq]).
    cbn [stores collection now calls env].
    erewrite bind_run by (apply countDocuments_served; [apply Hup | apply Hq]).
    cbn [stores collection now calls env].
    erewrite bind_run
      by (apply ask_served; [exact Hask | by apply serve_aggregate_integers]).
    reflexivity.
  - reflexivity.
  - cbn [totalImages]. by rewrite filter_everything.
  - reflexivity.
  - reflexivity.
  - apply length_filter_visible.
  - cbn [totalSize]. destruct sizes; [done|]. apply or_zero_of_Z.
  - cbn [averageSize]. subst n total. destruct sizes as [|b sizes']; [done|].
    apply round_mean. cbn [length]. lia.
Qed.

End TagsAndStatistics.

(** ** When a collaborator rejects half-way *)

Section HalfWay.
Context `{Mongo}.

(** X11. When the database rejects the delete of an existing record,
    [deleteImage] fails with the wrapped error after the asset has been
    destroyed: the record is still in the collection and its asset is gone. *)
Theorem delete_loses_the_asset_when_the_delete_rejects (id : string) (w : World)
  (existing : GalleryImage) (e : Exn) :
  ObjectId_isValid id = true ->
  quiet w ->
  (forall c, setup_call c = true -> rejects (env w) c = None) ->
  rejects (env w) (FindOne (ObjectId_new id)) = None ->
  List.find (Collection.has_id (ObjectId_new id)) (images (stores w)) = Some existing ->
  rejects (env w) (Destroy (cloudinaryId existing)) = None ->
  rejects (env w) (DeleteOne (ObjectId_new id)) = Some e ->
  exists w',
    GalleryService.deleteImage id w
    = (Thrown (Error ("Failed to delete image: " +:+ message_or e "Unknown error")), w')
    /\ images (stores w') = images (stores w)
    /\ existing ∈ images (stores w')
    /\ cloudinaryId existing ∉ assets (stores w').
Proof.
  intros Hid Hq Hsetup Hfind Hfound Hdestroy Hdelete.
  destruct (getCollection_returns w Hsetup (quiet_setup w Hq)) as (pre & _ & Hcoll).
  eexists. split.
  - unfold GalleryService.deleteImage.
    erewrite try_catch_thrown; cycle 1.
    { erewrite bind_run by exact Hcoll. rewrite Hid. cbn [negb].
      erewrite bind_run by (apply findOne_served; [apply Hfind | apply Hq]).
      cbn [stores collection now calls env]. rewrite Hfound.
      erewrite bind_run by (apply deleteImage_served; [apply Hdestroy | apply Hq]).
      cbn [stores collection now calls env].
      apply bind_thrown. unfold Collection.deleteOne.
      apply await_rejected; [apply Hdelete | apply Hq]. }
    reflexivity.
  - cbn [stores collection now calls env]. split_and!.
    + reflexivity.
    + cbn [Cloudinary.serve_destroy snd Cloudinary.set_assets images].
      apply find_some in Hfound as [Hin _]. by apply list_elem_of_In.
    + apply not_elem_of_serve_destroy.
Qed.

(** X12. When Cloudinary rejects the upload of a replacement file,
    [updateImage] fails with the wrapped error after the old asset has been
    destroyed: no record is changed and the record's asset is gone. *)
Theorem update_loses_the_asset_when_the_upload_rejects (id : string)
  (updateData : UpdateImageRequest.t) (file : Buffer) (w : World)
  (existing : GalleryImage) (e : Exn) :
  ObjectId_isValid id = true ->
  quiet w ->
  (forall c, setup_call c = true -> rejects (env w) c = None) ->
  rejects (env w) (FindOne (ObjectId_new id)) = None ->
  List.find (Collection.has_id (ObjectId_new id)) (images (stores w)) = Some existing ->
  rejects (env w) (Destroy (cloudinaryId existing)) = None ->
  (forall public_id, rejects (env w) (UploadStream file public_id) = Some e) ->
  exists w' pre public_id,
    GalleryService.updateImage id updateData (Some file) w
    = (Thrown (Error ("Failed to update image: " +:+ message_or e "Unknown error")), w')
    /\ images (stores w') = images (stores w)
    /\ (cloudinaryId existing ∉ assets (stores w'))
    /\ Forall (fun c => setup_call c = true) pre
    /\ calls w' = calls w ++ pre
         ++ [FindOne (ObjectId_new id); Destroy (cloudinaryId existing);
             UploadStream file public_id].
Proof.
  intros Hid Hq Hsetup Hfind Hfound Hdestroy Hupload.
  destruct (getCollection_returns w Hsetup (quiet_setup w Hq)) as (pre & Hpre & Hcoll).
  eexists _, pre, _. split.
  - unfold GalleryService.updateImage.
    erewrite try_catch_thrown; cycle 1.
    { erewrite bind_run by exact Hcoll. rewrite Hid. cbn [negb].
      erewrite bind_run by (apply findOne_served; [apply Hfind | apply Hq]).
      cbn [stores collection now calls env]. rewrite Hfound.
      apply bind_thrown. apply bind_thrown.
      unfold Cloudinary.updateImage, Cloudinary.logged.
      erewrite try_catch_thrown; cycle 1.
      { erewrite bind_run by (apply deleteImage_served; [apply Hdestroy | apply Hq]).
        unfold Cloudinary.uploadImage.
        apply await_rejected; [apply Hupload | apply Hq]. }
      reflexivity. }
    reflexivity.
  - cbn [stores collection now calls env]. split_and!.
    + reflexivity.
    + apply not_elem_of_serve_destroy.
    + exact Hpre.
    + by rewrite <- !app_assoc.
Qed.

(** X13. When Cloudinary rejects the upload, [createImage] fails with the
    wrapped error (a rejection that is not an [Error] reads "Unknown error")
    right after the upload was tried: no insert is made and the stores are as
    they were. *)
Theorem create_makes_no_record_when_the_upload_rejects
  (imageData : CreateImageRequest.t) (file : Buffer) (w : World) (e : Exn) :
  quiet w ->
  (forall c, setup_call c = true -> rejects (env w) c = None) ->
  rejects (env w) (UploadStream file None) = Some e ->
  exists w' pre,
    GalleryService.createImage imageData file w
    = (Thrown (Error ("Failed to create image: " +:+ message_or e "Unknown error")), w')
    /\ Forall (fun c => setup_call c = true) pre
    /\ calls w' = calls w ++ pre ++ [UploadStream file None]
    /\ stores w' = stores w.
Proof.
  intros Hq Hsetup Hupload.
  destruct (getCollection_returns w Hsetup (quiet_setup w Hq)) as (pre & Hpre & Hcoll).
  eexists _, pre. split.
  - unfold GalleryService.createImage.
    erewrite try_catch_thrown; cycle 1.
    { erewrite bind_run by exact Hcoll.
      apply bind_thrown. unfold Cloudinary.uploadImage.
      apply await_rejected; [apply Hupload | apply Hq]. }
    reflexivity.
  - cbn [stores collection now calls env]. split_and!; [done | | done].
    by rewrite <- !app_assoc.
Qed.

End HalfWay.

(** ** What the upload and the update routes answer *)

Section Answers.
Context `{Mongo}.

Lemma gt_maxSize (file : File.t) :
  Js.gt (File.size file) UploadRoute.maxSize
  = bool_decide (10 * 1024 * 1024 < Z.of_nat (length (File.content file)))%Z.
Proof. unfold File.size, UploadRoute.maxSize, Js.of_nat. apply gt_of_Z. Qed.

Lemma unfit_checks (file : File.t) :
  unfit file
  <-> negb (Js.startsWith (File.type file) "image/") = true
      \/ Js.gt (File.size file) UploadRoute.maxSize = true.
Proof.
  unfold unfit. rewrite gt_maxSize, bool_decide_eq_true, negb_true_iff. done.
Qed.

Lemma truthy_false (o : option string) :
  Js.truthy o = false <-> o = None \/ o = Some "".
Proof.
  destruct o as [s|]; simpl.
  - rewrite negb_false_iff, String.eqb_eq. split; [intros ->; by right|].
    by intros [|[= ->]].
  - split; [by left | done].
Qed.

(** X14. [POST /upload] always answers, with 201, 400 or 500.  It answers
    400 exactly when there is no file, the title is missing or empty, the file
    is not an image by its type, or the file has more than 10MB; and then it
    has called neither store. *)
Theorem upload_answers_400_exactly_for_bad_input (formData : FormData) (w : World) :
  exists r w',
    UploadRoute.POST formData w = (Returned r, w')
    /\ (status r = 201 \/ status r = 400 \/ status r = 500)%Z
    /\ (status r = 400%Z <-> refused_upload formData)
    /\ (status r = 400%Z -> w' = w).
Proof.
  unfold UploadRoute.POST, refused_upload, try_catch.
  destruct (form_file formData) as [file|]; [|by eexists _, _; cbn; intuition].
  destruct (Js.truthy (form_title formData)) eqn:Htitle; cbn [negb]; cycle 1.
  { eexists _, _. cbn. split_and!; [done | by right; left | | done].
    apply truthy_false in Htitle. intuition. }
  assert (~ (form_title formData = None \/ form_title formData = Some "")) as Hnot.
  { rewrite <- truthy_false. congruence. }
  destruct (negb (Js.startsWith (File.type file) "image/")) eqn:Htype.
  { eexists _, _. cbn. split_and!; [done | by right; left | | done].
    split; [|done]. intros _. right; right. apply unfit_checks. by left. }
  destruct (Js.gt (File.size file) UploadRoute.maxSize) eqn:Hsize.
  { eexists _, _. cbn. split_and!; [done | by right; left | | done].
    split; [|done]. intros _. right; right. apply unfit_checks. by right. }
  assert (~ unfit file) as Hfit.
  { rewrite unfit_checks. intros [|]; congruence. }
  unfold bind, ret.
  destruct (GalleryService.createImage _ _ w) as [[created|e] w'];
    eexists _, _; cbn; (split_and!; [done | intuition | | done]);
    (split; [done | tauto]).
Qed.

Lemma blank_checks (title : string) :
  (String.length (Js.trim title) =? 0)%nat = true <-> Js.trim title = "".
Proof.
  rewrite Nat.eqb_eq. destruct (Js.trim title); simpl; split; done.
Qed.

Lemma checked_file_inl (file : option File.t) (r : NextResponse) :
  ImageRoutePut.checked_file file = inl r ->
  status r = 400%Z /\ exists f, file = Some f /\ unfit f.
Proof.
  unfold ImageRoutePut.checked_file. destruct file as [f|]; [|done].
  destruct (negb (Js.startsWith (File.type f) "image/")) eqn:Htype.
  { intros [= <-]. split; [done|]. exists f. split; [done|]. apply unfit_checks. by left. }
  destruct (Js.gt (File.size f) UploadRoute.maxSize) eqn:Hsize; [|done].
  intros [= <-]. split; [done|]. exists f. split; [done|]. apply unfit_checks. by right.
Qed.

Lemma checked_file_inr (file : option File.t) (fileBuffer : option Buffer) :
  ImageRoutePut.checked_file file = inr fileBuffer ->
  fileBuffer = File.content <$> file /\ forall f, file = Some f -> ~ unfit f.
Proof.
  unfold ImageRoutePut.checked_file. destruct file as [f|].
  - destruct (negb (Js.startsWith (File.type f) "image/")) eqn:Htype; [done|].
    destruct (Js.gt (File.size f) UploadRoute.maxSize) eqn:Hsize; [done|].
    intros [= <-]. split; [done|]. intros ? [= <-].
    rewrite unfit_checks. intros [|]; congruence.
  - intros [= <-]. split; done.
Qed.

(** X15. [PUT /images/{id}] always answers, with 200, 400, 404 or 500.  It
    answers 400 exactly when the id is empty, a title is given that is blank
    once trimmed, or a file is given that is not an image by its type or has
    more than 10MB; and then it has called neither store. *)
Theorem update_answers_400_exactly_for_bad_input (id : string) (formData : FormData)
  (w : World) :
  exists r w',
    ImageRoutePut.PUT id formData w = (Returned r, w')
    /\ (status r = 200 \/ status r = 400 \/ status r = 404 \/ status r = 500)%Z
    /\ (status r = 400%Z <-> refused_update id formData)
    /\ (status r = 400%Z -> w' = w).
Proof.
  unfold ImageRoutePut.PUT, refused_update, try_catch.
  destruct (Js.truthy (Some id)) eqn:Hid; cbn [negb]; cycle 1.
  { eexists _, _. cbn. split_and!; [done | by right; left | | done].
    apply truthy_false in Hid as [|[= ->]]; [done|]. intuition. }
  assert (id <> "") as Hne.
  { intros ->. done. }
  destruct (match form_title formData with
            | Some title => (String.length (Js.trim title) =? 0)%nat
            | None => false
            end) eqn:Htitle.
  { eexists _, _. cbn. split_and!; [done | by right; left | | done].
    split; [|done]. intros _. right; left.
    destruct (form_title formData) as [title|]; [|done].
    exists title. split; [done|]. by apply blank_checks. }
  assert (~ exists title, form_title formData = Some title /\ Js.trim title = "")
    as Hnot.
  { intros (title & Ht & Hblank). rewrite Ht in Htitle.
    apply blank_checks in Hblank. congruence. }
  destruct (ImageRoutePut.checked_file (form_file formData)) as [refusal|fileBuffer]
    eqn:Hfile.
  { apply checked_file_inl in Hfile as [Hstatus Hunfit].
    eexists _, _. cbn. split_and!; [done | by right; left | | done].
    split; [|done]. intros _. right; right. exact Hunfit. }
  apply checked_file_inr in Hfile as [_ Hfit].
  assert (~ exists file, form_file formData = Some file /\ unfit file) as Hnofile.
  { intros (file & Hf & Hunfit). by eapply Hfit. }
  unfold bind, ret.
  destruct (GalleryService.updateImage id _ fileBuffer w) as [[[updated|]|e] w'];
    eexists _, _; cbn; (split_and!; [done | intuition | | done]);
    (split; [done | tauto]).
Qed.

Lemma updateImage_missing (id : string) (updateData : UpdateImageRequest.t)
  (file : option Buffer) (w : World) :
  ObjectId_isValid id = true ->
  up w ->
  quiet w ->
  List.find (Collection.has_id (ObjectId_new id)) (images (stores w)) = None ->
  exists w',
    GalleryService.updateImage id updateData file w
    = (Thrown (Error "Failed to update image: Image not found"), w')
    /\ stores w' = stores w.
Proof.
  intros Hid Hup Hq Hfind.
  destruct (getCollection_returns w (up_setup w Hup) (quiet_setup w Hq))
    as (pre & _ & Hcoll).
  eexists. split.
  - unfold GalleryService.updateImage.
    erewrite try_catch_thrown; cycle 1.
    { erewrite bind_run by exact Hcoll. rewrite Hid. cbn [negb].
      erewrite bind_run by (apply findOne_served; [apply Hup | apply Hq]).
      cbn [stores collection now calls env]. rewrite Hfind. reflexivity. }
    reflexivity.
  - reflexivity.
Qed.

(** X16. The 404 of [PUT] and of [DELETE /images/{id}] is not the answer
    to a well-formed id that no record has: with the stores serving, the
    service throws "Image not found" for it and both routes answer 500,
    leaving the stores as they are. *)
Theorem unknown_id_is_answered_500_by_put_and_delete (id : string) (formData : FormData)
  (w : World) :
  id <> "" ->
  ObjectId_isValid id = true ->
  up w ->
  quiet w ->
  List.find (Collection.has_id (ObjectId_new id)) (images (stores w)) = None ->
  ~ refused_update id formData ->
  (exists w',
     ImageRoutePut.PUT id formData w
     = (Returned (failure "Failed to update image"
                    "Failed to update image: Image not found" 500), w')
     /\ stores w' = stores w)
  /\ (exists w',
        ImageRoute.DELETE id w
        = (Returned (failure "Failed to delete image"
                       "Failed to delete image: Image not found" 500), w')
        /\ stores w' = stores w).
Proof.
  intros Hne Hid Hup Hq Hfind Hpass. split; [|by apply delete_missing_answers_500].
  unfold refused_update in Hpass.
  unfold ImageRoutePut.PUT. rewrite (truthy_Some id Hne). cbn [negb].
  destruct (match form_title formData with
            | Some title => (String.length (Js.trim title) =? 0)%nat
            | None => false
            end) eqn:Htitle.
  { exfalso. apply Hpass. right; left.
    destruct (form_title formData) as [title|]; [|done].
    exists title. split; [done|]. by apply blank_checks. }
  destruct (ImageRoutePut.checked_file (form_file formData)) as [refusal|fileBuffer]
    eqn:Hfile.
  { exfalso. apply Hpass. right; right. by apply checked_file_inl in Hfile as [_ ?]. }
  match goal with
  | |- context [GalleryService.updateImage id ?u fileBuffer] =>
      destruct (updateImage_missing id u fileBuffer w Hid Hup Hq Hfind)
        as (w' & Hrun & Hstores)
  end.
  exists w'. split; [|done].
  erewrite try_catch_thrown by (by erewrite bind_thrown). reflexivity.
Qed.


End Answers.

(** ** The two small routes *)

Section SmallRoutes.
Context `{Mongo} `{Queries}.

Lemma try_catch_wrapped {A} (body : IO A) (wrap : Exn -> Exn) (w w' : World) (e : Exn) :
  try_catch body (fun error => throw (wrap error)) w = (Thrown e, w') ->
  exists e', body w = (Thrown e', w') /\ e = wrap e'.
Proof.
  unfold try_catch, throw. destruct (body w) as [[a|e'] w1]; [done|].
  intros [= <- <-]. eauto.
Qed.

(** X18. [GET /gallery/sync] and [GET /tags] always answer: with 200 and
    what the service returned, or with 500, no data and the message of the
    service, which starts with "Failed to sync with Cloudinary: " or "Failed
    to retrieve tags: ": the routes' own "Unknown error occurred" is never
    the answer. *)
Theorem sync_and_tags_routes_always_answer (w : World) :
  (exists a w',
     SyncRoute.GET w = (Returned a, w')
     /\ ((answer_status a = 200%Z /\ success (answer a) = true
          /\ exists syncStatus, data (answer a) = Some syncStatus
               /\ GalleryService.syncWithCloudinary w = (Returned syncStatus, w'))
         \/ (answer_status a = 500%Z /\ success (answer a) = false
             /\ data (answer a) = None
             /\ exists m, error (answer a)
                          = Some ("Failed to sync with Cloudinary: " +:+ m))))
  /\ (exists a w',
        TagsRoute.GET w = (Returned a, w')
        /\ ((answer_status a = 200%Z /\ success (answer a) = true
             /\ exists found, data (answer a) = Some found
                  /\ GalleryQueries.getAllTags w = (Returned found, w'))
            \/ (answer_status a = 500%Z /\ success (answer a) = false
                /\ data (answer a) = None
                /\ exists m, error (answer a) = Some ("Failed to retrieve tags: " +:+ m)))).
Proof.
  split.
  - unfold SyncRoute.GET, try_catch at 1, bind, ret.
    destruct (GalleryService.syncWithCloudinary w) as [[s|e] w'] eqn:Hrun.
    + eexists _, _. split; [done|]. left. cbn. eauto.
    + apply try_catch_wrapped in Hrun as (e' & _ & ->).
      eexists _, _. split; [done|]. right. cbn. eauto.
  - unfold TagsRoute.GET, try_catch at 1, bind, ret.
    destruct (GalleryQueries.getAllTags w) as [[s|e] w'] eqn:Hrun.
    + eexists _, _. split; [done|]. left. cbn. eauto.
    + apply try_catch_wrapped in Hrun as (e' & _ & ->).
      eexists _, _. split; [done|]. right. cbn. eauto.
Qed.

End SmallRoutes.

(** ** Tags of a form and the page buttons *)

Section Pieces.

Lemma trimStart_cons (c : ascii) (s t : string) :
  Js.trimStart s = String c t -> Js.isWhiteSpace c = false.
Proof.
  induction s as [|x s IH]; simpl; [done|].
  destruct (Js.isWhiteSpace x) eqn:Hx; [done|]. by intros [= <- _].
Qed.

Lemma trimEnd_cons (c : ascii) (s : string) :
  Js.isWhiteSpace c = false -> exists t, Js.trimEnd (String c s) = String c t.
Proof.
  intros Hc. simpl. rewrite Hc. destruct (Js.trimEnd s); eauto.
Qed.

Lemma trimEnd_idem (s : string) : Js.trimEnd (Js.trimEnd s) = Js.trimEnd s.
Proof.
  induction s as [|c s IH]; simpl; [done|].
  destruct (Js.trimEnd s) as [|x t] eqn:Hs.
  - destruct (Js.isWhiteSpace c) eqn:Hc; simpl; by rewrite ?Hc.
  - change (Js.trimEnd (String c (String x t))) with
      (match Js.trimEnd (String x t) with
       | EmptyString => if Js.isWhiteSpace c then EmptyString else String c EmptyString
       | u => String c u
       end).
    by rewrite IH.
Qed.

Lemma trim_idem (s : string) : Js.trim (Js.trim s) = Js.trim s.
Proof.
  unfold Js.trim. destruct (Js.trimStart s) as [|c t] eqn:Hs; [done|].
  pose proof (trimStart_cons c s t Hs) as Hc.
  destruct (trimEnd_cons c t Hc) as (u & Hu). rewrite Hu.
  assert (Js.trimStart (String c u) = String c u) as -> by (simpl; by rewrite Hc).
  by rewrite <- Hu, trimEnd_idem.
Qed.

Lemma In_trimStart (c : ascii) (s : string) :
  In c (list_ascii_of_string (Js.trimStart s)) -> In c (list_ascii_of_string s).
Proof.
  induction s as [|x s IH]; simpl; [done|].
  destruct (Js.isWhiteSpace x); simpl; [by right; apply IH | done].
Qed.

Lemma In_trimEnd (c : ascii) (s : string) :
  In c (list_ascii_of_string (Js.trimEnd s)) -> In c (list_ascii_of_string s).
Proof.
  induction s as [|x s IH]; simpl; [done|].
  destruct (Js.trimEnd s) as [|y t].
  - destruct (Js.isWhiteSpace x); simpl; [done | intros [|[]]; by left].
  - simpl in *. intros [|Hc]; [by left | right; by apply IH].
Qed.

Lemma In_trim (c : ascii) (s : string) :
  In c (list_ascii_of_string (Js.trim s)) -> In c (list_ascii_of_string s).
Proof. intros Hc. by apply In_trimStart, In_trimEnd. Qed.

Lemma split_pieces (sep : ascii) (s p : string) :
  p ∈ Js.split sep s -> ~ In sep (list_ascii_of_string p).
Proof.
  revert p. induction s as [|c s IH]; simpl; intros p.
  - intros ->%list_elem_of_singleton. simpl. tauto.
  - destruct (decide (c = sep)) as [->|Hc].
    + intros [->|Hp]%elem_of_cons; [simpl; tauto | by apply IH].
    + destruct (Js.split sep s) as [|q qs].
      * intros ->%list_elem_of_singleton. simpl. intros [|[]]; done.
      * intros [->|Hp]%elem_of_cons.
        -- simpl. intros [|Hq]; [done|]. apply (IH q); [by left | done].
        -- apply IH. by right.
Qed.

(** X19. The tags that the upload and the update routes read off a form
    field: no tag is empty, has white space around it or holds a comma; an
    absent or empty field gives no tag; and each tag is a trimmed piece of the
    field between commas. *)
Theorem parsed_tags_are_trimmed_pieces (tags : option string) :
  (Js.truthy tags = false -> UploadRoute.parse_tags tags = [])
  /\ (forall tag, tag ∈ UploadRoute.parse_tags tags ->
        tag <> ""
        /\ Js.trim tag = tag
        /\ ~ In ","%char (list_ascii_of_string tag)
        /\ exists piece, piece ∈ Js.split "," (default "" tags) /\ tag = Js.trim piece).
Proof.
  unfold UploadRoute.parse_tags. split; [by intros ->|].
  intros tag. destruct (Js.truthy tags); [|by intros ?%elem_of_nil].
  intros [Hin Hlen]%list_elem_of_In%filter_In.
  apply list_elem_of_In, list_elem_of_fmap in Hin as (piece & -> & Hpiece).
  split_and!.
  - intros Hempty. by rewrite Hempty in Hlen.
  - apply trim_idem.
  - intros Hcomma%In_trim. by eapply split_pieces.
  - eauto.
Qed.

(** X20. The page buttons of the gallery, for a current page between 1
    and the number of pages: there are 5 of them, or as many as there are
    pages; they show consecutive page numbers, all between 1 and the number of
    pages; and the current page is among them. *)
Theorem page_buttons_are_a_window_on_the_current_page (totalPages currentPage : Z) :
  (1 <= currentPage <= totalPages)%Z ->
  length (GalleryPage.buttons totalPages currentPage) = Z.to_nat (Z.min 5 totalPages)
  /\ (exists first, forall i pageNum,
        GalleryPage.buttons totalPages currentPage !! i = Some pageNum ->
        pageNum = (first + Z.of_nat i)%Z /\ (1 <= pageNum <= totalPages)%Z)
  /\ currentPage ∈ GalleryPage.buttons totalPages currentPage.
Proof.
  intros Hc. unfold GalleryPage.buttons. split_and!.
  - by rewrite length_fmap, length_seq.
  - exists (GalleryPage.pageNum totalPages currentPage 0).
    intros i pageNum. rewrite list_lookup_fmap.
    destruct (seq 0 (Z.to_nat (Z.min 5 totalPages)) !! i) as [j|] eqn:Hj; [|done].
    apply lookup_seq in Hj as [-> Hi]. simpl. intros [= <-].
    unfold GalleryPage.pageNum.
    repeat match goal with
           | |- context [(?a <=? ?b)%Z] => destruct (Z.leb_spec a b)
           | |- context [(?a >=? ?b)%Z] => destruct (Z.geb_spec a b)
           end; lia.
  - apply list_elem_of_fmap.
    exists (Z.to_nat (currentPage - GalleryPage.pageNum totalPages currentPage 0)).
    unfold GalleryPage.pageNum.
    repeat match goal with
           | |- context [(?a <=? ?b)%Z] => destruct (Z.leb_spec a b)
           | |- context [(?a >=? ?b)%Z] => destruct (Z.geb_spec a b)
           end; (split; [lia | apply elem_of_seq; lia]).
Qed.

End Pieces.

(** ** The further properties at work on the fixture gallery *)

Section MoreFixtures.
#[local] Existing Instance Fixture.mongo.
#[local] Existing Instance Scenario.answering.

Lemma calm_fresh :
  fresh ("64b7f0c2a1d3e4f5a6b7c8d4" : @ObjectId Fixture.mongo) "gallery/fresh"
    (stores (Fixture.world Fixture.calm)).
Proof.
  split; [reflexivity|]. split; [reflexivity|].
  repeat (apply not_elem_of_cons; split; [discriminate|]). apply not_elem_of_nil.
Defined.

(** A new image "dawn" in the gallery of three. *)
Lemma create_returns_the_stored_record_witness :
  exists created w' pre doc,
    GalleryService.createImage Fixture.dawn (File.content Fixture.png)
      (Fixture.world Fixture.calm) = (Returned created, w')
    /\ images (stores w') = images (stores (Fixture.world Fixture.calm)) ++ [created]
    /\ assets (stores w') = assets (stores (Fixture.world Fixture.calm)) ++ ["gallery/fresh"]
    /\ calls w' = calls (Fixture.world Fixture.calm) ++ pre
         ++ [UploadStream (File.content Fixture.png) None; InsertOne doc]
    /\ Forall (fun c => setup_call c = true) pre
    /\ _id created = Some ("64b7f0c2a1d3e4f5a6b7c8d4" : @ObjectId Fixture.mongo)
    /\ title created = "dawn"
    /\ description created = Some ""
    /\ tags created = []
    /\ isPublic created = true
    /\ cloudinaryId created = "gallery/fresh"
    /\ publicId created = cloudinaryId created
    /\ cloudinaryUrl created = "https://res.cloudinary.com/fresh"
    /\ bytes created = Js.of_Z 3
    /\ createdAt created = 5000%Z
    /\ updatedAt created = 5000%Z.
Proof.
  apply (create_returns_the_stored_record Fixture.dawn (File.content Fixture.png)
           (Fixture.world Fixture.calm) _ calm_up calm_quiet eq_refl calm_fresh).
Defined.

Lemma created_record_is_read_back_witness :
  exists created w',
    GalleryService.createImage Fixture.dawn (File.content Fixture.png)
      (Fixture.world Fixture.calm) = (Returned created, w')
    /\ fst (GalleryService.getImageById "64b7f0c2a1d3e4f5a6b7c8d4" w')
       = Returned (Some created)
    /\ fst (GalleryService.getImageByCloudinaryId (cloudinaryId created) w')
       = Returned (Some created).
Proof.
  apply (created_record_is_read_back Fixture.dawn (File.content Fixture.png)
           (Fixture.world Fixture.calm) "64b7f0c2a1d3e4f5a6b7c8d4"
           eq_refl calm_up calm_quiet eq_refl calm_fresh).
Defined.

Lemma create_then_delete_witness :
  exists created w1 w2,
    GalleryService.createImage Fixture.dawn (File.content Fixture.png)
      (Fixture.world Fixture.calm) = (Returned created, w1)
    /\ GalleryService.deleteImage "64b7f0c2a1d3e4f5a6b7c8d4" w1 = (Returned true, w2)
    /\ stores w2 = stores (Fixture.world Fixture.calm).
Proof.
  apply (create_then_delete_restores_the_stores Fixture.dawn (File.content Fixture.png)
           (Fixture.world Fixture.calm) "64b7f0c2a1d3e4f5a6b7c8d4"
           eq_refl calm_up calm_quiet eq_refl calm_fresh).
Defined.


(** A search for "sunset" among the images tagged "sky" or "city". *)
Lemma listed_documents_match_the_filter_witness :
  exists r w',
    list_or_search (Some "sunset") (ImagesRoute.parse_query Scenario.first_page)
      (Fixture.world Fixture.calm) = (Returned r, w')
    /\ data (response r) = Some [Fixture.dusk; Fixture.sunset]
    /\ Fixture.dusk ∈ [Fixture.dusk; Fixture.sunset]
    /\ (forall b,
          PaginationQuery.isPublic (ImagesRoute.parse_query Scenario.first_page) = Some b ->
          isPublic Fixture.dusk = b)
    /\ (Js.truthy (PaginationQuery.tags (ImagesRoute.parse_query Scenario.first_page)) = true ->
        exists t, t ∈ tags Fixture.dusk /\ t ∈ Js.trim <$> Js.split "," "sky, city")
    /\ (forall term, Some "sunset" = Some term ->
          (0 < Collection.relevance (Some term) Fixture.dusk)%Q).
Proof.
  assert (page_data (list_or_search (Some "sunset")
                       (ImagesRoute.parse_query Scenario.first_page)
                       (Fixture.world Fixture.calm))
          = Some [Fixture.dusk; Fixture.sunset]) as Hdata by (vm_compute; reflexivity).
  destruct (list_or_search (Some "sunset") (ImagesRoute.parse_query Scenario.first_page)
              (Fixture.world Fixture.calm)) as [[r|e] w'] eqn:Hrun; [|discriminate Hdata].
  exists r, w'.
  exact (conj eq_refl (conj Hdata (conj (list_elem_of_here _ _)
           (listed_documents_match_the_filter (Some "sunset")
              (ImagesRoute.parse_query Scenario.first_page) (Fixture.world Fixture.calm)
              w' r [Fixture.dusk; Fixture.sunset] Fixture.dusk Hrun Hdata
              (list_elem_of_here _ _))))).
Defined.

Lemma sync_compares_records_with_listed_assets_witness :
  exists status w',
    GalleryService.syncWithCloudinary (Fixture.world Fixture.calm) = (Returned status, w')
    /\ stores w' = stores (Fixture.world Fixture.calm)
    /\ mongoCount status = Js.of_nat 3
    /\ cloudinaryCount status = Js.of_nat 3
    /\ (inSync status = true
        <-> list_to_set (cloudinaryId <$> images (stores (Fixture.world Fixture.calm)))
            =@{gset string} list_to_set (listed (stores (Fixture.world Fixture.calm)))).
Proof.
  apply (sync_compares_records_with_listed_assets (Fixture.world Fixture.calm)
           calm_up calm_quiet).
Defined.

Lemma crowded_listed : listed (stores Scenario.crowded) = replicate 500 "gallery/other".
Proof. vm_compute. reflexivity. Defined.

Lemma crowded_up : up Scenario.crowded.
Proof. intros c. reflexivity. Defined.

Lemma crowded_quiet : quiet Scenario.crowded.
Proof. intros c s. reflexivity. Defined.

(** One record, whose asset comes after 500 others: two discrepancies. *)
Lemma sync_reports_symmetric_difference_witness :
  exists status w',
    GalleryService.syncWithCloudinary Scenario.crowded = (Returned status, w')
    /\ length (discrepancies status)
       = size (list_to_set (cloudinaryId <$> images (stores Scenario.crowded))
               ∖ list_to_set (listed (stores Scenario.crowded)) : gset string)
         + size (list_to_set (listed (stores Scenario.crowded))
                 ∖ list_to_set (cloudinaryId <$> images (stores Scenario.crowded))
                 : gset string)
    /\ NoDup (discrepancies status)
    /\ (GalleryService.missing_in_cloudinary "gallery/64b7f0c2a1d3e4f5a6b7c8d1"
        ∈ discrepancies status)
    /\ (inSync status = true <-> discrepancies status = []).
Proof.
  destruct (sync_reports_symmetric_difference Scenario.crowded) as [Hreturns Hreports].
  destruct (Hreturns crowded_up crowded_quiet) as (status & w' & Hrun).
  destruct (Hreports status w' Hrun)
    as (found & listing & Hstores & Hlength & Hnodup & Hentries & Hsync).
  destruct (Hstores crowded_quiet) as [-> ->].
  exists status, w'.
  refine (conj Hrun (conj Hlength (conj Hnodup (conj _ Hsync)))).
  apply Hentries. left. exists "gallery/64b7f0c2a1d3e4f5a6b7c8d1". split; [|reflexivity].
  apply elem_of_difference. split.
  - apply elem_of_list_to_set. apply list_elem_of_here.
  - rewrite elem_of_list_to_set, crowded_listed.
    intros [Heq _]%elem_of_replicate. discriminate Heq.
Defined.

(** The asset of "beach sunset" is the 501st under the prefix. *)
Lemma sync_reports_assets_beyond_the_listing_witness :
  exists status w',
    GalleryService.syncWithCloudinary Scenario.crowded = (Returned status, w')
    /\ GalleryService.missing_in_cloudinary "gallery/64b7f0c2a1d3e4f5a6b7c8d1"
       ∈ discrepancies status
    /\ inSync status = false.
Proof.
  apply (sync_reports_assets_beyond_the_listing Scenario.crowded Fixture.sunset).
  - intros c. reflexivity.
  - intros c s. reflexivity.
  - apply list_elem_of_here.
  - change (cloudinaryId Fixture.sunset
            ∈ replicate 500 "gallery/other" ++ ["gallery/64b7f0c2a1d3e4f5a6b7c8d1"]).
    apply elem_of_app. right. apply list_elem_of_here.
  - rewrite crowded_listed. intros [Heq _]%elem_of_replicate. discriminate Heq.
Defined.


Lemma all_tags_witness :
  exists found w',
    GalleryQueries.getAllTags (Fixture.world Fixture.calm) = (Returned found, w')
    /\ stores w' = stores (Fixture.world Fixture.calm)
    /\ (forall t, t ∈ found
          <-> exists d, d ∈ images (stores (Fixture.world Fixture.calm)) /\ t ∈ tags d)
    /\ NoDup found
    /\ (forall i j a b, i < j -> found !! i = Some a -> found !! j = Some b ->
          String.leb a b = true).
Proof.
  apply (@all_tags_are_sorted_and_distinct Fixture.mongo Scenario.answering
           (Fixture.world Fixture.calm)
           calm_up calm_quiet eq_refl).
Defined.

(** Three images of 120000 bytes each. *)
Lemma stats_witness :
  exists stats w' shown hidden,
    GalleryQueries.getStats (Fixture.world Fixture.calm) = (Returned stats, w')
    /\ stores w' = stores (Fixture.world Fixture.calm)
    /\ totalImages stats = Js.of_nat 3
    /\ publicImages stats = Js.of_nat shown
    /\ privateImages stats = Js.of_nat hidden
    /\ shown + hidden = 3
    /\ totalSize stats = Js.of_Z 360000
    /\ averageSize stats = Js.of_Z 120000.
Proof.
  apply (@stats_count_sum_and_round Fixture.mongo Scenario.answering
           (Fixture.world Fixture.calm) [120000; 120000; 120000]%Z
           calm_up calm_quiet eq_refl eq_refl).
Defined.

Lemma no_deletes_quiet : quiet (Fixture.world Scenario.no_deletes).
Proof. intros c s. reflexivity. Defined.

Lemma no_uploads_quiet : quiet (Fixture.world Scenario.no_uploads).
Proof. intros c s. reflexivity. Defined.

(** The database takes no delete: "beach sunset" stays, its asset is gone. *)
Lemma delete_loses_the_asset_witness :
  exists w',
    GalleryService.deleteImage "64b7f0c2a1d3e4f5a6b7c8d1" (Fixture.world Scenario.no_deletes)
    = (Thrown (Error "Failed to delete image: connection closed"), w')
    /\ images (stores w') = images (stores (Fixture.world Scenario.no_deletes))
    /\ Fixture.sunset ∈ images (stores w')
    /\ "gallery/64b7f0c2a1d3e4f5a6b7c8d1" ∉ assets (stores w').
Proof.
  apply (delete_loses_the_asset_when_the_delete_rejects "64b7f0c2a1d3e4f5a6b7c8d1"
           (Fixture.world Scenario.no_deletes) Fixture.sunset (Error "connection closed")
           eq_refl no_deletes_quiet).
  - intros [] Hc; (reflexivity || discriminate).
  - reflexivity.
  - reflexivity.
  - reflexivity.
  - reflexivity.
Defined.

(** Cloudinary takes no upload: the record is as it was, its asset is gone. *)
Lemma update_loses_the_asset_witness :
  exists w' pre public_id,
    GalleryService.updateImage "64b7f0c2a1d3e4f5a6b7c8d1" Fixture.retag
      (Some (File.content Fixture.png)) (Fixture.world Scenario.no_uploads)
    = (Thrown (Error "Failed to update image: Unknown error"), w')
    /\ images (stores w') = images (stores (Fixture.world Scenario.no_uploads))
    /\ ("gallery/64b7f0c2a1d3e4f5a6b7c8d1" ∉ assets (stores w'))
    /\ Forall (fun c => setup_call c = true) pre
    /\ calls w' = calls (Fixture.world Scenario.no_uploads) ++ pre
         ++ [FindOne ("64b7f0c2a1d3e4f5a6b7c8d1" : @ObjectId Fixture.mongo);
             Destroy "gallery/64b7f0c2a1d3e4f5a6b7c8d1";
             UploadStream (File.content Fixture.png) public_id].
Proof.
  apply (update_loses_the_asset_when_the_upload_rejects "64b7f0c2a1d3e4f5a6b7c8d1"
           Fixture.retag (File.content Fixture.png) (Fixture.world Scenario.no_uploads)
           Fixture.sunset (NotAnError "http_code 420") eq_refl no_uploads_quiet).
  - intros [] Hc; (reflexivity || discriminate).
  - reflexivity.
  - reflexivity.
  - reflexivity.
  - intros public_id. reflexivity.
Defined.

Lemma create_makes_no_record_witness :
  exists w' pre,
    GalleryService.createImage Fixture.dawn (File.content Fixture.png)
      (Fixture.world Scenario.no_uploads)
    = (Thrown (Error "Failed to create image: Unknown error"), w')
    /\ Forall (fun c => setup_call c = true) pre
    /\ calls w' = calls (Fixture.world Scenario.no_uploads) ++ pre
         ++ [UploadStream (File.content Fixture.png) None]
    /\ stores w' = stores (Fixture.world Scenario.no_uploads).
Proof.
  apply (create_makes_no_record_when_the_upload_rejects Fixture.dawn
           (File.content Fixture.png) (Fixture.world Scenario.no_uploads)
           (NotAnError "http_code 420") no_uploads_quiet).
  - intros [] Hc; (reflexivity || discriminate).
  - reflexivity.
Defined.

Lemma rename_passes : ~ refused_update "64b7f0c2a1d3e4f5a6b7c8d9" Scenario.rename.
Proof.
  intros [Hid|[(title & Htitle & Hblank)|(file & Hfile & _)]].
  - discriminate Hid.
  - injection Htitle as <-. discriminate Hblank.
  - discriminate Hfile.
Defined.

(** An id that no image of the gallery has. *)
Lemma unknown_id_is_answered_500_witness :
  (exists w',
     ImageRoutePut.PUT "64b7f0c2a1d3e4f5a6b7c8d9" Scenario.rename (Fixture.world Fixture.calm)
     = (Returned (failure "Failed to update image"
                    "Failed to update image: Image not found" 500), w')
     /\ stores w' = stores (Fixture.world Fixture.calm))
  /\ (exists w',
        ImageRoute.DELETE "64b7f0c2a1d3e4f5a6b7c8d9" (Fixture.world Fixture.calm)
        = (Returned (failure "Failed to delete image"
                       "Failed to delete image: Image not found" 500), w')
        /\ stores w' = stores (Fixture.world Fixture.calm)).
Proof.
  apply (unknown_id_is_answered_500_by_put_and_delete "64b7f0c2a1d3e4f5a6b7c8d9"
           Scenario.rename (Fixture.world Fixture.calm)).
  - discriminate.
  - reflexivity.
  - exact calm_up.
  - exact calm_quiet.
  - reflexivity.
  - exact rename_passes.
Defined.


(** Page 7 of 10: the buttons 5 to 9. *)
Lemma page_buttons_witness :
  length (GalleryPage.buttons 10 7) = 5
  /\ (exists first, forall i pageNum,
        GalleryPage.buttons 10 7 !! i = Some pageNum ->
        pageNum = (first + Z.of_nat i)%Z /\ (1 <= pageNum <= 10)%Z)
  /\ 7%Z ∈ GalleryPage.buttons 10 7.
Proof.
  apply (page_buttons_are_a_window_on_the_current_page 10 7). lia.
Defined.

End MoreFixtures.
